(** * ss-light: the download client of lib/ss_light.go

    A shallow embedding of the light client (control-plane commands, the
    response envelope, client construction, swarm bootstrap with its retry
    task and zero-peer wait, the progress monitor and the [Start] flow) and
    of the command of examples/litepeer, followed by the properties the
    specification states about them and by further properties of the same
    code.

    Go values are embedded as follows: [int], [int64] and [time.Duration]
    are [Z] (64-bit two's complement, wrap-around written with [wrap64]);
    [string] and [[]byte] are [string]; [error] is the text of the error;
    a call that returns [(T, error)] is a [result T]; calls into other
    packages (HTTP, encoding/json, libp2p, the file system, the clock) are
    the fields of a [World]. *)

From Stdlib Require Import ZArith String List Ascii Bool Lia DecimalString.
From Stdlib Require Import Floats.SpecFloat Sorting.Sorted.
Import ListNotations.

Local Open Scope string_scope.
Local Open Scope Z_scope.

(** ** Go basics *)

Definition error := string.

(** [(T, error)]: [inl e] when the error is non-nil. *)
Definition result (T : Type) : Type := (error + T)%type.

Definition max_int : Z := 2 ^ 63 - 1.
Definition min_int : Z := - 2 ^ 63.

(** Two's-complement reduction of a mathematical integer to a Go [int]. *)
Definition wrap64 (x : Z) : Z := (x + 2 ^ 63) mod 2 ^ 64 - 2 ^ 63.

(** [fmt.Sprintf("%d", x)]. *)
Definition fmt_d (x : Z) : string := NilEmpty.string_of_int (Z.to_int x).

(** [len(s) == 0] on strings. *)
Definition is_empty (s : string) : bool :=
  match s with EmptyString => true | String _ _ => false end.

(** time.Duration counts nanoseconds. *)
Definition Duration := Z.
Definition Nanosecond : Duration := 1.
Definition Millisecond : Duration := 1000000 * Nanosecond.
Definition Second : Duration := 1000 * Millisecond.
Definition Minute : Duration := 60 * Second.

(** ** Constants of the package *)

Definition cmdSeparator : string := "%$#".
Definition apiAddr : string := "http://35.244.28.138:6343/v3/execute".
Definition peerThreshold : Z := 5.
Definition success : Z := 200.
Definition internalError : Z := 500.
Definition timeoutError : Z := 504.
Definition serviceError : Z := 503.

(** ** API objects *)

(** peer.AddrInfo: a peer identifier with its multiaddresses. *)
Record AddrInfo := { ID : string; Addrs : list string }.

Record cookie := {
  Id : string;
  Leaders : list AddrInfo;
  DownloadIndex : string;
  Filename : string;
  Hash : string;
  Link : string
}.

Record info := { Cookie : cookie; SwarmKey : string; Rate : string }.

(** The anonymous struct [tmp] of [UnmarshalJSON]; [tmp_Data] is the
    json.RawMessage, the undecoded text of the "data" member. *)
Record tmpResp := { tmp_Status : Z; tmp_Details : string; tmp_Data : string }.

Record apiResp := { Status : Z; Data : info; Details : string }.

Definition zero_cookie : cookie :=
  {| Id := ""; Leaders := []; DownloadIndex := ""; Filename := ""; Hash := "";
     Link := "" |}.
Definition zero_info : info :=
  {| Cookie := zero_cookie; SwarmKey := ""; Rate := "" |}.

(** ** combineArgs *)

(** The loop of [combineArgs]: [idx] is the index of the head of [args],
    [retPath] the accumulated result. *)
Fixpoint combineArgs_loop (separator : string) (idx : nat) (args : list string)
    (retPath : string) : string :=
  match args with
  | [] => retPath
  | v :: rest =>
      let retPath := if Nat.eqb idx 0 then retPath else retPath ++ separator in
      combineArgs_loop separator (S idx) rest (retPath ++ v)
  end.

Definition combineArgs (separator : string) (args : list string) : string :=
  combineArgs_loop separator 0 args "".

(** [getExternalIp]: the consensus answer, or the sentinel on any error. *)
Definition getExternalIp (consensus : result string) : string :=
  match consensus with
  | inl _ => "0.0.0.0"
  | inr ip => ip
  end.

(** The value stored under "val" by [getInfo] before the request is
    marshalled; [pubKB64] is [base64.StdEncoding.EncodeToString(pubKB)] and
    [ip] the result of [getExternalIp()]. *)
Definition getInfo_val (sharable oldCookie pubKB64 ip : string) : string :=
  let val :=
    combineArgs cmdSeparator
      ["hive"; "customer"; "fetch"; sharable; "--public-key"; pubKB64;
       "--source-ip"; ip; "-j"] in
  if negb (is_empty oldCookie)
  then combineArgs cmdSeparator [val; "--cookie"; oldCookie]
  else val.

(** The value stored under "val" by [updateInfo]. *)
Definition updateInfo_val (i : info) (timeConsumed : Z) : string :=
  combineArgs cmdSeparator
    ["hive"; "customer"; "complete"; Id (Cookie i); fmt_d timeConsumed; "-j"].

(** ** Results handed to the caller *)

Record StatOut := {
  ConnectedPeers : list string;
  Ledgers : list string;
  DownloadTime : Z
}.

(** Modelled from the spec: the message carried by a result.  [MetaInfo]
    and [DownloadSuccess] are the two message constants [Start] uses by
    name; their declarations (with [Out], [NewOut] and [OutMessage]) are in
    a file of the package that is not under src/.  [Text] is a literal. *)
Inductive Message :=
| MetaInfo
| DownloadSuccess
| Text (s : string).

(** The [interface{}] payload of a result, by the values [Start] stores. *)
Inductive OutData :=
| DataNil
| DataInfo (i : info)
| DataStat (s : StatOut).

(** Modelled from the spec: the uniform [{status, message, detail, data}]
    record of the output contract, built by [NewOut]. *)
Record Out := {
  out_Status : Z;
  out_Message : Message;
  out_Details : string;
  out_Data : OutData
}.

Definition NewOut (status : Z) (message : Message) (details : string)
    (data : OutData) : Out :=
  {| out_Status := status; out_Message := message; out_Details := details;
     out_Data := data |}.

(** ** Observable effects

    What a run does besides returning: log lines, step notifications written
    by [OutMessage], and the calls made to the outside. *)

Inductive Level := Debug | Info | Warn | Error.

Inductive Event :=
| EvLog (lvl : Level) (format : string) (args : list string)
| EvOutMessage (o : Out) (jsonOut : bool)
| EvHttpPost (url body : string)
| EvCreate (path : string)
| EvDecodePSK
| EvSetupLibp2p
| EvNewPeer
| EvBootstrap (leaders : list AddrInfo)
| EvSpawnRetry
| EvSpawnProgress
| EvCidDecode (hash : string)
| EvGetFile
| EvCopy
| EvSleep (d : Duration)
| EvPeers
| EvGetMicroPayments.

(** [showStep]: the status argument is ignored, the step is always reported
    with [success]. *)
Definition showStep (status : Z) (message : string) (jsonOut : bool) : list Event :=
  let out := NewOut success (Text message) "" DataNil in
  [EvOutMessage out jsonOut].

(** ** The outside world

    One field per call that leaves the package.  A run of the client is a
    function of the world it runs in. *)

Record World := {
  (* encoding/json *)
  json_Marshal : list (string * string) -> result string;
  json_Unmarshal_map : string -> result (list (string * string));
  json_Unmarshal_tmp : string -> result tmpResp;
  (* decoding into an existing [info]: the value left behind and the error *)
  json_Unmarshal_info : string -> info -> info * option error;
  (* net/http and ioutil.ReadAll: the response body *)
  http_Post : string -> string -> result string;
  (* go-external-ip *)
  consensus_ExternalIP : result string;
  base64_EncodeToString : string -> string;
  (* crypto.GenerateKeyPair: private key and public key bytes *)
  crypto_GenerateKeyPair : result (string * string);
  time_ParseDuration : string -> result Duration;
  fpSeparator : string;
  os_Create : string -> option error;
  pnet_DecodeV1PSK : string -> option error;
  ipfslite_SetupLibp2p : option error;
  ipfslite_New : option error;
  (* the k-th call of lite.Bootstrap: peers connected, time taken *)
  lite_Bootstrap : nat -> list AddrInfo -> Z * N;
  (* time elapsed on the session context when the first Bootstrap returns *)
  bootstrapped_at : N;
  (* which case a select of goroutine [g] takes when both become ready at the
     same instant: [true] for ctx.Done() *)
  select_done_first : nat -> Z -> bool;
  cid_Decode : string -> option error;
  (* lite.GetFile: the declared size of the stream *)
  lite_GetFile : result Z;
  io_Copy : option error;
  (* time.Now().Unix() before GetFile and after Copy *)
  unix_before : Z;
  unix_after : Z;
  host_Peers : list string;
  scp_GetMicroPayments : list string * option error
}.

(** Lookup in a Go map: the zero value when the key is absent. *)
Fixpoint map_get (m : list (string * string)) (k : string) : string :=
  match m with
  | [] => ""
  | (k', v) :: rest => if String.eqb k' k then v else map_get rest k
  end.

(** ** The control-plane client

    [getInfo] and [updateInfo] decode the answer with
    [json.Unmarshal(respBuf, &respData)], which hands every JSON text but
    the value null to the method [UnmarshalJSON] of the response.  Both are
    modelled on the answers that reach the method: the answer null, which
    the decoder stores as a nil response without calling the method, is
    told apart by [json_null] in the part on the results of [Start].  (A
    body that is no JSON text is refused before the method is called, with
    the error the method's first step returns for it; the model reports
    that error from the method, after its first log line.) *)

Section ControlPlane.
Variable W : World.

(** [fmt.Sprintf("Invalid status from server: %s", tmp.Status)]: the verb
    %s applied to an [int] prints the operand as [%!s(int=N)]. *)
Definition invalid_status_message (status : Z) : string :=
  "Invalid status from server: " ++ "%!s(int=" ++ fmt_d status ++ ")".

(** What [UnmarshalJSON] logs: the raw response and, once the outer object
    is decoded, the inner document. *)
Definition UnmarshalJSON_logs (b : string) : list Event :=
  EvLog Debug "Raw response %s" [b]
    :: match json_Unmarshal_map W b with
       | inl _ => []
       | inr val => [EvLog Debug "API response %s" [map_get val "val"]]
       end.

(** [(a *apiResp) UnmarshalJSON(b)]: the receiver as the call leaves it,
    and the error returned. *)
Definition UnmarshalJSON (a : apiResp) (b : string) : apiResp * option error :=
  match json_Unmarshal_map W b with
  | inl err => (a, Some err)
  | inr val =>
      match json_Unmarshal_tmp W (map_get val "val") with
      | inl err => (a, Some err)
      | inr tmp =>
          if negb (tmp_Status tmp =? 200) then
            let errStr := tmp_Details tmp in
            let errStr :=
              if is_empty errStr then invalid_status_message (tmp_Status tmp)
              else errStr in
            (a, Some errStr)
          else
            let a := {| Status := tmp_Status tmp; Data := Data a;
                        Details := Details a |} in
            let (d, err) := json_Unmarshal_info W (tmp_Data tmp) (Data a) in
            ({| Status := Status a; Data := d; Details := Details a |}, err)
      end
  end.

Definition zero_apiResp : apiResp :=
  {| Status := 0; Data := zero_info; Details := "" |}.

(** [getInfo]: the requests issued and the outcome. *)
Definition getInfo (sharable oldCookie pubKB : string) : list Event * result info :=
  let args :=
    [("val", getInfo_val sharable oldCookie (base64_EncodeToString W pubKB)
               (getExternalIp (consensus_ExternalIP W)))] in
  match json_Marshal W args with
  | inl err => ([], inl err)
  | inr buf =>
      match http_Post W apiAddr buf with
      | inl err => ([EvHttpPost apiAddr buf], inl err)
      | inr respBuf =>
          let (respData, err) := UnmarshalJSON zero_apiResp respBuf in
          match err with
          | Some err =>
              (EvHttpPost apiAddr buf :: UnmarshalJSON_logs respBuf
                 ++ [EvLog Error "Failed unmarshaling result Err:%s Resp:%s"
                       [err; respBuf]],
               inl err)
          | None =>
              (EvHttpPost apiAddr buf :: UnmarshalJSON_logs respBuf,
               inr (Data respData))
          end
      end
  end.

(** [updateInfo]: the requests issued and the error returned. *)
Definition updateInfo (i : info) (timeConsumed : Z) : list Event * option error :=
  let args := [("val", updateInfo_val i timeConsumed)] in
  match json_Marshal W args with
  | inl err => ([], Some err)
  | inr buf =>
      match http_Post W apiAddr buf with
      | inl err => ([EvHttpPost apiAddr buf], Some err)
      | inr respBuf =>
          let (respData, err) := UnmarshalJSON zero_apiResp respBuf in
          let ev := EvHttpPost apiAddr buf :: UnmarshalJSON_logs respBuf in
          match err with
          | Some err =>
              if negb (Status respData =? 200) then (ev, Some err) else (ev, None)
          | None => (ev, None)
          end
      end
  end.

(** ** The client *)

Record LightClient := {
  destination : string;
  jsonOut : bool;
  timeout : Duration;
  privKey : string;
  pubKey : string
}.

(** [NewLightClient]: what is logged, and the client or the error. *)
Definition NewLightClient (destination timeout : string) (jsonOut : bool)
    : list Event * result LightClient :=
  match crypto_GenerateKeyPair W with
  | inl err => ([EvLog Error "Failed generating key pair Err:%s" [err]], inl err)
  | inr (priv, pubk) =>
      let (log, to) :=
        match time_ParseDuration W timeout with
        | inl _ =>
            ([EvLog Warn "Invalid timeout duration specified. Using default 15m" []],
             Minute * 45)
        | inr to => ([], to)
        end in
      (log,
       inr {| destination := destination; jsonOut := jsonOut; timeout := to;
              privKey := priv; pubKey := pubk |})
  end.

End ControlPlane.

(** ** The swarm bootstrapper

    Time is counted in nanoseconds from the creation of the session context
    ([context.WithTimeout(context.Background(), l.timeout)]), so the context
    is done from time [deadline = l.timeout] on. *)

(** The goroutines of a session, as [select_done_first] names them. *)
Definition g_main : nat := 0.
Definition g_retry : nat := 1.

(** The case a [select] over [ctx.Done()] and [time.After(d)] takes, and
    when. *)
Inductive Selected :=
| CtxDone (t : Z)
| TimerFired (t : Z).

Section Bootstrapper.
Variable W : World.
Variable deadline : Z.
Variable leaders : list AddrInfo.
Variable jsonOut : bool.

(** A [select] entered at [now] by goroutine [g]: the channel of
    [time.After(d)] is created on entry, so it is ready at [now + d]; the
    context is ready from [deadline] on. *)
Definition select_ctx_after (g : nat) (now d : Z) : Selected :=
  let timer := now + d in
  if deadline <=? now then CtxDone now
  else if deadline <? timer then CtxDone deadline
  else if (deadline =? timer) && select_done_first W g timer then CtxDone deadline
  else TimerFired timer.

(** *** The retry goroutine *)

(** Its view of the session: the clock, the shared [count], and how many
    times [lite.Bootstrap] has been called so far. *)
Record Retry := { rt_now : Z; rt_count : Z; rt_calls : nat }.

Inductive RetryEnd :=
| RetryDone        (* the loop condition [count < peerThreshold] failed *)
| RetryCancelled   (* [<-ctx.Done()] *)
| RetryGaveUp.     (* more than 15 minutes since [start] *)

Inductive RetryStep :=
| Continue (s : Retry) (bootstrapped : bool) (ev : list Event)
| Stop (e : RetryEnd) (t : Z) (ev : list Event).

(** One evaluation of the loop condition followed, when it holds, by one
    pass through the [select]. *)
Definition retry_iteration (start : Z) (s : Retry) : RetryStep :=
  if negb (rt_count s <? peerThreshold) then
    Stop RetryDone (rt_now s)
      [EvLog Info "Done lagged bootstrapping. New count %d" [fmt_d (rt_count s)]]
  else
    match select_ctx_after g_retry (rt_now s) (Second * 30) with
    | CtxDone t => Stop RetryCancelled t []
    | TimerFired t =>
        if t - start >? Minute * 15 then
          Stop RetryGaveUp t
            (EvLog Warn "Tried getting more peers for 15mins" []
               :: showStep timeoutError "Download timed out" jsonOut)
        else if rt_count s <? Z.of_nat (length leaders) then
          let (n, d) := lite_Bootstrap W (rt_calls s) leaders in
          Continue
            {| rt_now := t + Z.of_N d;
               rt_count := wrap64 (rt_count s + n);
               rt_calls := S (rt_calls s) |}
            true
            (EvBootstrap leaders :: showStep success "Re-Bootstrapped" jsonOut)
        else
          Continue
            {| rt_now := t; rt_count := rt_count s; rt_calls := rt_calls s |}
            false []
    end.

(** A finished run of the goroutine: how and when it ended, the values it
    stored in [count] with the time of each store, and its events. *)
Record RetryRun := {
  rr_end : RetryEnd;
  rr_at : Z;
  rr_count : Z;
  rr_writes : list (Z * Z);
  rr_events : list Event
}.

Fixpoint retry_loop (fuel : nat) (start : Z) (s : Retry) : option RetryRun :=
  match fuel with
  | O => None
  | S fuel =>
      match retry_iteration start s with
      | Stop e t ev =>
          Some {| rr_end := e; rr_at := t; rr_count := rt_count s;
                  rr_writes := []; rr_events := ev |}
      | Continue s' wrote ev =>
          match retry_loop fuel start s' with
          | None => None
          | Some r =>
              Some {| rr_end := rr_end r; rr_at := rr_at r; rr_count := rr_count r;
                      rr_writes :=
                        (if wrote then [(rt_now s', rt_count s')] else [])
                          ++ rr_writes r;
                      rr_events := ev ++ rr_events r |}
          end
      end
  end.

(** Iterations that always suffice: a pass that continues ends a 30 second
    wait begun no later than 15 minutes after [start]. *)
Definition retry_fuel : nat := Z.to_nat (Minute * 15 / (Second * 30)) + 1.

(** [go func() { start := time.Now(); for count < peerThreshold {...} }()]
    started at time [start] with [count] the result of the first
    [Bootstrap]. *)
Definition retry_task (start count : Z) : option RetryRun :=
  retry_loop retry_fuel start {| rt_now := start; rt_count := count; rt_calls := 1 |}.

(** The value of [count] a read at time [t] sees: the last store made at or
    before [t], [count0] when there is none.  (The goroutines share [count]
    without synchronization; the model lets a read see every store made
    before it.) *)
Fixpoint count_at (writes : list (Z * Z)) (count0 : Z) (t : Z) : Z :=
  match writes with
  | [] => count0
  | (tw, c) :: rest => if tw <=? t then count_at rest c t else count0
  end.

(** *** The zero-peer wait of the main flow *)

Inductive WaitResult :=
| Proceed (t : Z) (count : Z)
| Stopped (t : Z) (out : Out).

(** [for { select {...}; if count > 0 { break } }], entered at [now];
    [observe t] is the value of the shared [count] read at time [t]. *)
Fixpoint wait_loop (fuel : nat) (observe : Z -> Z) (now : Z) : option WaitResult :=
  match fuel with
  | O => None
  | S fuel =>
      match select_ctx_after g_main now Second with
      | CtxDone t =>
          Some (Stopped t
                  (NewOut internalError (Text "Stopped while waiting for peers")
                     "context cancelled" DataNil))
      | TimerFired t =>
          if observe t >? 0 then Some (Proceed t (observe t))
          else wait_loop fuel observe t
      end
  end.

(** Iterations that always suffice: one per whole second left before the
    deadline, and the one that sees the context done. *)
Definition wait_fuel (now : Z) : nat := Z.to_nat ((deadline - now) / Second) + 1.

Definition zero_peer_wait (observe : Z -> Z) (now : Z) : option WaitResult :=
  wait_loop (wait_fuel now) observe now.

End Bootstrapper.

(** ** The session: [Start]

    The main flow either returns early with a result or goes on with a
    value; either way it leaves events behind.  [None] is a loop of the
    model out of fuel (shown below never to happen). *)

Local Open Scope list_scope.

Definition Flow (A : Type) : Type := option (list Event * (Out + A)).

Definition pure {A} (a : A) : Flow A := Some ([], inr a).
Definition emit (ev : list Event) : Flow unit := Some (ev, inr tt).
Definition leave {A} (o : Out) : Flow A := Some ([], inl o).

Definition bind {A B} (m : Flow A) (k : A -> Flow B) : Flow B :=
  match m with
  | None => None
  | Some (ev, inl o) => Some (ev, inl o)
  | Some (ev, inr a) =>
      match k a with
      | None => None
      | Some (ev', r) => Some (ev ++ ev', r)
      end
  end.

Declare Scope flow_scope.
Delimit Scope flow_scope with flow.
Notation "x <- m ;; k" := (bind m (fun x => k))
  (at level 61, m at next level, right associativity) : flow_scope.
Notation "m ;; k" := (bind m (fun _ => k))
  (at level 61, right associativity) : flow_scope.

(** A call that returns an error the flow reports and returns on. *)
Definition check (ev : list Event) (r : option error) (fail : error -> list Event * Out)
    : Flow unit :=
  match r with
  | Some err => let (ev', o) := fail err in Some (ev ++ ev', inl o)
  | None => Some (ev, inr tt)
  end.

Section Session.
Variable W : World.

(** The stores made to [count] by the retry goroutine, which is started at
    time [now] when the first [Bootstrap] returned less than the threshold. *)
Definition retry_writes (l : LightClient) (leaders : list AddrInfo) (now count : Z)
    : option (list (Z * Z)) :=
  if count <? peerThreshold then
    match retry_task W (timeout l) leaders (jsonOut l) now count with
    | None => None
    | Some r => Some (rr_writes r)
    end
  else Some [].

(** The bootstrap step of [Start] with the goroutine it may start and the
    wait it may enter: the value of [count] the main flow goes on with. *)
Definition bootstrap_and_wait (l : LightClient) (metadata : info) : Flow Z :=
  let deadline := timeout l in
  let leaders := Leaders (Cookie metadata) in
  let count := fst (lite_Bootstrap W 0 leaders) in
  let now := Z.of_N (bootstrapped_at W) in
  (emit (EvBootstrap leaders :: showStep success "Bootstrapped" (jsonOut l)) ;;
   emit (if count <? peerThreshold then [EvSpawnRetry] else []) ;;
   writes <-
     match retry_writes l leaders now count with
     | None => None
     | Some writes => pure writes
     end ;;
   if count =? 0 then
     emit [EvLog Warn "No nodes connected. Waiting to find more" []] ;;
     match zero_peer_wait W deadline (count_at writes count) now with
     | None => None
     | Some (Stopped _ out) =>
         Some ([EvLog Info "Client stopped while waiting for more peers" []], inl out)
     | Some (Proceed _ c) => pure c
     end
   else pure count)%flow.

Definition Start (l : LightClient) (sharable : string) (onlyInfo stat : bool)
    (progUpd : bool) : option (list Event * Out) :=
  let flow : Flow Out :=
    (metadata <-
       (let (ev, r) := getInfo W sharable "" (pubKey l) in
        match r with
        | inl err =>
            Some (ev ++ [EvLog Error "Failed getting metadata Err: %s" [err]],
                  inl (NewOut serviceError (Text "Failed getting metadata") err DataNil))
        | inr metadata => Some (ev, inr metadata)
        end) ;;
     emit (showStep success "Got metadata" (jsonOut l)) ;;
     emit [EvLog Info "Got metadata info %+v" []] ;;
     (if onlyInfo then leave (NewOut success MetaInfo "" (DataInfo metadata))
      else pure tt) ;;
     let destination :=
       if String.eqb (destination l) "."
       then combineArgs (fpSeparator W) [destination l; Filename (Cookie metadata)]
       else destination l in
     check [EvCreate destination] (os_Create W destination)
       (fun err =>
          ([EvLog Error "Failed creating dest file Err: %s" [err]],
           NewOut internalError (Text "Failed creating destination file") err DataNil)) ;;
     check [EvDecodePSK] (pnet_DecodeV1PSK W (SwarmKey metadata))
       (fun err =>
          ([EvLog Error "Failed decoding swarm key Err: %s" [err]],
           NewOut internalError (Text "Failed decoding swarm key provided") err DataNil)) ;;
     check [EvSetupLibp2p] (ipfslite_SetupLibp2p W)
       (fun err =>
          ([EvLog Error "Failed setting up libp2p node Err: %s" [err]],
           NewOut internalError (Text "Failed setting up p2p peer") err DataNil)) ;;
     check [EvNewPeer] (ipfslite_New W)
       (fun err =>
          ([EvLog Error "Failed setting up p2p xfer node Err: %s" [err]],
           NewOut internalError (Text "Failed setting up light client") err DataNil)) ;;
     emit (showStep success "Download agent created" (jsonOut l)) ;;
     count <- bootstrap_and_wait l metadata ;;
     emit [EvLog Info "Connected to %d peers. Starting download" [fmt_d count]] ;;
     check [EvCidDecode (Hash (Cookie metadata))] (cid_Decode W (Hash (Cookie metadata)))
       (fun err =>
          ([EvLog Error "Failed decoding file hash Err: %s" [err]],
           NewOut internalError (Text "Failed decoding filehash provided") err DataNil)) ;;
     emit (showStep success "Starting download" (jsonOut l)) ;;
     let startTime := unix_before W in
     check [EvGetFile]
       (match lite_GetFile W with inl err => Some err | inr _ => None end)
       (fun err => ([], NewOut 500 (Text "Failed getting file") err DataNil)) ;;
     emit (if progUpd then [EvSpawnProgress] else []) ;;
     check [EvCopy] (io_Copy W)
       (fun err =>
          ([], NewOut internalError (Text "Failed writing to destination") err DataNil)) ;;
     let downloadTime := wrap64 (unix_after W - startTime) in
     emit (showStep success "Finishing download" (jsonOut l)) ;;
     emit [EvSleep (Second * 5)] ;;
     (let (ev, err) := updateInfo W metadata downloadTime in
      emit (ev ++
            match err with
            | Some err =>
                [EvLog Warn "Failed updating metadata after download Err: %s" [err]]
            | None => []
            end)) ;;
     emit (showStep success "Updating cookie" (jsonOut l)) ;;
     (if negb stat then leave (NewOut 200 DownloadSuccess "" DataNil) else pure tt) ;;
     emit [EvPeers] ;;
     let connectedPeers := host_Peers W in
     emit [EvGetMicroPayments] ;;
     let ledgers := fst (scp_GetMicroPayments W) in
     let out :=
       {| ConnectedPeers := connectedPeers; Ledgers := ledgers;
          DownloadTime := downloadTime |} in
     pure (NewOut success (Text "Stats") "" (DataStat out)))%flow in
  match flow with
  | None => None
  | Some (ev, inl o) => Some (ev, o)
  | Some (ev, inr o) => Some (ev, o)
  end.

End Session.

(** ** The transport's bootstrap, by the specification *)

(** Modelled from the spec: the capability [bootstrap(leaders) -> count] of
    the transport, which "turns a leader-peer list into live connections"
    and for which "already-connected peers contribute zero".  [reachable]
    says which peers accept a connection, [connected] holds the peers
    connected so far; the result is the new connection set and the number
    of connections this call added.  The method [Bootstrap] of the peer
    (package ipfslite of this repository) is not under src/. *)
Fixpoint bootstrap (reachable : string -> bool) (connected : list string)
    (leaders : list AddrInfo) : list string * Z :=
  match leaders with
  | [] => (connected, 0)
  | p :: rest =>
      if reachable (ID p) && negb (existsb (String.eqb (ID p)) connected)
      then let (c, n) := bootstrap reachable (ID p :: connected) rest in (c, n + 1)
      else bootstrap reachable connected rest
  end.

(** ** The progress monitor *)

(** Go's float64 is IEEE 754 binary64: 53 bits of precision, infinities at
    exponent 1024, operations rounded to nearest, ties to even. *)
Definition float64 := spec_float.
Definition prec : Z := 53.
Definition emax : Z := 1024.

(** [float64(x)] for an integer [x]. *)
Definition float64_of_int (x : Z) : float64 := binary_normalize prec emax x 0 false.

Definition f64_div (x y : float64) : float64 := SFdiv prec emax x y.
Definition f64_mul (x y : float64) : float64 := SFmul prec emax x y.
Definition f64_eqb (x y : float64) : bool := SFeqb x y.

(** [int(f)]: the fraction is discarded.  Go leaves the result to the
    implementation when the value does not fit (or is not a number); amd64
    then yields the least [int], which is what is written here. *)
Definition int_of_float64 (f : float64) : Z :=
  match f with
  | S754_zero _ => 0
  | S754_finite s m e =>
      let a := if 0 <=? e then Z.pos m * 2 ^ e else Z.pos m / 2 ^ (- e) in
      let v := if s then - a else a in
      if (min_int <=? v) && (v <=? max_int) then v else min_int
  | _ => min_int
  end.

(** [prog := float64(st.Size()) / float64(rsc.Size()) * 100]. *)
Definition progress (size total : Z) : float64 :=
  f64_mul (f64_div (float64_of_int size) (float64_of_int total)) (float64_of_int 100).

(** A call [progUpd.UpdateProgress(percent, size, total)]. *)
Record ProgressCall := { p_percent : Z; p_size : Z; p_total : Z }.

(** The monitor goroutine over the successive results of [dst.Stat()]: a
    failed [Stat] is skipped, a sample whose [prog] equals 100 is the
    last. *)
Fixpoint monitor (total : Z) (stats : list (result Z)) : list ProgressCall :=
  match stats with
  | [] => []
  | inl _ :: rest => monitor total rest
  | inr size :: rest =>
      let prog := progress size total in
      {| p_percent := int_of_float64 prog; p_size := size; p_total := total |}
        :: (if f64_eqb prog (float64_of_int 100) then [] else monitor total rest)
  end.

(** ** The monitor goroutine in time *)

Definition g_progress : nat := 2.

(** What the goroutine does: a log line or a call of the observer. *)
Inductive Observed :=
| ObsLog (lvl : Level) (format : string) (args : list string)
| ObsUpdate (c : ProgressCall).

(** The goroutine entering its loop at [now], over the successive results
    of [dst.Stat()]; each action is paired with its time.  A pass whose
    [prog] is 100 returns; any other pass ends in the [select], which on
    [ctx.Done()] logs a warning and goes round again. *)
Fixpoint monitor_loop (W : World) (deadline total : Z) (stats : list (result Z))
    (now : Z) : list (Z * Observed) :=
  match stats with
  | [] => []
  | inl _ :: rest =>
      match select_ctx_after W deadline g_progress now (Millisecond * 500) with
      | CtxDone t =>
          (t, ObsLog Warn "Stopping progress updated on context cancel" [])
            :: monitor_loop W deadline total rest t
      | TimerFired t => monitor_loop W deadline total rest t
      end
  | inr size :: rest =>
      let prog := progress size total in
      (now, ObsLog Info "Updating progress %d" [fmt_d (int_of_float64 prog)])
        :: (now, ObsUpdate {| p_percent := int_of_float64 prog; p_size := size;
                              p_total := total |})
        :: (if f64_eqb prog (float64_of_int 100)
            then [(now, ObsLog Info "Progress complete" [])]
            else
              match select_ctx_after W deadline g_progress now (Millisecond * 500) with
              | CtxDone t =>
                  (t, ObsLog Warn "Stopping progress updated on context cancel" [])
                    :: monitor_loop W deadline total rest t
              | TimerFired t => monitor_loop W deadline total rest t
              end)
  end.

(** ** The retry goroutine of the first revision

    The file holds two revisions of the package.  In the first, the retry
    goroutine of [Start] asks the control plane for the metadata again on
    every tick and bootstraps the leaders it did not know. *)

Module earlier.

(** [for _, x := range metadata.Cookie.Leaders { if x.ID == v.ID { found =
    true; break } }]: the value of [found] after the loop. *)
Fixpoint found (leaders : list AddrInfo) (v : AddrInfo) : bool :=
  match leaders with
  | [] => false
  | x :: rest => if String.eqb (ID x) (ID v) then true else found rest v
  end.

(** [for _, v := range newMtdt.Cookie.Leaders {...}]: the slice
    [newLeadersToAdd] after the loop over the leaders still to visit. *)
Fixpoint newLeadersToAdd_loop (known visit newLeadersToAdd : list AddrInfo)
    : list AddrInfo :=
  match visit with
  | [] => newLeadersToAdd
  | v :: rest =>
      newLeadersToAdd_loop known rest
        (if negb (found known v) then newLeadersToAdd ++ [v] else newLeadersToAdd)
  end.

Definition newLeadersToAdd (known fresh : list AddrInfo) : list AddrInfo :=
  newLeadersToAdd_loop known fresh [].

(** The timer case of the goroutine from the answer [newMtdt] of [getInfo]
    to the 15 minute test: the events, the new [count], and the number of
    calls of [lite.Bootstrap] made so far. *)
Definition refresh (W : World) (metadata : info) (newMtdt : result info)
    (count : Z) (calls : nat) : list Event * Z * nat :=
  match newMtdt with
  | inl _ => ([], count, calls)
  | inr newMtdt =>
      let n := Z.of_nat (length (Leaders (Cookie newMtdt))) in
      if n >? count then
        let add := newLeadersToAdd (Leaders (Cookie metadata))
                     (Leaders (Cookie newMtdt)) in
        ([EvLog Info "Got %d new leaders" [fmt_d (wrap64 (n - count))];
          EvBootstrap add],
         wrap64 (count + fst (lite_Bootstrap W calls add)),
         S calls)
      else ([], count, calls)
  end.

End earlier.

(** ** The command: examples/litepeer *)

Module litepeer.

(** The command arguments, as [flag.Parse] leaves them. *)
Record Flags := {
  destination : string;   (* -dst *)
  sharable : string;      (* -sharable *)
  timeout : string;       (* -timeout *)
  onlyInfo : bool;        (* -info *)
  stat : bool;            (* -stat *)
  enableLog : bool;       (* -logToStderr *)
  showProg : bool;        (* -progress *)
  jsonOut : bool;         (* -json *)
  help : bool             (* -help *)
}.

(** The values of the flags when none is given. *)
Definition defaults : Flags :=
  {| destination := "."; sharable := ""; timeout := "15m"; onlyInfo := false;
     stat := false; enableLog := false; showProg := false; jsonOut := false;
     help := false |}.

(** What the command does: lines on standard output, the usage text, the
    end of the process, the log level, and the effects of the library. *)
Inductive Effect :=
| Println (s : string)
| Usage
| Exit (code : Z)
| SetLogLevel (name level : string)
| Lib (e : Event).

(** The two implementations of [lib.ProgressUpdater]. *)
Inductive ProgressUpdater :=
| noopProgress
| updateProgress (jsonOut : bool).

(** [returnError]: the process ends in it. *)
Definition returnError (err : string) (printUsage : bool) : list Effect :=
  Println ("ERR: " ++ err) :: (if printUsage then [Usage] else []) ++ [Exit 1].

(** The updater [main] hands to [Start]. *)
Definition updater (f : Flags) : ProgressUpdater :=
  if negb (onlyInfo f) && showProg f then updateProgress (jsonOut f)
  else noopProgress.

(** [progUpd != nil] in [Start]: both updaters are pointers to a struct. *)
Definition given (upd : ProgressUpdater) : bool := true.

(** [main]; [None] is [Start] out of fuel. *)
Definition main (W : World) (f : Flags) : option (list Effect) :=
  if help f then Some [Usage]
  else if enableLog f && showProg f then
    Some (returnError "Log and progress options cannot be used together" true)
  else
    let level := if enableLog f then [SetLogLevel "*" "debug"] else [] in
    if is_empty (sharable f) then
      Some (level ++ returnError "Sharable string not provided" true)
    else
      let (ev, r) := NewLightClient W (destination f) (timeout f) (jsonOut f) in
      match r with
      | inl err =>
          Some (level ++ map Lib ev
                  ++ returnError ("Failed setting up client reason:" ++ err) true)
      | inr lc =>
          let upd := updater f in
          match Start W lc (sharable f) (onlyInfo f) (stat f) (given upd) with
          | None => None
          | Some (ev', out) =>
              Some (level ++ map Lib ev ++ map Lib ev'
                      ++ [Lib (EvOutMessage out (jsonOut f))])
          end
      end.

End litepeer.

(** * Properties *)

(** ** Strings *)

Lemma append_nil_r (s : string) : (s ++ "")%string = s.
Proof. induction s as [|c s IH]; simpl; [reflexivity | now rewrite IH]. Qed.

Lemma append_assoc (s1 s2 s3 : string) :
  ((s1 ++ s2) ++ s3)%string = (s1 ++ (s2 ++ s3))%string.
Proof. induction s1 as [|c s1 IH]; simpl; [reflexivity | now rewrite IH]. Qed.

(** Every argument after the first is appended behind a separator. *)
Fixpoint tail_joined (separator : string) (args : list string) : string :=
  match args with
  | [] => ""
  | v :: rest => (separator ++ v ++ tail_joined separator rest)%string
  end.

Lemma combineArgs_loop_tail (separator : string) (args : list string) :
  forall (idx : nat) (retPath : string),
    combineArgs_loop separator (S idx) args retPath
    = (retPath ++ tail_joined separator args)%string.
Proof.
  induction args as [|v rest IH]; intros idx retPath; simpl.
  - now rewrite append_nil_r.
  - rewrite IH. now rewrite !append_assoc.
Qed.

Lemma concat_tail (separator v : string) (rest : list string) :
  String.concat separator (v :: rest) = (v ++ tail_joined separator rest)%string.
Proof.
  revert v. induction rest as [|w rest IH]; intro v.
  - simpl. now rewrite append_nil_r.
  - change (String.concat separator (v :: w :: rest))
      with (v ++ separator ++ String.concat separator (w :: rest))%string.
    now rewrite IH.
Qed.

(** [combineArgs] is [strings.Join] of its arguments. *)
Lemma combineArgs_concat (separator : string) (args : list string) :
  combineArgs separator args = String.concat separator args.
Proof.
  destruct args as [|v rest]; [reflexivity|].
  unfold combineArgs. cbn [combineArgs_loop Nat.eqb].
  rewrite combineArgs_loop_tail, concat_tail. reflexivity.
Qed.

Lemma tail_joined_app (separator : string) (l1 l2 : list string) :
  tail_joined separator (l1 ++ l2)
  = (tail_joined separator l1 ++ tail_joined separator l2)%string.
Proof.
  induction l1 as [|v l1 IH]; simpl; [reflexivity|].
  now rewrite IH, !append_assoc.
Qed.

(** Joining a joined prefix with further tokens joins all the tokens. *)
Lemma concat_nested (separator v : string) (l1 l2 : list string) :
  String.concat separator (String.concat separator (v :: l1) :: l2)
  = String.concat separator (v :: l1 ++ l2).
Proof.
  rewrite !concat_tail, tail_joined_app. now rewrite append_assoc.
Qed.

(** The control-plane requests a list of events contains. *)
Fixpoint posts (ev : list Event) : list (string * string) :=
  match ev with
  | [] => []
  | EvHttpPost url body :: rest => (url, body) :: posts rest
  | _ :: rest => posts rest
  end.

Lemma posts_app (ev1 ev2 : list Event) : posts (ev1 ++ ev2) = posts ev1 ++ posts ev2.
Proof.
  induction ev1 as [|e ev1 IH]; [reflexivity|].
  destruct e; cbn [app posts]; rewrite IH; reflexivity.
Qed.

Lemma UnmarshalJSON_logs_posts (W : World) (b : string) :
  posts (UnmarshalJSON_logs W b) = [].
Proof. unfold UnmarshalJSON_logs. destruct (json_Unmarshal_map W b); reflexivity. Qed.

(** The tokens of the fetch command. *)
Definition fetch_tokens (sharable oldCookie pubKB64 ip : string) : list string :=
  ["hive"; "customer"; "fetch"; sharable; "--public-key"; pubKB64;
   "--source-ip"; ip; "-j"]
  ++ (if is_empty oldCookie then [] else ["--cookie"; oldCookie]).

(** The tokens of the complete command. *)
Definition complete_tokens (cookieId : string) (elapsedSeconds : Z) : list string :=
  ["hive"; "customer"; "complete"; cookieId; fmt_d elapsedSeconds; "-j"].

Lemma getInfo_val_tokens (sharable oldCookie pubKB64 ip : string) :
  getInfo_val sharable oldCookie pubKB64 ip
  = String.concat "%$#" (fetch_tokens sharable oldCookie pubKB64 ip).
Proof.
  unfold getInfo_val, fetch_tokens, cmdSeparator.
  rewrite !combineArgs_concat.
  destruct oldCookie as [|c s]; cbn [is_empty negb].
  - reflexivity.
  - now rewrite concat_nested.
Qed.

(** C6. [getInfo] posts the JSON object whose only member "val" is the
    tokens hive, customer, fetch, the sharable, --public-key, the base64
    public key, --source-ip, the external IP and -j joined by "%$#", with
    --cookie and the cookie id appended exactly when a previous cookie id
    is given; [updateInfo] posts the tokens hive, customer, complete, the
    cookie id, the elapsed seconds in decimal and -j joined the same way.
    Both go to the one endpoint, and nothing else is posted. *)
Theorem control_plane_commands (W : World) (sharable oldCookie pubKB : string)
    (i : info) (timeConsumed : Z) :
  let fetch :=
    String.concat "%$#"
      (fetch_tokens sharable oldCookie (base64_EncodeToString W pubKB)
         (getExternalIp (consensus_ExternalIP W))) in
  let complete :=
    String.concat "%$#" (complete_tokens (Id (Cookie i)) timeConsumed) in
  posts (fst (getInfo W sharable oldCookie pubKB))
    = match json_Marshal W [("val"%string, fetch)] with
      | inl _ => []
      | inr body => [(apiAddr, body)]
      end
  /\ posts (fst (updateInfo W i timeConsumed))
    = match json_Marshal W [("val"%string, complete)] with
      | inl _ => []
      | inr body => [(apiAddr, body)]
      end
  /\ (fetch_tokens sharable oldCookie (base64_EncodeToString W pubKB)
        (getExternalIp (consensus_ExternalIP W))
      = ["hive"; "customer"; "fetch"; sharable; "--public-key";
         base64_EncodeToString W pubKB; "--source-ip";
         getExternalIp (consensus_ExternalIP W); "-j"]%string
      <-> oldCookie = ""%string).
Proof.
  cbv zeta. split; [|split].
  - unfold getInfo. rewrite getInfo_val_tokens.
    destruct (json_Marshal W _) as [err|buf]; [reflexivity|].
    destruct (http_Post W apiAddr buf) as [err|respBuf]; [reflexivity|].
    destruct (UnmarshalJSON W zero_apiResp respBuf) as [respData [err|]];
      cbn [fst posts]; rewrite ?posts_app, UnmarshalJSON_logs_posts; reflexivity.
  - unfold updateInfo, updateInfo_val, complete_tokens, cmdSeparator.
    rewrite combineArgs_concat.
    destruct (json_Marshal W _) as [err|buf]; [reflexivity|].
    destruct (http_Post W apiAddr buf) as [err|respBuf]; [reflexivity|].
    destruct (UnmarshalJSON W zero_apiResp respBuf) as [respData [err|]];
      [destruct (negb _)|]; cbn [fst posts];
      rewrite UnmarshalJSON_logs_posts; reflexivity.
  - unfold fetch_tokens. destruct oldCookie as [|c s]; cbn [is_empty];
      split; intro H; try reflexivity; discriminate H.
Qed.

(** ** The select of the two waiting loops *)

Section BootstrapperFacts.
Variable W : World.
Variable deadline : Z.
Variable leaders : list AddrInfo.
Variable jsonOut : bool.

Lemma select_timer (g : nat) (now d t : Z) :
  select_ctx_after W deadline g now d = TimerFired t ->
  t = now + d /\ now < deadline /\ t <= deadline.
Proof.
  unfold select_ctx_after.
  destruct (Z.leb_spec deadline now); [discriminate|].
  destruct (Z.ltb_spec deadline (now + d)); [discriminate|].
  destruct (andb _ _); [discriminate|].
  intros [= <-]. lia.
Qed.

Lemma select_done (g : nat) (now d t : Z) :
  0 < d ->
  select_ctx_after W deadline g now d = CtxDone t ->
  t = Z.max now deadline /\ deadline <= now + d.
Proof.
  unfold select_ctx_after. intros Hd.
  destruct (Z.leb_spec deadline now); [intros [= <-]; lia|].
  destruct (Z.ltb_spec deadline (now + d)); [intros [= <-]; lia|].
  destruct (Z.eqb_spec deadline (now + d)); cbn [andb];
    [|discriminate].
  destruct (select_done_first W g (now + d)); [|discriminate].
  intros [= <-]. lia.
Qed.

(** A waiting goroutine is released by the deadline whatever happens. *)
Lemma select_released (g : nat) (now d : Z) :
  0 < d ->
  exists t, (select_ctx_after W deadline g now d = CtxDone t
             \/ select_ctx_after W deadline g now d = TimerFired t)
            /\ now <= t <= Z.max now deadline.
Proof.
  intros Hd.
  destruct (select_ctx_after W deadline g now d) as [t|t] eqn:E.
  - exists t. split; [now left|]. apply select_done in E; lia.
  - exists t. split; [now right|]. apply select_timer in E; lia.
Qed.

(** ** The zero-peer wait *)

Definition stopped_out : Out :=
  NewOut internalError (Text "Stopped while waiting for peers")
    "context cancelled" DataNil.

(** What a finished wait guarantees, for a wait entered at [now]. *)
Definition wait_post (observe : Z -> Z) (now : Z) (r : WaitResult) : Prop :=
  match r with
  | Proceed t c =>
      (exists k : Z, 0 < k /\ t = now + k * Second
         /\ forall j, 0 < j < k -> observe (now + j * Second) <= 0)
      /\ t <= deadline /\ c = observe t /\ 0 < c
  | Stopped t out =>
      t = Z.max now deadline /\ out = stopped_out
      /\ forall j, 0 < j -> now + j * Second < deadline ->
                   observe (now + j * Second) <= 0
  end.

Lemma wait_loop_spec (observe : Z -> Z) :
  forall (fuel : nat) (now : Z),
    (Z.to_nat ((deadline - now) / Second) < fuel)%nat ->
    exists r, wait_loop W deadline fuel observe now = Some r
              /\ wait_post observe now r.
Proof.
  assert (HS : 0 < Second) by reflexivity.
  induction fuel as [|fuel IH]; intros now Hfuel; [lia|].
  cbn [wait_loop].
  destruct (select_ctx_after W deadline g_main now Second) as [t|t] eqn:E.
  - eexists. split; [reflexivity|].
    apply select_done in E; [|exact HS]. destruct E as [-> Hle].
    cbn [wait_post]. repeat split.
    intros j Hj Hlt. nia.
  - apply select_timer in E. destruct E as [-> [Hlt Hle]].
    destruct (Z.gtb_spec (observe (now + Second)) 0) as [Hpos|Hnon].
    + eexists. split; [reflexivity|]. cbn [wait_post].
      repeat split; try lia.
      exists 1. repeat split; try lia.
    + assert (Hq : (deadline - now) / Second
                   = (deadline - (now + Second)) / Second + 1).
      { replace (deadline - now) with (deadline - (now + Second) + 1 * Second) by ring.
        rewrite Z.div_add by lia. reflexivity. }
      assert (0 <= (deadline - (now + Second)) / Second)
        by (apply Z.div_pos; lia).
      destruct (IH (now + Second)) as [r [Hr Hpost]]; [lia|].
      exists r. split; [exact Hr|].
      destruct r as [t c|t out]; cbn [wait_post] in *.
      * destruct Hpost as [[k [Hk [-> Hbefore]]] [Ht [Hc Hc0]]].
        repeat split; try assumption.
        exists (k + 1). repeat split; try lia.
        intros j Hj. destruct (Z.eq_dec j 1) as [->|Hj1].
        -- replace (now + 1 * Second) with (now + Second) by ring. exact Hnon.
        -- replace (now + j * Second) with (now + Second + (j - 1) * Second) by ring.
           apply Hbefore. lia.
      * destruct Hpost as [-> [-> Hbefore]].
        repeat split; try lia.
        intros j Hj Hjd. destruct (Z.eq_dec j 1) as [->|Hj1].
        -- replace (now + 1 * Second) with (now + Second) by ring. exact Hnon.
        -- replace (now + j * Second) with (now + Second + (j - 1) * Second) by ring.
           apply Hbefore; lia.
Qed.

(** More fuel does not change a finished wait. *)
Lemma wait_loop_fuel (observe : Z -> Z) (r : WaitResult) :
  forall (fuel fuel' : nat) (now : Z),
    wait_loop W deadline fuel observe now = Some r ->
    (fuel <= fuel')%nat ->
    wait_loop W deadline fuel' observe now = Some r.
Proof.
  induction fuel as [|fuel IH]; intros fuel' now H Hle; [discriminate|].
  destruct fuel' as [|fuel']; [lia|].
  cbn [wait_loop] in *.
  destruct (select_ctx_after W deadline g_main now Second); [exact H|].
  destruct (observe t >? 0); [exact H|].
  apply IH; [exact H | lia].
Qed.

End BootstrapperFacts.

(** ** The retry goroutine *)

(** Each value continues the one before it. *)
Fixpoint nondecreasing_from (c : Z) (vals : list Z) : Prop :=
  match vals with
  | [] => True
  | v :: rest => c <= v /\ nondecreasing_from v rest
  end.

(** Each value is the one before it plus the result of the next call of
    [lite.Bootstrap], calls being numbered from [k]. *)
Fixpoint adds_results (W : World) (leaders : list AddrInfo) (c : Z) (k : nat)
    (vals : list Z) : Prop :=
  match vals with
  | [] => True
  | v :: rest =>
      v = wrap64 (c + fst (lite_Bootstrap W k leaders))
      /\ adds_results W leaders v (S k) rest
  end.

(** Linear arithmetic over the durations, as numbers of nanoseconds. *)
Ltac time_lia :=
  unfold Minute, Second, Millisecond, Nanosecond in *; lia.

Lemma wrap64_small (x : Z) : min_int <= x <= max_int -> wrap64 x = x.
Proof.
  unfold wrap64, min_int, max_int. intros H.
  rewrite Z.mod_small; lia.
Qed.

Section RetryFacts.
Variable W : World.
Variable deadline : Z.
Variable leaders : list AddrInfo.
Variable jsonOut : bool.

(** A pass that continues has waited 30 seconds, ends within 15 minutes of
    [start], and either leaves [count] alone or adds one result to it. *)
Lemma retry_continue (start : Z) (s s' : Retry) (wrote : bool) (ev : list Event) :
  retry_iteration W deadline leaders jsonOut start s = Continue s' wrote ev ->
  rt_count s < peerThreshold
  /\ rt_now s + Second * 30 <= rt_now s'
  /\ rt_now s + Second * 30 - start <= Minute * 15
  /\ (if wrote
      then rt_count s < Z.of_nat (length leaders)
           /\ rt_count s' = wrap64 (rt_count s + fst (lite_Bootstrap W (rt_calls s) leaders))
           /\ rt_calls s' = S (rt_calls s)
      else rt_count s' = rt_count s /\ rt_calls s' = rt_calls s).
Proof.
  unfold retry_iteration.
  destruct (Z.ltb_spec (rt_count s) peerThreshold) as [Hc|Hc]; cbn [negb];
    [|discriminate].
  destruct (select_ctx_after W deadline g_retry (rt_now s) (Second * 30))
    as [t|t] eqn:E; [discriminate|].
  apply select_timer in E. destruct E as [-> [_ _]].
  destruct (Z.gtb_spec (rt_now s + Second * 30 - start) (Minute * 15));
    [discriminate|].
  destruct (Z.ltb_spec (rt_count s) (Z.of_nat (length leaders))) as [Hl|Hl].
  - destruct (lite_Bootstrap W (rt_calls s) leaders) as [n d] eqn:B.
    intros [= <- <- <-]. cbn [rt_now rt_count rt_calls fst].
    repeat split; try assumption; time_lia.
  - intros [= <- <- <-]. cbn [rt_now rt_count rt_calls].
    repeat split; try assumption; time_lia.
Qed.

Lemma retry_loop_total :
  forall (fuel : nat) (start : Z) (s : Retry),
    (Z.to_nat ((Minute * 15 - (rt_now s - start)) / (Second * 30)) < fuel)%nat ->
    exists r, retry_loop W deadline leaders jsonOut fuel start s = Some r.
Proof.
  induction fuel as [|fuel IH]; intros start s Hfuel; [lia|].
  cbn [retry_loop].
  destruct (retry_iteration W deadline leaders jsonOut start s) as [s' wrote ev|e t ev] eqn:E;
    [|eexists; reflexivity].
  apply retry_continue in E. destruct E as [_ [Hnow [Hstart _]]].
  destruct (IH start s') as [r Hr].
  - assert (Hq : (Minute * 15 - (rt_now s - start)) / (Second * 30)
                 = (Minute * 15 - (rt_now s + Second * 30 - start)) / (Second * 30) + 1).
    { replace (Minute * 15 - (rt_now s - start))
        with (Minute * 15 - (rt_now s + Second * 30 - start) + 1 * (Second * 30))
        by ring.
      rewrite Z.div_add by (unfold Second, Millisecond, Nanosecond; lia).
      reflexivity. }
    assert (0 <= (Minute * 15 - (rt_now s + Second * 30 - start)) / (Second * 30))
      by (apply Z.div_pos; [lia | reflexivity]).
    assert ((Minute * 15 - (rt_now s' - start)) / (Second * 30)
            <= (Minute * 15 - (rt_now s + Second * 30 - start)) / (Second * 30))
      by (apply Z.div_le_mono; [reflexivity | lia]).
    lia.
  - rewrite Hr. eexists. reflexivity.
Qed.

(** The goroutine always ends. *)
Lemma retry_task_total (start count : Z) :
  exists r, retry_task W deadline leaders jsonOut start count = Some r.
Proof.
  unfold retry_task. apply retry_loop_total. cbn [rt_now].
  replace (start - start) with 0 by ring. vm_compute. lia.
Qed.

(** The stores of a run: each adds the result of the next [Bootstrap]. *)
Lemma retry_loop_adds :
  forall (fuel : nat) (start : Z) (s : Retry) (r : RetryRun),
    retry_loop W deadline leaders jsonOut fuel start s = Some r ->
    adds_results W leaders (rt_count s) (rt_calls s) (map snd (rr_writes r)).
Proof.
  induction fuel as [|fuel IH]; intros start s r H; [discriminate|].
  cbn [retry_loop] in H.
  destruct (retry_iteration W deadline leaders jsonOut start s) as [s' wrote ev|e t ev] eqn:E.
  - destruct (retry_loop W deadline leaders jsonOut fuel start s') as [r'|] eqn:L; [|discriminate].
    injection H as <-. cbn [rr_writes].
    apply retry_continue in E. destruct E as [_ [_ [_ Hw]]].
    specialize (IH _ _ _ L).
    destruct wrote; cbn [app map snd adds_results].
    + destruct Hw as [_ [Hc Hk]]. split; [exact Hc|]. rewrite <- Hk. exact IH.
    + destruct Hw as [Hc Hk]. rewrite <- Hc, <- Hk. exact IH.
  - injection H as <-. exact I.
Qed.

(** When every [Bootstrap] returns a count (at least zero, and far from the
    largest [int]), the stores of a run never lower [count]. *)
Lemma retry_loop_nondecreasing :
  (forall k, 0 <= fst (lite_Bootstrap W k leaders) <= max_int - peerThreshold) ->
  forall (fuel : nat) (start : Z) (s : Retry) (r : RetryRun),
    min_int <= rt_count s ->
    retry_loop W deadline leaders jsonOut fuel start s = Some r ->
    nondecreasing_from (rt_count s) (map snd (rr_writes r))
    /\ rt_count s <= rr_count r.
Proof.
  intros Hboot.
  induction fuel as [|fuel IH]; intros start s r Hmin H; [discriminate|].
  cbn [retry_loop] in H.
  destruct (retry_iteration W deadline leaders jsonOut start s) as [s' wrote ev|e t ev] eqn:E.
  - destruct (retry_loop W deadline leaders jsonOut fuel start s') as [r'|] eqn:L; [|discriminate].
    injection H as <-. cbn [rr_writes rr_count].
    apply retry_continue in E. destruct E as [Hthr [_ [_ Hw]]].
    assert (Hle : rt_count s <= rt_count s').
    { destruct wrote.
      - destruct Hw as [_ [-> _]]. specialize (Hboot (rt_calls s)).
        rewrite wrap64_small; unfold max_int, min_int, peerThreshold in *; lia.
      - destruct Hw as [-> _]. lia. }
    assert (Hmin' : min_int <= rt_count s') by lia.
    destruct (IH _ _ _ Hmin' L) as [IHn IHc].
    split; [|lia].
    destruct wrote; cbn [app map snd nondecreasing_from].
    + split; [exact Hle | exact IHn].
    + destruct Hw as [Hc _]. rewrite <- Hc. exact IHn.
  - injection H as <-. cbn. split; [exact I | lia].
Qed.

End RetryFacts.

(** ** Sample sessions

    Concrete worlds on which the definitions are run. *)

Definition dq : string := String (ascii_of_nat 34) "".
Definition bs : string := String (ascii_of_nat 92) "".

(** A JSON string literal: quotes and backslashes escaped. *)
Fixpoint json_escape (s : string) : string :=
  match s with
  | EmptyString => ""
  | String c rest =>
      if Ascii.eqb c (ascii_of_nat 34) then (bs ++ dq ++ json_escape rest)%string
      else if Ascii.eqb c (ascii_of_nat 92) then (bs ++ bs ++ json_escape rest)%string
      else String c (json_escape rest)
  end.

Definition json_quote (s : string) : string := (dq ++ json_escape s ++ dq)%string.

(** The text of [{"val": v}]. *)
Definition json_val_object (v : string) : string :=
  ("{" ++ json_quote "val" ++ ":" ++ json_quote v ++ "}")%string.

Definition sample_leaders : list AddrInfo :=
  [ {| ID := "QmLeaderA"; Addrs := ["/ip4/10.0.0.1/tcp/4001"] |};
    {| ID := "QmLeaderB"; Addrs := ["/ip4/10.0.0.2/tcp/4001"] |};
    {| ID := "QmLeaderC"; Addrs := ["/ip4/10.0.0.3/tcp/4001"] |};
    {| ID := "QmLeaderD"; Addrs := ["/ip4/10.0.0.4/tcp/4001"] |};
    {| ID := "QmLeaderE"; Addrs := ["/ip4/10.0.0.5/tcp/4001"] |} ].

Definition sample_info : info :=
  {| Cookie :=
       {| Id := "cookie-1"; Leaders := sample_leaders; DownloadIndex := "7";
          Filename := "movie.mp4"; Hash := "QmFileHash"; Link := "" |};
     SwarmKey := "/key/swarm/psk/1.0.0/";
     Rate := "1" |}.

(** Inner documents of the envelope: a successful fetch (the text of its
    data member is abbreviated to [sample_data]), a status 200 without a
    data member, a status 200 whose data member is a string, and two
    refusals. *)
Definition sample_data : string := "{...}".
Definition inner_ok : string :=
  ("{" ++ json_quote "status" ++ ":200," ++ json_quote "data" ++ ":" ++ sample_data ++ "}")%string.
Definition inner_no_data : string :=
  ("{" ++ json_quote "status" ++ ":200}")%string.
Definition inner_bad_data : string :=
  ("{" ++ json_quote "status" ++ ":200," ++ json_quote "details" ++ ":"
     ++ json_quote "" ++ "," ++ json_quote "data" ++ ":" ++ json_quote "none" ++ "}")%string.
Definition inner_refused : string :=
  ("{" ++ json_quote "status" ++ ":404," ++ json_quote "details" ++ ":"
     ++ json_quote "no such sharable" ++ "}")%string.
Definition inner_refused_silent : string :=
  ("{" ++ json_quote "status" ++ ":404}")%string.

Definition sample_Unmarshal_map (b : string) : result (list (string * string)) :=
  if String.eqb b (json_val_object inner_ok) then inr [("val", inner_ok)]
  else if String.eqb b (json_val_object inner_no_data) then inr [("val", inner_no_data)]
  else if String.eqb b (json_val_object inner_bad_data) then inr [("val", inner_bad_data)]
  else if String.eqb b (json_val_object inner_refused) then inr [("val", inner_refused)]
  else if String.eqb b (json_val_object inner_refused_silent)
  then inr [("val", inner_refused_silent)]
  else if String.eqb b "{}" then inr []
  else inl "invalid character '<' looking for beginning of value".

Definition sample_Unmarshal_tmp (b : string) : result tmpResp :=
  if String.eqb b inner_ok
  then inr {| tmp_Status := 200; tmp_Details := ""; tmp_Data := sample_data |}
  else if String.eqb b inner_no_data
  then inr {| tmp_Status := 200; tmp_Details := ""; tmp_Data := "" |}
  else if String.eqb b inner_bad_data
  then inr {| tmp_Status := 200; tmp_Details := ""; tmp_Data := json_quote "none" |}
  else if String.eqb b inner_refused
  then inr {| tmp_Status := 404; tmp_Details := "no such sharable"; tmp_Data := "" |}
  else if String.eqb b inner_refused_silent
  then inr {| tmp_Status := 404; tmp_Details := ""; tmp_Data := "" |}
  else inl "unexpected end of JSON input".

Definition sample_Unmarshal_info (b : string) (i : info) : info * option error :=
  if String.eqb b sample_data then (sample_info, None)
  else if String.eqb b "" then (i, Some "unexpected end of JSON input")
  else (i, Some "json: cannot unmarshal string into Go value of type lib.info").

Definition sample_ParseDuration (s : string) : result Duration :=
  if String.eqb s "15m" then inr (Minute * 15)
  else if String.eqb s "3s" then inr (Second * 3)
  else if String.eqb s "2m" then inr (Minute * 2)
  else inl ("time: invalid duration " ++ json_quote s)%string.

(** A world in which every call succeeds, but for what the arguments say:
    the results of [Bootstrap], the answer to the complete command and the
    ledger. *)
Definition sample_world (boot : nat -> Z * N) (complete : result string)
    (ledger : list string * option error) : World :=
  {| json_Marshal := fun args => inr (json_val_object (map_get args "val"));
     json_Unmarshal_map := sample_Unmarshal_map;
     json_Unmarshal_tmp := sample_Unmarshal_tmp;
     json_Unmarshal_info := sample_Unmarshal_info;
     http_Post := fun url body =>
       if String.eqb body
            (json_val_object
               (String.concat "%$#" (fetch_tokens "abc123" "" "cGs=" "203.0.113.9")))
       then inr (json_val_object inner_ok)
       else complete;
     consensus_ExternalIP := inr "203.0.113.9";
     base64_EncodeToString := fun _ => "cGs=";
     crypto_GenerateKeyPair := inr ("sk", "pk");
     time_ParseDuration := sample_ParseDuration;
     fpSeparator := "/";
     os_Create := fun _ => None;
     pnet_DecodeV1PSK := fun _ => None;
     ipfslite_SetupLibp2p := None;
     ipfslite_New := None;
     lite_Bootstrap := fun k _ => boot k;
     bootstrapped_at := 2000000000;
     select_done_first := fun _ _ => true;
     cid_Decode := fun _ => None;
     lite_GetFile := inr 1000;
     io_Copy := None;
     unix_before := 1700000000;
     unix_after := 1700000042;
     host_Peers := ["QmLeaderA"; "QmLeaderB"];
     scp_GetMicroPayments := ledger |}.


Definition sample_client (timeout : Duration) : LightClient :=
  {| destination := "."; jsonOut := false; timeout := timeout;
     privKey := "sk"; pubKey := "pk" |}.

(** The commands of the sample session, as text. *)
Example sample_commands :
  getInfo_val "abc123" "" "cGs=" "203.0.113.9"
  = "hive%$#customer%$#fetch%$#abc123%$#--public-key%$#cGs=%$#--source-ip%$#203.0.113.9%$#-j"
  /\ getInfo_val "abc123" "cookie-1" "cGs=" "203.0.113.9"
     = "hive%$#customer%$#fetch%$#abc123%$#--public-key%$#cGs=%$#--source-ip%$#203.0.113.9%$#-j%$#--cookie%$#cookie-1"
  /\ updateInfo_val sample_info 42 = "hive%$#customer%$#complete%$#cookie-1%$#42%$#-j".
Proof. repeat split. Qed.

(** ** The flow of [Start] *)

Section SessionFacts.
Variable W : World.
Variable l : LightClient.
Variable sharable : string.

(** The path [Start] creates. *)
Definition destination_path (metadata : info) : string :=
  if String.eqb (destination l) "."
  then combineArgs (fpSeparator W) [destination l; Filename (Cookie metadata)]
  else destination l.

(** The steps before the bootstrap all succeed: the metadata is fetched,
    the destination created, the swarm key decoded, the transport set up. *)
Definition setup_succeeds (metadata : info) : Prop :=
  snd (getInfo W sharable "" (pubKey l)) = inr metadata
  /\ os_Create W (destination_path metadata) = None
  /\ pnet_DecodeV1PSK W (SwarmKey metadata) = None
  /\ ipfslite_SetupLibp2p W = None
  /\ ipfslite_New W = None.

(** The file copy completes: the hash decodes, the stream is obtained and
    copied to the destination without error. *)
Definition copy_succeeds (metadata : info) : Prop :=
  cid_Decode W (Hash (Cookie metadata)) = None
  /\ (exists size, lite_GetFile W = inr size)
  /\ io_Copy W = None.

(** The result of a session whose copy completed. *)
Definition final_out (stat : bool) : Out :=
  if stat then
    NewOut success (Text "Stats") ""
      (DataStat {| ConnectedPeers := host_Peers W;
                   Ledgers := fst (scp_GetMicroPayments W);
                   DownloadTime := wrap64 (unix_after W - unix_before W) |})
  else NewOut 200 DownloadSuccess "" DataNil.

(** The events from the completion report to the return. *)
Definition final_events (metadata : info) (stat : bool) : list Event :=
  fst (updateInfo W metadata (wrap64 (unix_after W - unix_before W)))
  ++ match snd (updateInfo W metadata (wrap64 (unix_after W - unix_before W))) with
     | Some err => [EvLog Warn "Failed updating metadata after download Err: %s" [err]]
     | None => []
     end
  ++ showStep success "Updating cookie" (jsonOut l)
  ++ (if stat then [EvPeers; EvGetMicroPayments] else []).

Lemma Start_info_only (metadata : info) (stat progUpd : bool) :
  snd (getInfo W sharable "" (pubKey l)) = inr metadata ->
  Start W l sharable true stat progUpd
  = Some (fst (getInfo W sharable "" (pubKey l))
            ++ showStep success "Got metadata" (jsonOut l)
            ++ [EvLog Info "Got metadata info %+v" []],
          NewOut success MetaInfo "" (DataInfo metadata)).
Proof.
  intros Hget. unfold Start.
  destruct (getInfo W sharable "" (pubKey l)) as [ev r].
  cbn [snd fst] in *. subst r. cbn. reflexivity.
Qed.


(** The events of a session up to the end of the copy; [ev] are those of
    the bootstrap step, which left [count]. *)
Definition download_events (metadata : info) (ev : list Event) (count : Z)
    (progUpd : bool) : list Event :=
  fst (getInfo W sharable "" (pubKey l))
  ++ showStep success "Got metadata" (jsonOut l)
  ++ [EvLog Info "Got metadata info %+v" [];
      EvCreate (destination_path metadata); EvDecodePSK; EvSetupLibp2p; EvNewPeer]
  ++ showStep success "Download agent created" (jsonOut l)
  ++ ev
  ++ [EvLog Info "Connected to %d peers. Starting download" [fmt_d count];
      EvCidDecode (Hash (Cookie metadata))]
  ++ showStep success "Starting download" (jsonOut l)
  ++ [EvGetFile]
  ++ (if progUpd then [EvSpawnProgress] else [])
  ++ [EvCopy]
  ++ showStep success "Finishing download" (jsonOut l)
  ++ [EvSleep (Second * 5)].

(** A session that goes on to the download and whose copy completes
    returns [final_out], and ends with [final_events]. *)
Lemma Start_downloaded (metadata : info) (stat progUpd : bool)
    (ev : list Event) (count : Z) :
  setup_succeeds metadata ->
  bootstrap_and_wait W l metadata = Some (ev, inr count) ->
  copy_succeeds metadata ->
  Start W l sharable false stat progUpd
  = Some (download_events metadata ev count progUpd ++ final_events metadata stat,
          final_out stat).
Proof.
  intros (Hget & Hcreate & Hpsk & Hsetup & Hnew) Hboot (Hcid & [size Hfile] & Hcopy).
  unfold Start, download_events, destination_path, final_events, final_out in *.
  destruct (getInfo W sharable "" (pubKey l)) as [ev0 r].
  cbn [snd] in Hget. subst r.
  cbn [bind emit pure leave check showStep].
  rewrite Hcreate, Hpsk, Hsetup, Hnew.
  cbn [bind emit pure leave check showStep].
  rewrite Hboot, Hcid, Hfile, Hcopy.
  cbn [bind emit pure leave check showStep].
  destruct (updateInfo W metadata _) as [evu erru].
  cbn [bind emit pure leave check showStep fst snd].
  destruct stat; cbn [negb bind emit pure leave check showStep];
    rewrite <- ?app_assoc; cbn [app]; rewrite ?app_nil_r; reflexivity.
Qed.

End SessionFacts.

(** ** The shared counter *)

Lemma count_at_mono (writes : list (Z * Z)) :
  forall (c t1 t2 : Z),
    nondecreasing_from c (map snd writes) ->
    t1 <= t2 ->
    c <= count_at writes c t1 <= count_at writes c t2.
Proof.
  induction writes as [|[tw v] rest IH]; intros c t1 t2 Hnd Ht; cbn [count_at].
  - lia.
  - cbn [map snd nondecreasing_from] in Hnd. destruct Hnd as [Hcv Hrest].
    destruct (Z.leb_spec tw t1) as [H1|H1].
    + destruct (Z.leb_spec tw t2) as [H2|H2]; [|lia].
      pose proof (IH v t1 t2 Hrest Ht). lia.
    + destruct (Z.leb_spec tw t2) as [H2|H2]; [|lia].
      pose proof (IH v t2 t2 Hrest (Z.le_refl t2)). lia.
Qed.

Lemma retry_writes_total (W : World) (l : LightClient) (leaders : list AddrInfo)
    (now count : Z) :
  exists writes, retry_writes W l leaders now count = Some writes.
Proof.
  unfold retry_writes. destruct (count <? peerThreshold); [|eexists; reflexivity].
  destruct (retry_task_total W (timeout l) leaders (jsonOut l) now count) as [r ->].
  eexists. reflexivity.
Qed.

(** ** [Start] always returns

    The two loops of the bootstrap step are the only places where the model
    can run out of fuel, and it never does. *)

Definition returns {A : Type} (m : Flow A) : Prop := exists r, m = Some r.

Lemma returns_bind {A B : Type} (m : Flow A) (k : A -> Flow B) :
  returns m -> (forall a, returns (k a)) -> returns (bind m k).
Proof.
  intros [[ev [o|a]] ->] Hk; cbn [bind]; [eexists; reflexivity|].
  destruct (Hk a) as [[ev' r] ->]. eexists. reflexivity.
Qed.

Lemma returns_check (ev : list Event) (r : option error)
    (fail : error -> list Event * Out) :
  returns (check ev r fail).
Proof.
  unfold check. destruct r as [err|]; [destruct (fail err)|]; eexists; reflexivity.
Qed.

Lemma returns_emit (ev : list Event) : returns (emit ev).
Proof. eexists. reflexivity. Qed.

Lemma returns_pure {A : Type} (a : A) : returns (pure a).
Proof. eexists. reflexivity. Qed.

Lemma returns_leave {A : Type} (o : Out) : returns (@leave A o).
Proof. eexists. reflexivity. Qed.

Lemma bootstrap_and_wait_returns (W : World) (l : LightClient) (metadata : info) :
  returns (bootstrap_and_wait W l metadata).
Proof.
  unfold bootstrap_and_wait. cbv zeta.
  apply returns_bind; [apply returns_emit|]. intros _.
  apply returns_bind; [apply returns_emit|]. intros _.
  apply returns_bind.
  - destruct (retry_writes_total W l (Leaders (Cookie metadata))
                (Z.of_N (bootstrapped_at W))
                (fst (lite_Bootstrap W 0 (Leaders (Cookie metadata))))) as [writes ->].
    apply returns_pure.
  - intros writes. destruct (_ =? 0); [|apply returns_pure].
    apply returns_bind; [apply returns_emit|]. intros _.
    destruct (wait_loop_spec W (timeout l)
                (count_at writes (fst (lite_Bootstrap W 0 (Leaders (Cookie metadata)))))
                (wait_fuel (timeout l) (Z.of_N (bootstrapped_at W)))
                (Z.of_N (bootstrapped_at W))) as [r [Hr _]];
      [unfold wait_fuel; lia|].
    unfold zero_peer_wait. rewrite Hr.
    destruct r; [apply returns_pure | eexists; reflexivity].
Qed.

Theorem Start_returns (W : World) (l : LightClient) (sharable : string)
    (onlyInfo stat progUpd : bool) :
  exists events out, Start W l sharable onlyInfo stat progUpd = Some (events, out).
Proof.
  unfold Start.
  match goal with
  | |- exists events out, match ?flow with _ => _ end = _ =>
      assert (H : returns flow)
  end.
  { apply returns_bind.
    - destruct (getInfo W sharable "" (pubKey l)) as [ev [err|metadata]];
        eexists; reflexivity.
    - intros metadata.
      repeat first
        [ apply returns_emit | apply returns_pure | apply returns_leave
        | apply returns_check | apply bootstrap_and_wait_returns
        | apply returns_bind; [|intros ?]
        | match goal with
          | |- returns (if ?c then _ else _) => destruct c
          | |- returns (let (_, _) := ?p in _) => destruct p
          end ]. }
  destruct H as [[ev [o|o]] ->]; eexists _, _; reflexivity.
Qed.

(** C4. Throughout a session the shared count never decreases, provided
    every call of Bootstrap returns a count that is not negative (and, the
    counter being a 64-bit [int], not within [peerThreshold] of the largest
    [int]): it starts as the result of the first, synchronous Bootstrap;
    every later store is made by the retry goroutine and is the value
    before it plus the result of the next Bootstrap; so the stored values,
    and the values read at any two successive times, are in
    non-decreasing order. *)
Theorem shared_count_never_decreases (W : World) (l : LightClient)
    (leaders : list AddrInfo) (now : Z) :
  let count0 := fst (lite_Bootstrap W 0 leaders) in
  (forall k, 0 <= fst (lite_Bootstrap W k leaders) <= max_int - peerThreshold) ->
  exists writes,
    retry_writes W l leaders now count0 = Some writes
    /\ adds_results W leaders count0 1 (map snd writes)
    /\ nondecreasing_from count0 (map snd writes)
    /\ forall t1 t2, t1 <= t2 ->
         count0 <= count_at writes count0 t1 <= count_at writes count0 t2.
Proof.
  intros count0 Hboot.
  assert (Hnd : exists writes,
             retry_writes W l leaders now count0 = Some writes
             /\ adds_results W leaders count0 1 (map snd writes)
             /\ nondecreasing_from count0 (map snd writes)).
  { unfold retry_writes. destruct (count0 <? peerThreshold).
    - destruct (retry_task_total W (timeout l) leaders (jsonOut l) now count0)
        as [r Hr].
      rewrite Hr. exists (rr_writes r). split; [reflexivity|].
      unfold retry_task in Hr. split.
      + exact (retry_loop_adds _ _ _ _ _ _ _ _ Hr).
      + refine (proj1 (retry_loop_nondecreasing _ _ _ _ Hboot _ _ _ _ _ Hr)).
        cbn [rt_count]. specialize (Hboot 0%nat). fold count0 in Hboot.
        unfold min_int. lia.
    - exists []. repeat split. }
  destruct Hnd as [writes [Hw [Hadds Hnd]]].
  exists writes. repeat split; try assumption;
    apply (count_at_mono writes count0 t1 t2 Hnd); assumption.
Qed.

Lemma shared_count_never_decreases_witness :
  let W := sample_world (fun k => if Nat.ltb k 3 then (0, 0%N) else (2, 1000%N))
             (inl "connection refused") ([], None) in
  (forall k, 0 <= fst (lite_Bootstrap W k sample_leaders) <= max_int - peerThreshold)
  /\ exists writes,
       retry_writes W (sample_client (Minute * 15)) sample_leaders 2000000000
         (fst (lite_Bootstrap W 0 sample_leaders)) = Some writes
       /\ adds_results W sample_leaders (fst (lite_Bootstrap W 0 sample_leaders)) 1
            (map snd writes)
       /\ nondecreasing_from (fst (lite_Bootstrap W 0 sample_leaders)) (map snd writes)
       /\ forall t1 t2, t1 <= t2 ->
            fst (lite_Bootstrap W 0 sample_leaders)
            <= count_at writes (fst (lite_Bootstrap W 0 sample_leaders)) t1
            <= count_at writes (fst (lite_Bootstrap W 0 sample_leaders)) t2.
Proof.
  intro W.
  assert (H : forall k, 0 <= fst (lite_Bootstrap W k sample_leaders)
                        <= max_int - peerThreshold).
  { intro k. unfold W, sample_world. cbn [lite_Bootstrap].
    destruct (Nat.ltb k 3); cbn [fst]; unfold max_int, peerThreshold; lia. }
  split; [exact H|].
  exact (shared_count_never_decreases W (sample_client (Minute * 15))
           sample_leaders 2000000000 H).
Defined.



(** The sample session above ends at its deadline of three seconds, one
    second after the wait began, in the failure result. *)
Example zero_peers_sample_run :
  let W := sample_world (fun _ => (0, 0%N)) (inl "connection refused") ([], None) in
  let l := sample_client (Second * 3) in
  zero_peer_wait W (timeout l) (count_at [] 0) 2000000000
  = Some (Stopped 3000000000
            (NewOut internalError (Text "Stopped while waiting for peers")
               "context cancelled" DataNil))
  /\ option_map snd (Start W l "abc123" false false true)
     = Some (NewOut internalError (Text "Stopped while waiting for peers")
               "context cancelled" DataNil).
Proof. vm_compute. split; reflexivity. Qed.

(** A session whose retry goroutine connects two peers at its second pass
    leaves the wait at the first poll after that. *)
Example zero_peers_sample_proceed :
  let W := sample_world (fun k => if Nat.ltb k 2 then (0, 0%N) else (2, 1000%N))
             (inl "connection refused") ([], None) in
  let l := sample_client (Minute * 15) in
  retry_writes W l sample_leaders 2000000000 0
  = Some [(32000000000, 0); (62000001000, 2); (92000002000, 4); (122000003000, 6)]
  /\ zero_peer_wait W (timeout l)
       (count_at [(32000000000, 0); (62000001000, 2); (92000002000, 4);
                  (122000003000, 6)] 0)
       2000000000
     = Some (Proceed 63000000000 2).
Proof. vm_compute. split; reflexivity. Qed.




(** A run of the goroutine in the second sample session: four passes call
    Bootstrap, the fifth finds the threshold reached. *)
Example retry_task_sample_run :
  let W := sample_world (fun k => if Nat.ltb k 2 then (0, 0%N) else (2, 1000%N))
             (inl "connection refused") ([], None) in
  option_map (fun r => (rr_end r, rr_at r, rr_count r))
    (retry_task W (Minute * 15) sample_leaders false 2000000000 0)
  = Some (RetryDone, 122000003000, 6).
Proof. vm_compute. reflexivity. Qed.

(** With no leader to connect to, the goroutine gives up at its 31st
    tick, the first later than 15 minutes after its start. *)
Example retry_task_sample_gives_up :
  let W := sample_world (fun _ => (0, 0%N)) (inl "connection refused") ([], None) in
  option_map (fun r => (rr_end r, rr_at r, rr_count r, length (rr_writes r)))
    (retry_task W (Minute * 45) sample_leaders false 0 0)
  = Some (RetryGaveUp, Second * 30 * 31, 0, 30%nat).
Proof. vm_compute. reflexivity. Qed.

(** ** Bootstrap and the threshold *)

Lemma existsb_eqb_In (x : string) (xs : list string) :
  existsb (String.eqb x) xs = true <-> In x xs.
Proof.
  rewrite existsb_exists. split.
  - intros [y [Hin Heq]]. apply String.eqb_eq in Heq. now subst.
  - intro Hin. exists x. split; [exact Hin | apply String.eqb_refl].
Qed.

(** The transport's bootstrap keeps the connections it had, connects every
    reachable leader, never connects a peer twice, and counts the
    connections it adds. *)
Lemma bootstrap_connects (reachable : string -> bool) (leaders : list AddrInfo) :
  forall (connected c' : list string) (n : Z),
    bootstrap reachable connected leaders = (c', n) ->
    n = Z.of_nat (length c') - Z.of_nat (length connected)
    /\ (NoDup connected -> NoDup c')
    /\ incl connected c'
    /\ forall p, In p leaders -> reachable (ID p) = true -> In (ID p) c'.
Proof.
  induction leaders as [|p rest IH]; intros connected c' n H; cbn [bootstrap] in H.
  - injection H as <- <-. repeat split; try tauto; try lia.
    + apply incl_refl.
    + intros p [].
  - destruct (reachable (ID p)) eqn:Hr; cbn [andb] in H.
    + destruct (existsb (String.eqb (ID p)) connected) eqn:Hex; cbn [negb] in H.
      * destruct (IH _ _ _ H) as (Hn & Hnd & Hincl & Hall).
        repeat split; try assumption.
        intros q [<-|Hq] Hrq; [|now apply Hall].
        apply Hincl. now apply existsb_eqb_In.
      * destruct (bootstrap reachable (ID p :: connected) rest) as [c n0] eqn:B.
        injection H as <- <-.
        destruct (IH _ _ _ B) as (Hn & Hnd & Hincl & Hall).
        cbn [length] in Hn. repeat split.
        -- lia.
        -- intro Hc. apply Hnd. constructor; [|exact Hc].
           intro Hin. apply existsb_eqb_In in Hin. congruence.
        -- intros x Hx. apply Hincl. now right.
        -- intros q [<-|Hq] Hrq; [|now apply Hall].
           apply Hincl. now left.
    + destruct (IH _ _ _ H) as (Hn & Hnd & Hincl & Hall).
      repeat split; try assumption.
      intros q [<-|Hq] Hrq; [congruence | now apply Hall].
Qed.

(** C8, as amended.  When at least 5 distinct leaders of the metadata are
    reachable, the first, synchronous bootstrap (the transport's, by the
    specification) reports a count of at least 5, the retry goroutine is
    not started and the main flow goes on at once with that count. *)
Theorem reachable_leaders_skip_retry (W : World) (l : LightClient) (metadata : info)
    (reachable : string -> bool) (live : list string) :
  let leaders := Leaders (Cookie metadata) in
  let count := fst (lite_Bootstrap W 0 leaders) in
  count = snd (bootstrap reachable [] leaders) ->
  NoDup live ->
  incl live (map ID leaders) ->
  (forall p, In p live -> reachable p = true) ->
  peerThreshold <= Z.of_nat (length live) ->
  peerThreshold <= count
  /\ bootstrap_and_wait W l metadata
     = Some (EvBootstrap leaders :: showStep success "Bootstrapped" (jsonOut l),
             inr count).
Proof.
  intros leaders count Hcount Hnd Hincl Hlive Hfive.
  assert (Hge : peerThreshold <= count).
  { destruct (bootstrap reachable [] leaders) as [c' n] eqn:B.
    cbn [snd] in Hcount.
    destruct (bootstrap_connects reachable leaders [] c' n B) as (Hn & Hnd' & _ & Hall).
    assert (Hsub : incl live c').
    { intros x Hx. pose proof (Hincl x Hx) as Hm.
      apply in_map_iff in Hm. destruct Hm as [p [<- Hp]].
      apply Hall; [exact Hp | now apply Hlive]. }
    pose proof (NoDup_incl_length Hnd Hsub) as Hlen.
    cbn [length] in Hn. lia. }
  split; [exact Hge|].
  unfold bootstrap_and_wait, retry_writes. cbv zeta. fold leaders. fold count.
  destruct (Z.ltb_spec count peerThreshold); [lia|].
  destruct (Z.eqb_spec count 0); [unfold peerThreshold in *; lia|].
  cbn [bind emit pure app]. reflexivity.
Qed.

Lemma reachable_leaders_skip_retry_witness :
  let boot := snd (bootstrap (fun _ => true) [] sample_leaders) in
  let W := sample_world (fun _ => (boot, 0%N)) (inl "connection refused") ([], None) in
  let l := sample_client (Minute * 15) in
  let leaders := Leaders (Cookie sample_info) in
  let live := map ID sample_leaders in
  (fst (lite_Bootstrap W 0 leaders) = snd (bootstrap (fun _ => true) [] leaders)
   /\ NoDup live
   /\ incl live (map ID leaders)
   /\ (forall p, In p live -> (fun _ : string => true) p = true)
   /\ peerThreshold <= Z.of_nat (length live))
  /\ peerThreshold <= fst (lite_Bootstrap W 0 leaders)
  /\ bootstrap_and_wait W l sample_info
     = Some (EvBootstrap leaders :: showStep success "Bootstrapped" (jsonOut l),
             inr (fst (lite_Bootstrap W 0 leaders))).
Proof.
  intros boot W l leaders live.
  assert (Hnd : NoDup live).
  { repeat constructor; cbn; intuition discriminate. }
  assert (Hfive : peerThreshold <= Z.of_nat (length live)) by (vm_compute; discriminate).
  split.
  - repeat split; [exact Hnd | apply incl_refl | exact Hfive].
  - exact (reachable_leaders_skip_retry W l sample_info (fun _ => true) live
             eq_refl Hnd (incl_refl _) (fun _ _ => eq_refl) Hfive).
Defined.

(** C8, as stated, fails: five leaders, none of them reachable.  The
    first bootstrap reports zero and the retry goroutine is started. *)
Lemma unreachable_leaders_start_retry :
  let boot := snd (bootstrap (fun _ => false) [] sample_leaders) in
  let W := sample_world (fun _ => (boot, 0%N)) (inl "connection refused") ([], None) in
  let l := sample_client (Second * 3) in
  Z.of_nat (length (Leaders (Cookie sample_info))) = 5
  /\ fst (lite_Bootstrap W 0 (Leaders (Cookie sample_info))) = 0
  /\ option_map (fun r => existsb (fun e => match e with EvSpawnRetry => true | _ => false end)
                            (fst r))
       (bootstrap_and_wait W l sample_info) = Some true.
Proof. vm_compute. repeat split. Qed.

(** ** Results of [Start] *)

(** The log lines among the events that are warnings or errors. *)
Fixpoint warnings (ev : list Event) : list Event :=
  match ev with
  | [] => []
  | EvLog Warn format args :: rest => EvLog Warn format args :: warnings rest
  | EvLog Error format args :: rest => EvLog Error format args :: warnings rest
  | _ :: rest => warnings rest
  end.

Lemma warnings_app (ev1 ev2 : list Event) :
  warnings (ev1 ++ ev2) = warnings ev1 ++ warnings ev2.
Proof.
  induction ev1 as [|e ev1 IH]; [reflexivity|].
  destruct e as [[] ? ?| | | | | | | | | | | | | | |]; cbn [app warnings];
    rewrite IH; reflexivity.
Qed.

Lemma UnmarshalJSON_logs_warnings (W : World) (b : string) :
  warnings (UnmarshalJSON_logs W b) = [].
Proof. unfold UnmarshalJSON_logs. destruct (json_Unmarshal_map W b); reflexivity. Qed.

(** A successful [getInfo] posts its request, logs the response and the
    inner document at debug level, and does nothing else. *)
Lemma getInfo_ok_events (W : World) (sharable oldCookie pubKB : string)
    (metadata : info) :
  snd (getInfo W sharable oldCookie pubKB) = inr metadata ->
  exists body resp inner,
    fst (getInfo W sharable oldCookie pubKB)
    = [EvHttpPost apiAddr body;
       EvLog Debug "Raw response %s" [resp];
       EvLog Debug "API response %s" [inner]].
Proof.
  unfold getInfo.
  destruct (json_Marshal W _) as [err|buf]; [discriminate|].
  destruct (http_Post W apiAddr buf) as [err|respBuf]; [discriminate|].
  unfold UnmarshalJSON, UnmarshalJSON_logs.
  destruct (json_Unmarshal_map W respBuf) as [err|val]; [discriminate|].
  destruct (json_Unmarshal_tmp W (map_get val "val")) as [err|tmp]; [discriminate|].
  destruct (negb (tmp_Status tmp =? 200)); [discriminate|].
  destruct (json_Unmarshal_info W _ _) as [d [err|]]; [discriminate|].
  intros _. exists buf, respBuf, (map_get val "val"). reflexivity.
Qed.

(** [updateInfo] logs no warning itself. *)
Lemma updateInfo_warnings (W : World) (i : info) (timeConsumed : Z) :
  warnings (fst (updateInfo W i timeConsumed)) = [].
Proof.
  unfold updateInfo.
  destruct (json_Marshal W _) as [err|buf]; [reflexivity|].
  destruct (http_Post W apiAddr buf) as [err|respBuf]; [reflexivity|].
  destruct (UnmarshalJSON W zero_apiResp respBuf) as [respData [err|]];
    [destruct (negb _)|]; cbn [fst warnings]; apply UnmarshalJSON_logs_warnings.
Qed.

(** C7. A run with [onlyInfo] set whose metadata fetch succeeds returns the
    metadata result right after the fetch: all it does is post the fetch
    request, log the response (twice, at debug level), report the step
    "Got metadata" and log the metadata.  No destination file is created,
    no swarm key decoded, no transport or peer set up, nothing
    bootstrapped, downloaded or reported as complete. *)
Theorem info_only_returns_metadata (W : World) (l : LightClient) (sharable : string)
    (stat progUpd : bool) (metadata : info) :
  snd (getInfo W sharable "" (pubKey l)) = inr metadata ->
  exists body resp inner,
    Start W l sharable true stat progUpd
    = Some ([EvHttpPost apiAddr body;
             EvLog Debug "Raw response %s" [resp];
             EvLog Debug "API response %s" [inner];
             EvOutMessage (NewOut success (Text "Got metadata") "" DataNil) (jsonOut l);
             EvLog Info "Got metadata info %+v" []],
            NewOut success MetaInfo "" (DataInfo metadata)).
Proof.
  intros Hget.
  destruct (getInfo_ok_events W sharable "" (pubKey l) metadata Hget)
    as (body & resp & inner & Hev).
  exists body, resp, inner.
  rewrite (Start_info_only W l sharable metadata stat progUpd Hget), Hev.
  reflexivity.
Qed.

Lemma info_only_returns_metadata_witness :
  let W := sample_world (fun _ => (5, 0%N)) (inl "connection refused") ([], None) in
  let l := sample_client (Minute * 15) in
  snd (getInfo W "abc123" "" (pubKey l)) = inr sample_info
  /\ exists body resp inner,
       Start W l "abc123" true false true
       = Some ([EvHttpPost apiAddr body;
                EvLog Debug "Raw response %s" [resp];
                EvLog Debug "API response %s" [inner];
                EvOutMessage (NewOut success (Text "Got metadata") "" DataNil) (jsonOut l);
                EvLog Info "Got metadata info %+v" []],
               NewOut success MetaInfo "" (DataInfo sample_info)).
Proof.
  intros W l. split; [reflexivity|].
  exact (info_only_returns_metadata W l "abc123" false true sample_info eq_refl).
Defined.

(** C2, as amended.  When the file copy completes, [Start] returns
    [DownloadSuccess] if [stat] is unset and the stats result if it is set,
    both with status 200, whatever the completion report and the ledger
    retrieval do.  An error of the completion report is logged as a
    warning and dropped; an error of the ledger retrieval is dropped
    without a log line: the warnings of the session are those of the
    bootstrap step and the one about the completion report. *)
Theorem completion_failures_swallowed (W : World) (l : LightClient)
    (sharable : string) (stat progUpd : bool) (metadata : info)
    (ev : list Event) (count : Z) :
  setup_succeeds W l sharable metadata ->
  bootstrap_and_wait W l metadata = Some (ev, inr count) ->
  copy_succeeds W metadata ->
  exists events,
    Start W l sharable false stat progUpd = Some (events, final_out W stat)
    /\ out_Status (final_out W stat) = 200
    /\ out_Message (final_out W stat) = (if stat then Text "Stats" else DownloadSuccess)
    /\ warnings events
       = warnings ev
         ++ match snd (updateInfo W metadata (wrap64 (unix_after W - unix_before W))) with
            | Some err =>
                [EvLog Warn "Failed updating metadata after download Err: %s" [err]]
            | None => []
            end.
Proof.
  intros Hsetup Hboot Hcopy.
  eexists. split; [exact (Start_downloaded W l sharable metadata stat progUpd ev count
                            Hsetup Hboot Hcopy)|].
  split; [destruct stat; reflexivity|].
  split; [destruct stat; reflexivity|].
  destruct Hsetup as [Hget _].
  destruct (getInfo_ok_events W sharable "" (pubKey l) metadata Hget)
    as (body & resp & inner & Hev).
  unfold download_events, final_events. rewrite Hev.
  rewrite !warnings_app, updateInfo_warnings.
  cbn [warnings showStep app].
  destruct progUpd, stat, (snd (updateInfo W metadata _)); cbn [warnings app];
    rewrite ?app_nil_r, <- ?app_assoc; reflexivity.
Qed.

Lemma completion_failures_swallowed_witness :
  let W := sample_world (fun _ => (5, 0%N)) (inl "connection refused")
             (["receipt-1"], Some "ledger unavailable") in
  let l := sample_client (Minute * 15) in
  let ev := EvBootstrap sample_leaders :: showStep success "Bootstrapped" false in
  (setup_succeeds W l "abc123" sample_info
   /\ bootstrap_and_wait W l sample_info = Some (ev, inr 5)
   /\ copy_succeeds W sample_info)
  /\ exists events,
       Start W l "abc123" false true true = Some (events, final_out W true)
       /\ out_Status (final_out W true) = 200
       /\ out_Message (final_out W true) = Text "Stats"
       /\ warnings events
          = warnings ev
            ++ match snd (updateInfo W sample_info (wrap64 (unix_after W - unix_before W))) with
               | Some err =>
                   [EvLog Warn "Failed updating metadata after download Err: %s" [err]]
               | None => []
               end.
Proof.
  intros W l ev.
  assert (Hsetup : setup_succeeds W l "abc123" sample_info)
    by (repeat split; reflexivity).
  assert (Hboot : bootstrap_and_wait W l sample_info = Some (ev, inr 5))
    by reflexivity.
  assert (Hcopy : copy_succeeds W sample_info)
    by (repeat split; try reflexivity; exists 1000; reflexivity).
  split; [exact (conj Hsetup (conj Hboot Hcopy))|].
  exact (completion_failures_swallowed W l "abc123" true true sample_info ev 5
           Hsetup Hboot Hcopy).
Defined.

(** C2, as stated, fails on the logging of a ledger error: in a session
    whose copy completes, whose completion report is accepted and whose
    ledger retrieval fails, the stats result is returned and no warning is
    logged. *)
Lemma ledger_failure_not_logged :
  let W := sample_world (fun _ => (5, 0%N)) (inr (json_val_object inner_no_data))
             (["receipt-1"], Some "ledger unavailable") in
  let l := sample_client (Minute * 15) in
  snd (scp_GetMicroPayments W) = Some "ledger unavailable"
  /\ option_map snd (Start W l "abc123" false true true)
     = Some (NewOut success (Text "Stats") ""
               (DataStat {| ConnectedPeers := ["QmLeaderA"; "QmLeaderB"];
                            Ledgers := ["receipt-1"]; DownloadTime := 42 |}))
  /\ option_map (fun r => warnings (fst r)) (Start W l "abc123" false true true)
     = Some [].
Proof. vm_compute. repeat split. Qed.

(** A failed completion report, in the same session, is logged. *)
Example completion_failure_logged :
  let W := sample_world (fun _ => (5, 0%N)) (inl "connection refused") ([], None) in
  let l := sample_client (Minute * 15) in
  option_map snd (Start W l "abc123" false false true)
  = Some (NewOut 200 DownloadSuccess "" DataNil)
  /\ option_map (fun r => warnings (fst r)) (Start W l "abc123" false false true)
     = Some [EvLog Warn "Failed updating metadata after download Err: %s"
               ["connection refused"]].
Proof. vm_compute. repeat split. Qed.

(** ** The client's timeout *)

(** C10. For a timeout string that does not parse as a duration,
    [NewLightClient] returns no error of its own (the only error it can
    return is that of the key generation, which comes first): it logs the
    warning that names a default of 15 minutes and builds the client with a
    timeout of 45 minutes. *)
Theorem invalid_timeout_uses_45_minutes (W : World) (destination timeout : string)
    (jsonOut : bool) (err : error) :
  time_ParseDuration W timeout = inl err ->
  match crypto_GenerateKeyPair W with
  | inl e =>
      NewLightClient W destination timeout jsonOut
      = ([EvLog Error "Failed generating key pair Err:%s" [e]], inl e)
  | inr (priv, pubk) =>
      NewLightClient W destination timeout jsonOut
      = ([EvLog Warn "Invalid timeout duration specified. Using default 15m" []],
         inr {| destination := destination; jsonOut := jsonOut;
                timeout := 45 * Minute; privKey := priv; pubKey := pubk |})
  end
  /\ 45 * Minute = 2700 * Second
  /\ 45 * Minute <> 15 * Minute.
Proof.
  intros Hparse. unfold NewLightClient.
  destruct (crypto_GenerateKeyPair W) as [e|[priv pubk]].
  - repeat split. discriminate.
  - rewrite Hparse. repeat split. discriminate.
Qed.

Lemma invalid_timeout_uses_45_minutes_witness :
  let W := sample_world (fun _ => (5, 0%N)) (inl "connection refused") ([], None) in
  time_ParseDuration W "fifteen minutes"
  = inl ("time: invalid duration " ++ json_quote "fifteen minutes")%string
  /\ NewLightClient W "." "fifteen minutes" false
     = ([EvLog Warn "Invalid timeout duration specified. Using default 15m" []],
        inr {| destination := "."; jsonOut := false; timeout := 45 * Minute;
               privKey := "sk"; pubKey := "pk" |})
  /\ 45 * Minute = 2700 * Second
  /\ 45 * Minute <> 15 * Minute.
Proof.
  intro W. split; [reflexivity|].
  exact (invalid_timeout_uses_45_minutes W "." "fifteen minutes" false _ eq_refl).
Defined.

(** ** The response envelope *)

(** C5, as amended.  Decoding a response body fails with the decoder's
    error when the outer object does not parse, and when the inner
    document (the text under "val") does not; when both parse and the inner
    status is not 200 it fails with the inner details if there are any and
    otherwise with a message made from the status; when the inner status
    is 200 the data member is decoded into the metadata, and the outcome is
    that of this third decoding: the metadata on success, its error
    otherwise. *)
Theorem envelope_decoding (W : World) (a : apiResp) (b : string) :
  (forall err, json_Unmarshal_map W b = inl err ->
     UnmarshalJSON W a b = (a, Some err))
  /\ (forall val err,
        json_Unmarshal_map W b = inr val ->
        json_Unmarshal_tmp W (map_get val "val") = inl err ->
        UnmarshalJSON W a b = (a, Some err))
  /\ (forall val tmp,
        json_Unmarshal_map W b = inr val ->
        json_Unmarshal_tmp W (map_get val "val") = inr tmp ->
        tmp_Status tmp <> 200 ->
        UnmarshalJSON W a b
        = (a, Some (if is_empty (tmp_Details tmp)
                    then ("Invalid status from server: %!s(int="
                            ++ fmt_d (tmp_Status tmp) ++ ")")%string
                    else tmp_Details tmp)))
  /\ (forall val tmp,
        json_Unmarshal_map W b = inr val ->
        json_Unmarshal_tmp W (map_get val "val") = inr tmp ->
        tmp_Status tmp = 200 ->
        UnmarshalJSON W a b
        = ({| Status := 200;
              Data := fst (json_Unmarshal_info W (tmp_Data tmp) (Data a));
              Details := Details a |},
           snd (json_Unmarshal_info W (tmp_Data tmp) (Data a)))).
Proof.
  unfold UnmarshalJSON. repeat split.
  - intros err ->. reflexivity.
  - intros val err -> ->. reflexivity.
  - intros val tmp -> -> Hs.
    destruct (Z.eqb_spec (tmp_Status tmp) 200); [contradiction|]. reflexivity.
  - intros val tmp -> -> Hs. rewrite Hs. cbn [Z.eqb Pos.eqb negb Status Data Details].
    destruct (json_Unmarshal_info W (tmp_Data tmp) (Data a)). reflexivity.
Qed.

(** The four cases on sample bodies: a refusal with details, one without,
    a full answer, and a body that is not JSON. *)
Example envelope_decoding_samples :
  let W := sample_world (fun _ => (5, 0%N)) (inl "connection refused") ([], None) in
  snd (UnmarshalJSON W zero_apiResp (json_val_object inner_refused))
  = Some "no such sharable"
  /\ snd (UnmarshalJSON W zero_apiResp (json_val_object inner_refused_silent))
     = Some "Invalid status from server: %!s(int=404)"
  /\ UnmarshalJSON W zero_apiResp (json_val_object inner_ok)
     = ({| Status := 200; Data := sample_info; Details := "" |}, None)
  /\ snd (UnmarshalJSON W zero_apiResp "<html>")
     = Some "invalid character '<' looking for beginning of value"
  /\ snd (UnmarshalJSON W zero_apiResp "{}") = Some "unexpected end of JSON input".
Proof. vm_compute. repeat split. Qed.

Lemma envelope_decoding_witness :
  let W := sample_world (fun _ => (5, 0%N)) (inl "connection refused") ([], None) in
  UnmarshalJSON W zero_apiResp "<html>"
  = (zero_apiResp, Some "invalid character '<' looking for beginning of value")
  /\ UnmarshalJSON W zero_apiResp "{}"
     = (zero_apiResp, Some "unexpected end of JSON input")
  /\ UnmarshalJSON W zero_apiResp (json_val_object inner_refused_silent)
     = (zero_apiResp, Some "Invalid status from server: %!s(int=404)")
  /\ UnmarshalJSON W zero_apiResp (json_val_object inner_ok)
     = ({| Status := 200; Data := sample_info; Details := "" |}, None).
Proof.
  intro W. split; [|split; [|split]].
  - exact (proj1 (envelope_decoding W zero_apiResp "<html>") _ eq_refl).
  - exact (proj1 (proj2 (envelope_decoding W zero_apiResp "{}")) [] _ eq_refl eq_refl).
  - refine (proj1 (proj2 (proj2 (envelope_decoding W zero_apiResp
                                   (json_val_object inner_refused_silent))))
              _ _ eq_refl eq_refl _).
    discriminate.
  - exact (proj2 (proj2 (proj2 (envelope_decoding W zero_apiResp
                                  (json_val_object inner_ok))))
             _ _ eq_refl eq_refl eq_refl).
Defined.

(** C5, as stated, fails.  For the body [{"val":"{\"status\":200}"}] both
    layers parse and the inner status is 200, yet decoding fails, the
    inner document having no data member to decode; and so it does for an
    inner document whose data member is a string. *)
Lemma status_200_without_data_fails :
  let W := sample_world (fun _ => (5, 0%N)) (inl "connection refused") ([], None) in
  let b := json_val_object inner_no_data in
  (json_Unmarshal_map W b = inr [("val"%string, inner_no_data)]
   /\ json_Unmarshal_tmp W inner_no_data
      = inr {| tmp_Status := 200; tmp_Details := ""; tmp_Data := "" |}
   /\ UnmarshalJSON W zero_apiResp b
      = ({| Status := 200; Data := zero_info; Details := "" |},
         Some "unexpected end of JSON input"))
  /\ (json_Unmarshal_map W (json_val_object inner_bad_data)
      = inr [("val"%string, inner_bad_data)]
      /\ json_Unmarshal_tmp W inner_bad_data
         = inr {| tmp_Status := 200; tmp_Details := ""; tmp_Data := json_quote "none" |}
      /\ UnmarshalJSON W zero_apiResp (json_val_object inner_bad_data)
         = ({| Status := 200; Data := zero_info; Details := "" |},
            Some "json: cannot unmarshal string into Go value of type lib.info")).
Proof. vm_compute. repeat split. Qed.

(** ** The progress monitor

    [progress] is computed in binary64.  The three operations it is made of
    (conversion of an integer, division, multiplication) each round the
    exact result to the nearest representable value; the development below
    relates the algorithms of the standard library's specification of IEEE
    754 to that fact, and derives that [progress] is monotone in the size
    and exact for a complete file. *)

(** Position of a remainder [r] of a division by [d] against the half. *)
Definition loc_of (r d : Z) : location :=
  if r =? 0 then loc_Exact else loc_Inexact (Z.compare (2 * r) d).

Lemma new_location_loc_of (d r : Z) :
  0 < d -> 0 <= r < d -> new_location d r = loc_of r d.
Proof.
  intros Hd Hr. unfold new_location, new_location_even, new_location_odd, loc_of.
  destruct (Z.even d) eqn:Ev; [reflexivity|].
  destruct (Z.eqb_spec r 0); [reflexivity|].
  assert (Hodd : Z.odd d = true) by (rewrite <- Z.negb_even, Ev; reflexivity).
  apply Z.odd_spec in Hodd. destruct Hodd as [k Hk].
  f_equal.
  destruct (Z.compare_spec (2 * r + 1) d), (Z.compare_spec (2 * r) d);
    try reflexivity; lia.
Qed.

(** The record of a quotient: mantissa [N / D], round and sticky bits from
    the remainder. *)
Definition rec_of (N D : Z) : shr_record :=
  shr_record_of_loc (N / D) (loc_of (N mod D) D).

Lemma shr_1_spec (m : Z) (r s : bool) :
  0 <= m ->
  shr_1 (Build_shr_record m r s) = Build_shr_record (m / 2) (Z.odd m) (r || s).
Proof.
  intros Hm. unfold shr_1.
  destruct m as [|p|p]; [reflexivity| |lia].
  destruct p as [p|p|].
  - f_equal. rewrite Pos2Z.inj_xI.
    apply Z.div_unique with (r := 1); lia.
  - f_equal. rewrite Pos2Z.inj_xO.
    apply Z.div_unique with (r := 0); lia.
  - reflexivity.
Qed.

Lemma rec_of_bits (N D : Z) :
  0 < D ->
  rec_of N D
  = Build_shr_record (N / D) (D <=? 2 * (N mod D))
      (negb (N mod D =? 0) && negb (2 * (N mod D) =? D)).
Proof.
  intros HD. unfold rec_of, loc_of, shr_record_of_loc.
  pose proof (Z.mod_pos_bound N D HD) as Hr.
  destruct (Z.eqb_spec (N mod D) 0) as [E|E].
  - rewrite E. cbn [negb andb]. f_equal.
    destruct (Z.leb_spec D (2 * 0)); [lia | reflexivity].
  - cbn [negb andb].
    destruct (Z.compare_spec (2 * (N mod D)) D);
      destruct (Z.leb_spec D (2 * (N mod D)));
      destruct (Z.eqb_spec (2 * (N mod D)) D); try lia; reflexivity.
Qed.

Lemma shr_1_rec_of (N D : Z) :
  0 <= N -> 0 < D -> shr_1 (rec_of N D) = rec_of N (2 * D).
Proof.
  intros HN HD.
  rewrite !rec_of_bits by lia.
  rewrite shr_1_spec by (apply Z.div_pos; lia).
  pose proof (Z.mod_pos_bound N D HD) as Hr.
  pose proof (Z.div_mod N D ltac:(lia)) as HN'.
  assert (Hq : 0 <= N / D) by (apply Z.div_pos; lia).
  pose proof (Z.mod_pos_bound (N / D) 2 ltac:(lia)) as Hb.
  pose proof (Z.div_mod (N / D) 2 ltac:(lia)) as Hq'.
  assert (Hdiv : N / (2 * D) = N / D / 2).
  { rewrite (Z.mul_comm 2 D). rewrite Z.div_div by lia. reflexivity. }
  assert (Hmod : N mod (2 * D) = (N / D) mod 2 * D + N mod D).
  { symmetry. apply Z.mod_unique with (q := N / D / 2); [left; nia | nia]. }
  rewrite Hdiv, Hmod.
  rewrite (Zodd_mod (N / D)).
  assert (Hb' : (N / D) mod 2 = 0 \/ (N / D) mod 2 = 1) by lia.
  destruct Hb' as [Hb'|Hb']; rewrite Hb'; cbn [Z.eqb Pos.eqb];
    rewrite ?Z.mul_0_l, ?Z.mul_1_l, ?Z.add_0_l; f_equal.
  - destruct (Z.leb_spec (2 * D) (2 * (N mod D))); [lia | reflexivity].
  - destruct (Z.leb_spec D (2 * (N mod D)));
    destruct (Z.eqb_spec (N mod D) 0);
    destruct (Z.eqb_spec (2 * (N mod D)) D);
    destruct (Z.eqb_spec (2 * (N mod D)) (2 * D));
    cbn [negb andb orb]; try reflexivity; lia.
  - destruct (Z.leb_spec (2 * D) (2 * (D + N mod D))); [reflexivity | lia].
  - destruct (Z.leb_spec D (2 * (N mod D)));
    destruct (Z.eqb_spec (N mod D) 0);
    destruct (Z.eqb_spec (2 * (N mod D)) D);
    destruct (Z.eqb_spec (D + N mod D) 0);
    destruct (Z.eqb_spec (2 * (D + N mod D)) (2 * D));
    cbn [negb andb orb]; try reflexivity; lia.
Qed.

Lemma pow2_xO (p : positive) : 2 ^ Z.pos p~0 = 2 ^ Z.pos p * 2 ^ Z.pos p.
Proof.
  replace (Z.pos p~0) with (Z.pos p + Z.pos p) by lia.
  apply Z.pow_add_r; lia.
Qed.

Lemma pow2_xI (p : positive) : 2 ^ Z.pos p~1 = 2 * (2 ^ Z.pos p * 2 ^ Z.pos p).
Proof.
  replace (Z.pos p~1) with (1 + (Z.pos p + Z.pos p)) by lia.
  rewrite !Z.pow_add_r by lia. reflexivity.
Qed.

Lemma pow2_pos (n : Z) : 0 <= n -> 0 < 2 ^ n.
Proof. intro H. apply Z.pow_pos_nonneg; lia. Qed.

Lemma iter_shr_1_rec_of (N : Z) (p : positive) :
  0 <= N -> forall D, 0 < D ->
  iter_pos shr_1 p (rec_of N D) = rec_of N (D * 2 ^ Z.pos p).
Proof.
  intros HN. induction p as [p IH|p IH|]; intros D HD; cbn [iter_pos].
  - pose proof (pow2_pos (Z.pos p) ltac:(lia)) as Hp.
    rewrite shr_1_rec_of, IH, IH by (try assumption; nia).
    f_equal. rewrite pow2_xI. ring.
  - pose proof (pow2_pos (Z.pos p) ltac:(lia)) as Hp.
    rewrite IH, IH by (try assumption; nia).
    f_equal. rewrite pow2_xO. ring.
  - rewrite shr_1_rec_of by assumption. f_equal. change (2 ^ 1) with 2. ring.
Qed.

Lemma shr_rec_of (N D e n : Z) :
  0 <= N -> 0 < D -> 0 <= n ->
  shr (rec_of N D) e n = (rec_of N (D * 2 ^ n), e + n).
Proof.
  intros HN HD Hn. unfold shr. destruct n as [|p|p]; [| |lia].
  - rewrite Z.mul_1_r, Z.add_0_r. reflexivity.
  - rewrite iter_shr_1_rec_of by assumption. reflexivity.
Qed.

Lemma rec_of_m (N D : Z) : shr_m (rec_of N D) = N / D.
Proof. unfold rec_of, shr_record_of_loc. destruct (loc_of _ _) as [|[]]; reflexivity. Qed.

Lemma rec_of_loc (N D : Z) : loc_of_shr_record (rec_of N D) = loc_of (N mod D) D.
Proof. unfold rec_of, shr_record_of_loc. destruct (loc_of _ _) as [|[]]; reflexivity. Qed.

(** Digits *)
Lemma digits2_pos_spec (p : positive) :
  2 ^ (Z.pos (digits2_pos p) - 1) <= Z.pos p < 2 ^ Z.pos (digits2_pos p).
Proof.
  induction p as [p IH|p IH|]; cbn [digits2_pos].
  - replace (Z.pos (Pos.succ (digits2_pos p)) - 1)
      with (1 + (Z.pos (digits2_pos p) - 1)) by lia.
    replace (Z.pos (Pos.succ (digits2_pos p))) with (1 + Z.pos (digits2_pos p)) by lia.
    rewrite !Z.pow_add_r by lia. change (2 ^ 1) with 2. lia.
  - replace (Z.pos (Pos.succ (digits2_pos p)) - 1)
      with (1 + (Z.pos (digits2_pos p) - 1)) by lia.
    replace (Z.pos (Pos.succ (digits2_pos p))) with (1 + Z.pos (digits2_pos p)) by lia.
    rewrite !Z.pow_add_r by lia. change (2 ^ 1) with 2. lia.
  - cbn. lia.
Qed.

Lemma Zdigits2_spec (m : Z) :
  0 < m -> 0 < Zdigits2 m /\ 2 ^ (Zdigits2 m - 1) <= m < 2 ^ Zdigits2 m.
Proof.
  destruct m as [|p|p]; try lia. intros _. cbn [Zdigits2].
  split; [lia | apply digits2_pos_spec].
Qed.

Lemma Zdigits2_unique (m d : Z) :
  2 ^ (d - 1) <= m < 2 ^ d -> 0 < d -> Zdigits2 m = d.
Proof.
  intros H Hd.
  assert (Hm : 0 < m) by (pose proof (pow2_pos (d - 1) ltac:(lia)); lia).
  destruct (Zdigits2_spec m Hm) as [Hd' H'].
  destruct (Z.lt_trichotomy (Zdigits2 m) d) as [Hlt|[Heq|Hgt]]; [|exact Heq|].
  - assert (2 ^ Zdigits2 m <= 2 ^ (d - 1)) by (apply Z.pow_le_mono_r; lia). lia.
  - assert (2 ^ d <= 2 ^ (Zdigits2 m - 1)) by (apply Z.pow_le_mono_r; lia). lia.
Qed.

(** Rounding *)

Definition rne (N D : Z) : Z := round_nearest_even (N / D) (loc_of (N mod D) D).

Definition normal (m e : Z) : Z * Z :=
  if m =? 2 ^ 53 then (2 ^ 52, e + 1) else (m, e).

Lemma fexp_normal (x : Z) : -1021 <= x -> fexp prec emax x = x - 53.
Proof. unfold fexp, emin, prec, emax. lia. Qed.

Lemma rne_bounds (N D : Z) :
  0 < D -> 0 <= N -> N / D <= rne N D <= N / D + 1.
Proof.
  intros HD HN. unfold rne, round_nearest_even, loc_of.
  destruct (N mod D =? 0); [lia|].
  destruct (2 * (N mod D) ?= D); [destruct (Z.even (N / D))| |]; lia.
Qed.

Lemma div_bounds (N D lo hi : Z) :
  0 < D -> (lo <= N / D < hi <-> lo * D <= N < hi * D).
Proof.
  intros HD.
  pose proof (Z.div_mod N D ltac:(lia)) as E.
  pose proof (Z.mod_pos_bound N D HD) as B.
  split; intros [H1 H2]; split; nia.
Qed.

Lemma binary_round_aux_spec (N D ex : Z) :
  0 < D -> 2 ^ 52 * D <= N ->
  -1021 <= Zdigits2 (N / D) + ex <= 1023 ->
  let n := Zdigits2 (N / D) - 53 in
  let D' := D * 2 ^ n in
  0 <= n
  /\ 2 ^ 52 * D' <= N < 2 ^ 53 * D'
  /\ binary_round_aux prec emax false (N / D) ex (loc_of (N mod D) D)
     = S754_finite false (Z.to_pos (fst (normal (rne N D') (ex + n))))
         (snd (normal (rne N D') (ex + n))).
Proof.
  intros HD HN Hrange n D'.
  assert (HN0 : 0 <= N) by nia.
  assert (Hq : 2 ^ 52 <= N / D) by (apply Z.div_le_lower_bound; lia).
  destruct (Zdigits2_spec (N / D) ltac:(lia)) as [Hd0 Hd].
  assert (Hn : 0 <= n).
  { unfold n. destruct (Z.le_gt_cases 53 (Zdigits2 (N / D))) as [|Hlt]; [lia|].
    assert (2 ^ Zdigits2 (N / D) <= 2 ^ 52) by (apply Z.pow_le_mono_r; lia). lia. }
  pose proof (pow2_pos n Hn) as Hpn.
  assert (HD' : 0 < D') by (unfold D'; nia).
  assert (Hpow1 : 2 ^ (Zdigits2 (N / D) - 1) = 2 ^ 52 * 2 ^ n).
  { unfold n. rewrite <- Z.pow_add_r by lia. f_equal. lia. }
  assert (Hpow2 : 2 ^ Zdigits2 (N / D) = 2 ^ 53 * 2 ^ n).
  { unfold n. rewrite <- Z.pow_add_r by lia. f_equal. lia. }
  assert (Hcanon : 2 ^ 52 * D' <= N < 2 ^ 53 * D').
  { apply (div_bounds N D' (2 ^ 52) (2 ^ 53) HD').
    unfold D'. rewrite <- Z.div_div by lia.
    apply (div_bounds (N / D) (2 ^ n) (2 ^ 52) (2 ^ 53) Hpn). lia. }
  split; [exact Hn|]. split; [exact Hcanon|].
  unfold binary_round_aux, shr_fexp.
  change (shr_record_of_loc (N / D) (loc_of (N mod D) D)) with (rec_of N D).
  rewrite fexp_normal by lia.
  replace (Zdigits2 (N / D) + ex - 53 - ex) with n by (unfold n; lia).
  rewrite shr_rec_of by assumption. fold D'.
  rewrite rec_of_m, rec_of_loc. fold (rne N D').
  pose proof (rne_bounds N D' HD' HN0) as Hr.
  assert (Hq' : 2 ^ 52 <= N / D' < 2 ^ 53)
    by (apply (div_bounds N D' (2 ^ 52) (2 ^ 53) HD'); exact Hcanon).
  set (m := rne N D') in *.
  change (shr_record_of_loc m loc_Exact) with (Build_shr_record m false false).
  unfold normal.
  destruct (Z.eqb_spec m (2 ^ 53)) as [E|E].
  - rewrite E. cbn [fst snd].
    replace (Zdigits2 (2 ^ 53)) with 54 by reflexivity.
    rewrite fexp_normal by lia.
    replace (54 + (ex + n) - 53 - (ex + n)) with 1 by lia.
    cbn [shr iter_pos shr_1 shr_m].
    change (2 ^ 53) with 9007199254740992.
    cbn [shr_1 shr_m].
    unfold n in *. unfold emax, prec.
    destruct (Z.leb_spec (ex + (Zdigits2 (N / D) - 53) + 1) (1024 - 53)); [|lia].
    reflexivity.
  - assert (Hm : 2 ^ 52 <= m < 2 ^ 53) by lia.
    rewrite (Zdigits2_unique m 53) by (change (53 - 1) with 52; lia).
    rewrite fexp_normal by lia.
    replace (53 + (ex + n) - 53 - (ex + n)) with 0 by lia.
    cbn [shr shr_m fst snd].
    destruct m as [|p|p]; try (change (2 ^ 52) with 4503599627370496 in Hm; lia).
    unfold n in *. unfold emax, prec.
    destruct (Z.leb_spec (ex + (Zdigits2 (N / D) - 53)) (1024 - 53)); [|lia].
    reflexivity.
Qed.

(** Order of scaled rationals: (N1/D1) 2^e1 <= (N2/D2) 2^e2. *)
Definition rle (N1 D1 e1 N2 D2 e2 : Z) : Prop :=
  N1 * D2 * 2 ^ (e1 - Z.min e1 e2) <= N2 * D1 * 2 ^ (e2 - Z.min e1 e2).

Lemma rle_at (c N1 D1 e1 N2 D2 e2 : Z) :
  c <= e1 -> c <= e2 ->
  (rle N1 D1 e1 N2 D2 e2 <-> N1 * D2 * 2 ^ (e1 - c) <= N2 * D1 * 2 ^ (e2 - c)).
Proof.
  intros H1 H2. unfold rle.
  set (m := Z.min e1 e2).
  assert (Hm : c <= m) by (unfold m; lia).
  assert (Hm1 : m <= e1) by (unfold m; lia).
  assert (Hm2 : m <= e2) by (unfold m; lia).
  replace (e1 - c) with ((e1 - m) + (m - c)) by lia.
  replace (e2 - c) with ((e2 - m) + (m - c)) by lia.
  rewrite !Z.pow_add_r by lia.
  pose proof (pow2_pos (m - c) ltac:(lia)) as Hp.
  rewrite !Z.mul_assoc.
  split; intro H.
  - apply Z.mul_le_mono_nonneg_r; [lia | exact H].
  - apply Z.mul_le_mono_pos_r in H; [exact H | exact Hp].
Qed.

Lemma rne_mono (N1 D1 N2 D2 : Z) :
  0 < D1 -> 0 < D2 -> 0 <= N1 ->
  N1 * D2 <= N2 * D1 -> rne N1 D1 <= rne N2 D2.
Proof.
  intros HD1 HD2 HN1 H.
  pose proof (Z.div_mod N1 D1 ltac:(lia)) as E1.
  pose proof (Z.mod_pos_bound N1 D1 HD1) as B1.
  pose proof (Z.div_mod N2 D2 ltac:(lia)) as E2.
  pose proof (Z.mod_pos_bound N2 D2 HD2) as B2.
  set (q1 := N1 / D1) in *. set (r1 := N1 mod D1) in *.
  set (q2 := N2 / D2) in *. set (r2 := N2 mod D2) in *.
  assert (Hq : q1 <= q2).
  { destruct (Z.le_gt_cases q1 q2) as [|Hgt]; [assumption|exfalso].
    assert (D1 * D2 * (q2 + 1) <= D1 * D2 * q1)
      by (apply Z.mul_le_mono_nonneg_l; nia).
    assert (D1 * D2 * q1 <= N1 * D2) by nia.
    assert (N2 * D1 < D1 * D2 * (q2 + 1)) by nia.
    lia. }
  assert (HN2 : 0 <= N2) by nia.
  pose proof (rne_bounds N1 D1 HD1 HN1) as R1.
  pose proof (rne_bounds N2 D2 HD2 HN2) as R2.
  fold q1 in R1. fold q2 in R2.
  destruct (Z.eq_dec q1 q2) as [Eq|Ne]; [|lia].
  assert (Hr : r1 * D2 <= r2 * D1) by nia.
  unfold rne, round_nearest_even, loc_of. fold q1 q2 r1 r2. rewrite <- Eq.
  destruct (Z.eqb_spec r1 0), (Z.eqb_spec r2 0);
    destruct (Z.compare_spec (2 * r1) D1), (Z.compare_spec (2 * r2) D2);
    destruct (Z.even q1); try lia; try nia.
Qed.

Lemma round_mono (N1 D1 e1 N2 D2 e2 : Z) :
  0 < D1 -> 0 < D2 ->
  2 ^ 52 * D1 <= N1 < 2 ^ 53 * D1 ->
  2 ^ 52 * D2 <= N2 < 2 ^ 53 * D2 ->
  rle N1 D1 e1 N2 D2 e2 ->
  rle (rne N1 D1) 1 e1 (rne N2 D2) 1 e2.
Proof.
  intros HD1 HD2 C1 C2 H.
  assert (HN1 : 0 <= N1) by nia. assert (HN2 : 0 <= N2) by nia.
  pose proof (rne_bounds N1 D1 HD1 HN1) as R1.
  pose proof (rne_bounds N2 D2 HD2 HN2) as R2.
  pose proof (proj2 (div_bounds N1 D1 (2 ^ 52) (2 ^ 53) HD1) C1) as Q1.
  pose proof (proj2 (div_bounds N2 D2 (2 ^ 52) (2 ^ 53) HD2) C2) as Q2.
  change (2 ^ 52) with 4503599627370496 in *.
  change (2 ^ 53) with 9007199254740992 in *.
  unfold rle in *.
  destruct (Z.lt_trichotomy e1 e2) as [Hlt|[Heq|Hgt]].
  - rewrite Z.min_l in * by lia. rewrite Z.sub_diag in *. rewrite Z.pow_0_r in *.
    assert (2 ^ 1 <= 2 ^ (e2 - e1)) by (apply Z.pow_le_mono_r; lia).
    change (2 ^ 1) with 2 in *. nia.
  - subst e2. rewrite Z.min_id in *. rewrite Z.sub_diag in *. rewrite Z.pow_0_r in *.
    pose proof (rne_mono N1 D1 N2 D2 HD1 HD2 HN1 ltac:(lia)). lia.
  - rewrite Z.min_r in * by lia. rewrite Z.sub_diag in *. rewrite Z.pow_0_r in *.
    assert (HP : 2 ^ 1 <= 2 ^ (e1 - e2)) by (apply Z.pow_le_mono_r; lia).
    change (2 ^ 1) with 2 in HP. exfalso.
    set (P := 2 ^ (e1 - e2)) in *.
    assert (N1 * D2 * 2 <= N1 * D2 * P) by (apply Z.mul_le_mono_nonneg_l; nia).
    assert (9007199254740992 * (D1 * D2) <= N1 * D2 * 2) by nia.
    assert (N2 * D1 < 9007199254740992 * (D1 * D2)) by nia.
    lia.
Qed.

(** Rescaling numerator and denominator by powers of two, with the
    exponent adjusted, does not change the order. *)
Lemma rle_rescale (N1 D1 e1 N2 D2 e2 k1 n1 k2 n2 : Z) :
  0 <= k1 -> 0 <= n1 -> 0 <= k2 -> 0 <= n2 ->
  (rle (N1 * 2 ^ k1) (D1 * 2 ^ n1) (e1 - k1 + n1)
       (N2 * 2 ^ k2) (D2 * 2 ^ n2) (e2 - k2 + n2)
   <-> rle N1 D1 e1 N2 D2 e2).
Proof.
  intros Hk1 Hn1 Hk2 Hn2.
  set (c := Z.min e1 e2 - k1 - k2).
  rewrite (rle_at c) by (unfold c; lia).
  rewrite (rle_at c N1 D1 e1 N2 D2 e2) by (unfold c; lia).
  set (a := 2 ^ (e1 - c - k1)). set (b := 2 ^ (e2 - c - k2)).
  assert (A1 : 2 ^ (e1 - k1 + n1 - c) = a * 2 ^ n1)
    by (unfold a; rewrite <- Z.pow_add_r by (unfold c; lia); f_equal; lia).
  assert (A2 : 2 ^ (e1 - c) = a * 2 ^ k1)
    by (unfold a; rewrite <- Z.pow_add_r by (unfold c; lia); f_equal; lia).
  assert (B1 : 2 ^ (e2 - k2 + n2 - c) = b * 2 ^ n2)
    by (unfold b; rewrite <- Z.pow_add_r by (unfold c; lia); f_equal; lia).
  assert (B2 : 2 ^ (e2 - c) = b * 2 ^ k2)
    by (unfold b; rewrite <- Z.pow_add_r by (unfold c; lia); f_equal; lia).
  rewrite A1, A2, B1, B2.
  pose proof (pow2_pos k1 Hk1). pose proof (pow2_pos k2 Hk2).
  pose proof (pow2_pos n1 Hn1). pose proof (pow2_pos n2 Hn2).
  replace (N1 * 2 ^ k1 * (D2 * 2 ^ n2) * (a * 2 ^ n1))
    with (N1 * D2 * (a * 2 ^ k1) * (2 ^ n1 * 2 ^ n2)) by ring.
  replace (N2 * 2 ^ k2 * (D1 * 2 ^ n1) * (b * 2 ^ n2))
    with (N2 * D1 * (b * 2 ^ k2) * (2 ^ n1 * 2 ^ n2)) by ring.
  assert (Hp : 0 < 2 ^ n1 * 2 ^ n2) by nia.
  split; intro Hle.
  - apply Z.mul_le_mono_pos_r in Hle; [exact Hle | exact Hp].
  - apply Z.mul_le_mono_nonneg_r; [lia | exact Hle].
Qed.

(** Positive finite floats *)

Definition fin (m e : Z) : spec_float := S754_finite false (Z.to_pos m) e.

(** [(m, e)] is the binary64 nearest to the real (N0/D0) 2^e0. *)
Definition rounds (N0 D0 e0 m e : Z) : Prop :=
  exists k n,
    0 <= k /\ 0 <= n
    /\ 2 ^ 52 * (D0 * 2 ^ n) <= N0 * 2 ^ k < 2 ^ 53 * (D0 * 2 ^ n)
    /\ (m, e) = normal (rne (N0 * 2 ^ k) (D0 * 2 ^ n)) (e0 - k + n).

Lemma canonical_rne (N D : Z) :
  0 < D -> 2 ^ 52 * D <= N < 2 ^ 53 * D -> 2 ^ 52 <= rne N D <= 2 ^ 53.
Proof.
  intros HD C. assert (HN : 0 <= N) by nia.
  pose proof (rne_bounds N D HD HN).
  pose proof (proj2 (div_bounds N D (2 ^ 52) (2 ^ 53) HD) C). lia.
Qed.

Lemma rounds_mantissa (N0 D0 e0 m e : Z) :
  0 < D0 -> rounds N0 D0 e0 m e -> 2 ^ 52 <= m < 2 ^ 53.
Proof.
  intros HD (k & n & Hk & Hn & C & E).
  pose proof (pow2_pos n Hn).
  assert (HD' : 0 < D0 * 2 ^ n) by nia.
  pose proof (canonical_rne (N0 * 2 ^ k) (D0 * 2 ^ n) HD' C) as R.
  unfold normal in E. destruct (Z.eqb_spec (rne (N0 * 2 ^ k) (D0 * 2 ^ n)) (2 ^ 53));
    injection E as -> ->; [|lia].
  change (2 ^ 52) with 4503599627370496. change (2 ^ 53) with 9007199254740992. lia.
Qed.

Lemma normal_rle_l (m e N D x : Z) :
  rle (fst (normal m e)) 1 (snd (normal m e)) N D x <-> rle m 1 e N D x.
Proof.
  unfold normal. destruct (Z.eqb_spec m (2 ^ 53)) as [->|]; cbn [fst snd]; [|tauto].
  pose proof (rle_rescale (2 ^ 52) 1 (e + 1) N D x 1 0 0 0
                ltac:(lia) ltac:(lia) ltac:(lia) ltac:(lia)) as R.
  rewrite !Z.pow_0_r, !Z.mul_1_r, !Z.add_0_r, !Z.sub_0_r in R.
  replace (e + 1 - 1) with e in R by lia.
  change (2 ^ 52 * 2 ^ 1) with (2 ^ 53) in R. symmetry. exact R.
Qed.

Lemma normal_rle_r (m e N D x : Z) :
  rle N D x (fst (normal m e)) 1 (snd (normal m e)) <-> rle N D x m 1 e.
Proof.
  unfold normal. destruct (Z.eqb_spec m (2 ^ 53)) as [->|]; cbn [fst snd]; [|tauto].
  pose proof (rle_rescale N D x (2 ^ 52) 1 (e + 1) 0 0 1 0
                ltac:(lia) ltac:(lia) ltac:(lia) ltac:(lia)) as R.
  rewrite !Z.pow_0_r, !Z.mul_1_r, !Z.add_0_r, !Z.sub_0_r in R.
  replace (e + 1 - 1) with e in R by lia.
  change (2 ^ 52 * 2 ^ 1) with (2 ^ 53) in R. symmetry. exact R.
Qed.

(** Rounding to nearest is monotone. *)
Lemma rounds_mono (N1 D1 e1 m1 x1 N2 D2 e2 m2 x2 : Z) :
  0 < D1 -> 0 < D2 ->
  rounds N1 D1 e1 m1 x1 -> rounds N2 D2 e2 m2 x2 ->
  rle N1 D1 e1 N2 D2 e2 ->
  rle m1 1 x1 m2 1 x2.
Proof.
  intros HD1 HD2 (k1 & n1 & Hk1 & Hn1 & C1 & E1) (k2 & n2 & Hk2 & Hn2 & C2 & E2) H.
  pose proof (pow2_pos n1 Hn1). pose proof (pow2_pos n2 Hn2).
  apply (rle_rescale N1 D1 e1 N2 D2 e2 k1 n1 k2 n2 Hk1 Hn1 Hk2 Hn2) in H.
  apply round_mono in H; try assumption; try nia.
  replace m1 with (fst (normal (rne (N1 * 2 ^ k1) (D1 * 2 ^ n1)) (e1 - k1 + n1)))
    by (rewrite <- E1; reflexivity).
  replace x1 with (snd (normal (rne (N1 * 2 ^ k1) (D1 * 2 ^ n1)) (e1 - k1 + n1)))
    by (rewrite <- E1; reflexivity).
  replace m2 with (fst (normal (rne (N2 * 2 ^ k2) (D2 * 2 ^ n2)) (e2 - k2 + n2)))
    by (rewrite <- E2; reflexivity).
  replace x2 with (snd (normal (rne (N2 * 2 ^ k2) (D2 * 2 ^ n2)) (e2 - k2 + n2)))
    by (rewrite <- E2; reflexivity).
  apply normal_rle_l, normal_rle_r. exact H.
Qed.

Lemma pos_iter_xO (p d : positive) :
  Z.pos (Pos.iter xO p d) = Z.pos p * 2 ^ Z.pos d.
Proof.
  induction d as [|d IH] using Pos.peano_ind.
  - cbn. lia.
  - rewrite Pos.iter_succ, Pos2Z.inj_xO, IH.
    replace (Z.pos (Pos.succ d)) with (1 + Z.pos d) by lia.
    rewrite Z.pow_add_r by lia. change (2 ^ 1) with 2. ring.
Qed.

Lemma Zdigits2_lower (m d : Z) : 0 < d -> 2 ^ (d - 1) <= m -> d <= Zdigits2 m.
Proof.
  intros Hd H.
  assert (Hm : 0 < m) by (pose proof (pow2_pos (d - 1) ltac:(lia)); lia).
  destruct (Zdigits2_spec m Hm) as [Hd' H'].
  destruct (Z.le_gt_cases d (Zdigits2 m)) as [|Hgt]; [assumption|].
  assert (2 ^ Zdigits2 m <= 2 ^ (d - 1)) by (apply Z.pow_le_mono_r; lia). lia.
Qed.

Lemma Zdigits2_upper (m d : Z) : 0 < m -> 0 <= d -> m < 2 ^ d -> Zdigits2 m <= d.
Proof.
  intros Hm Hd H.
  destruct (Zdigits2_spec m Hm) as [Hd' H'].
  destruct (Z.le_gt_cases (Zdigits2 m) d) as [|Hgt]; [assumption|].
  assert (2 ^ d <= 2 ^ (Zdigits2 m - 1)) by (apply Z.pow_le_mono_r; lia). lia.
Qed.

(** The three operations of [progress] *)

Lemma binary_round_aux_exact (N ex : Z) :
  2 ^ 52 <= N ->
  -1021 <= Zdigits2 N + ex <= 1023 ->
  let n := Zdigits2 N - 53 in
  0 <= n
  /\ 2 ^ 52 * (1 * 2 ^ n) <= N < 2 ^ 53 * (1 * 2 ^ n)
  /\ binary_round_aux prec emax false N ex loc_Exact
     = fin (fst (normal (rne N (1 * 2 ^ n)) (ex + n)))
         (snd (normal (rne N (1 * 2 ^ n)) (ex + n))).
Proof.
  intros HN Hr.
  pose proof (binary_round_aux_spec N 1 ex ltac:(lia) ltac:(lia)) as H.
  rewrite Z.div_1_r, Z.mod_1_r in H. exact (H Hr).
Qed.

Ltac same_rounding :=
  rewrite <- surjective_pairing;
  repeat (f_equal; try lia; try ring).

Lemma float64_of_int_rounds (s : Z) :
  0 < s < 2 ^ 63 ->
  exists m e, float64_of_int s = fin m e /\ rounds s 1 0 m e /\ -52 <= e <= 11.
Proof.
  intros Hs. destruct s as [|p|p]; try lia.
  destruct (Zdigits2_spec (Z.pos p) ltac:(lia)) as [Hd0 Hd].
  assert (Hd63 : Zdigits2 (Z.pos p) <= 63) by (apply Zdigits2_upper; lia).
  cbn [Zdigits2] in *.
  unfold float64_of_int, binary_normalize, binary_round, shl_align.
  rewrite Z.add_0_r, fexp_normal, Z.sub_0_r by lia.
  set (d := Z.pos (digits2_pos p)) in *.
  destruct (d - 53) as [|x|x] eqn:Ex.
  - destruct (binary_round_aux_exact (Z.pos p) 0) as (Hn & C & E).
    { replace (2 ^ 52) with (2 ^ (d - 1)) by (f_equal; lia). lia. }
    { cbn [Zdigits2]. fold d. lia. }
    cbn [Zdigits2] in *. fold d in Hn, C, E. rewrite Ex in *.
    eexists _, _. split; [exact E|]. split.
    + exists 0, 0. rewrite Z.pow_0_r, !Z.mul_1_r in *. repeat split; try lia.
      same_rounding.
    + unfold normal. destruct (_ =? _); cbn [snd]; lia.
  - destruct (binary_round_aux_exact (Z.pos p) 0) as (Hn & C & E).
    { assert (2 ^ 52 <= 2 ^ (d - 1)) by (apply Z.pow_le_mono_r; lia). lia. }
    { cbn [Zdigits2]. fold d. lia. }
    cbn [Zdigits2] in *. fold d in Hn, C, E. rewrite Ex in *.
    eexists _, _. split; [exact E|]. split.
    + exists 0, (Z.pos x). rewrite Z.pow_0_r, !Z.mul_1_r in *.
      rewrite Z.mul_1_l in C.
      repeat split; try lia. same_rounding.
    + unfold normal. destruct (_ =? _); cbn [snd]; lia.
  - assert (Hm : Z.pos (Pos.iter xO p x) = Z.pos p * 2 ^ (53 - d))
      by (rewrite pos_iter_xO; f_equal; f_equal; lia).
    assert (Hp1 : 2 ^ (d - 1) * 2 ^ (53 - d) = 2 ^ 52)
      by (rewrite <- Z.pow_add_r by lia; f_equal; lia).
    assert (Hp2 : 2 ^ d * 2 ^ (53 - d) = 2 ^ 53)
      by (rewrite <- Z.pow_add_r by lia; f_equal; lia).
    pose proof (pow2_pos (53 - d) ltac:(lia)) as Hpp.
    assert (Hb : 2 ^ 52 <= Z.pos (Pos.iter xO p x) < 2 ^ 53) by (rewrite Hm; nia).
    assert (Hdig : Zdigits2 (Z.pos (Pos.iter xO p x)) = 53)
      by (apply Zdigits2_unique; [exact Hb | lia]).
    destruct (binary_round_aux_exact (Z.pos (Pos.iter xO p x)) (Z.neg x)) as (Hn & C & E).
    { lia. }
    { rewrite Hdig. lia. }
    rewrite Hdig in *. change (53 - 53) with 0 in *.
    rewrite Z.pow_0_r, !Z.mul_1_r, Z.add_0_r in *.
    eexists _, _. split; [exact E|]. split.
    + exists (53 - d), 0. rewrite Z.pow_0_r, !Z.mul_1_r, Z.add_0_r, <- Hm.
      replace (0 - (53 - d)) with (Z.neg x) by lia.
      repeat split; try lia. same_rounding.
    + unfold normal. destruct (_ =? _); cbn [snd]; lia.
Qed.

Lemma f64_div_rounds (ma ea mb eb : Z) :
  2 ^ 52 <= ma < 2 ^ 53 -> 2 ^ 52 <= mb < 2 ^ 53 ->
  -400 <= ea <= 400 -> -400 <= eb <= 400 ->
  exists m e,
    f64_div (fin ma ea) (fin mb eb) = fin m e
    /\ rounds ma mb (ea - eb) m e
    /\ ea - eb - 53 <= e <= ea - eb - 51.
Proof.
  intros Ha Hb Hea Heb.
  change (2 ^ 52) with 4503599627370496 in Ha, Hb.
  change (2 ^ 53) with 9007199254740992 in Ha, Hb.
  unfold f64_div, fin, SFdiv, SFdiv_core_binary. cbn [xorb].
  rewrite !Z2Pos.id by lia.
  rewrite (Zdigits2_unique ma 53), (Zdigits2_unique mb 53)
    by (change (2 ^ (53 - 1)) with 4503599627370496;
        change (2 ^ 53) with 9007199254740992; lia).
  rewrite fexp_normal by lia.
  replace (Z.min (53 + ea - (53 + eb) - 53) (ea - eb)) with (ea - eb - 53) by lia.
  replace (ea - eb - (ea - eb - 53)) with 53 by lia.
  rewrite Z.shiftl_mul_pow2 by lia.
  set (N := ma * 2 ^ 53).
  destruct (Z.div_eucl N mb) as [q r] eqn:E.
  assert (Eq : q = N / mb) by (unfold Z.div; rewrite E; reflexivity).
  assert (Er : r = N mod mb) by (unfold Z.modulo; rewrite E; reflexivity).
  rewrite new_location_loc_of
    by (try lia; rewrite Er; apply Z.mod_pos_bound; lia).
  subst q r.
  assert (HN1 : 2 ^ 52 * mb <= N)
    by (unfold N; change (2 ^ 52) with 4503599627370496;
        change (2 ^ 53) with 9007199254740992; lia).
  assert (HN2 : N < 2 ^ 54 * mb)
    by (unfold N; change (2 ^ 54) with 18014398509481984;
        change (2 ^ 53) with 9007199254740992; lia).
  assert (Hq : 2 ^ 52 <= N / mb < 2 ^ 54)
    by (apply div_bounds; lia).
  assert (Hdl : 53 <= Zdigits2 (N / mb))
    by (apply Zdigits2_lower; [lia | change (53 - 1) with 52; lia]).
  assert (Hdu : Zdigits2 (N / mb) <= 54)
    by (apply Zdigits2_upper; change (2 ^ 52) with 4503599627370496 in Hq; lia).
  destruct (binary_round_aux_spec N mb (ea - eb - 53)) as (Hn & C & R);
    [lia | exact HN1 | lia |].
  eexists _, _. split; [exact R|]. split.
  - exists 53, (Zdigits2 (N / mb) - 53). fold N.
    repeat split; try lia. same_rounding.
  - unfold normal. destruct (_ =? _); cbn [snd]; lia.
Qed.

Lemma f64_mul_rounds (ma ea mc ec : Z) :
  2 ^ 52 <= ma < 2 ^ 53 -> 2 ^ 52 <= mc < 2 ^ 53 ->
  -400 <= ea <= 400 -> -400 <= ec <= 400 ->
  exists m e,
    f64_mul (fin ma ea) (fin mc ec) = fin m e
    /\ rounds (ma * mc) 1 (ea + ec) m e
    /\ ea + ec + 52 <= e <= ea + ec + 54.
Proof.
  intros Ha Hc Hea Hec.
  change (2 ^ 52) with 4503599627370496 in Ha, Hc.
  change (2 ^ 53) with 9007199254740992 in Ha, Hc.
  unfold f64_mul, fin, SFmul. cbn [xorb].
  rewrite Pos2Z.inj_mul, !Z2Pos.id by lia.
  set (N := ma * mc).
  assert (HN1 : 2 ^ 104 <= N)
    by (unfold N; change (2 ^ 104) with (4503599627370496 * 4503599627370496); nia).
  assert (HN2 : N < 2 ^ 106)
    by (unfold N; change (2 ^ 106) with (9007199254740992 * 9007199254740992); nia).
  assert (Hdl : 105 <= Zdigits2 N)
    by (apply Zdigits2_lower; [lia | change (105 - 1) with 104; lia]).
  assert (Hdu : Zdigits2 N <= 106)
    by (apply Zdigits2_upper; try lia;
        assert (0 < 2 ^ 104) by (apply pow2_pos; lia); lia).
  destruct (binary_round_aux_exact N (ea + ec)) as (Hn & C & R).
  { assert (2 ^ 52 <= 2 ^ 104) by (apply Z.pow_le_mono_r; lia). lia. }
  { lia. }
  eexists _, _. split; [exact R|]. split.
  - exists 0, (Zdigits2 N - 53). rewrite Z.pow_0_r, !Z.mul_1_r.
    repeat split; try lia. same_rounding.
  - unfold normal. destruct (_ =? _); cbn [snd]; lia.
Qed.

(** Monotonicity of [progress] *)

Lemma rle_int (s1 s2 : Z) : s1 <= s2 -> rle s1 1 0 s2 1 0.
Proof. intro H. unfold rle. cbn. lia. Qed.

Lemma rle_div_r (m1 e1 m2 e2 D x : Z) :
  0 < D -> rle m1 1 e1 m2 1 e2 -> rle m1 D (e1 - x) m2 D (e2 - x).
Proof.
  unfold rle. intros HD H.
  replace (Z.min (e1 - x) (e2 - x)) with (Z.min e1 e2 - x) by lia.
  replace (e1 - x - (Z.min e1 e2 - x)) with (e1 - Z.min e1 e2) by lia.
  replace (e2 - x - (Z.min e1 e2 - x)) with (e2 - Z.min e1 e2) by lia.
  nia.
Qed.

Lemma rle_mul_r (m1 e1 m2 e2 c y : Z) :
  0 < c -> rle m1 1 e1 m2 1 e2 -> rle (m1 * c) 1 (e1 + y) (m2 * c) 1 (e2 + y).
Proof.
  unfold rle. intros Hc H.
  replace (Z.min (e1 + y) (e2 + y)) with (Z.min e1 e2 + y) by lia.
  replace (e1 + y - (Z.min e1 e2 + y)) with (e1 - Z.min e1 e2) by lia.
  replace (e2 + y - (Z.min e1 e2 + y)) with (e2 - Z.min e1 e2) by lia.
  nia.
Qed.

Lemma fin_inj (m1 e1 m2 e2 : Z) :
  0 < m1 -> 0 < m2 -> fin m1 e1 = fin m2 e2 -> m1 = m2 /\ e1 = e2.
Proof.
  unfold fin. intros H1 H2 [= Hm He]. split; [|exact He].
  apply Z2Pos.inj in Hm; lia.
Qed.

Definition hundred_m : Z := 7036874417766400.

Lemma float64_of_int_100 : float64_of_int 100 = fin hundred_m (-46).
Proof. reflexivity. Qed.

Lemma progress_mono_pos (s1 s2 t : Z) :
  0 < s1 -> s1 <= s2 -> s2 < 2 ^ 63 -> 0 < t < 2 ^ 63 ->
  exists m1 e1 m2 e2,
    progress s1 t = fin m1 e1 /\ progress s2 t = fin m2 e2
    /\ 2 ^ 52 <= m1 < 2 ^ 53 /\ 2 ^ 52 <= m2 < 2 ^ 53
    /\ rle m1 1 e1 m2 1 e2.
Proof.
  intros Hs1 Hle Hs2 Ht.
  destruct (float64_of_int_rounds s1 ltac:(lia)) as (ms1 & es1 & Fs1 & Rs1 & Bs1).
  destruct (float64_of_int_rounds s2 ltac:(lia)) as (ms2 & es2 & Fs2 & Rs2 & Bs2).
  destruct (float64_of_int_rounds t Ht) as (mt & et & Ft & Rt & Bt).
  pose proof (rounds_mantissa _ _ _ _ _ Z.lt_0_1 Rs1) as Ms1.
  pose proof (rounds_mantissa _ _ _ _ _ Z.lt_0_1 Rs2) as Ms2.
  pose proof (rounds_mantissa _ _ _ _ _ Z.lt_0_1 Rt) as Mt.
  assert (Hmt : 0 < mt) by (change (2 ^ 52) with 4503599627370496 in Mt; lia).
  destruct (f64_div_rounds ms1 es1 mt et Ms1 Mt ltac:(lia) ltac:(lia))
    as (mq1 & eq1 & Fq1 & Rq1 & Bq1).
  destruct (f64_div_rounds ms2 es2 mt et Ms2 Mt ltac:(lia) ltac:(lia))
    as (mq2 & eq2 & Fq2 & Rq2 & Bq2).
  pose proof (rounds_mantissa _ _ _ _ _ Hmt Rq1) as Mq1.
  pose proof (rounds_mantissa _ _ _ _ _ Hmt Rq2) as Mq2.
  assert (Mh : 2 ^ 52 <= hundred_m < 2 ^ 53) by (vm_compute; split; [discriminate | reflexivity]).
  destruct (f64_mul_rounds mq1 eq1 hundred_m (-46) Mq1 Mh ltac:(lia) ltac:(lia))
    as (mp1 & ep1 & Fp1 & Rp1 & Bp1).
  destruct (f64_mul_rounds mq2 eq2 hundred_m (-46) Mq2 Mh ltac:(lia) ltac:(lia))
    as (mp2 & ep2 & Fp2 & Rp2 & Bp2).
  exists mp1, ep1, mp2, ep2.
  unfold progress. rewrite Fs1, Fs2, Ft, float64_of_int_100, Fq1, Fq2, Fp1, Fp2.
  split; [reflexivity|]. split; [reflexivity|].
  split; [exact (rounds_mantissa _ _ _ _ _ Z.lt_0_1 Rp1)|].
  split; [exact (rounds_mantissa _ _ _ _ _ Z.lt_0_1 Rp2)|].
  pose proof (rounds_mono _ _ _ _ _ _ _ _ _ _ Z.lt_0_1 Z.lt_0_1 Rs1 Rs2
                (rle_int s1 s2 Hle)) as Hs.
  pose proof (rounds_mono _ _ _ _ _ _ _ _ _ _ Hmt Hmt Rq1 Rq2
                (rle_div_r _ _ _ _ mt et Hmt Hs)) as Hq.
  exact (rounds_mono _ _ _ _ _ _ _ _ _ _ Z.lt_0_1 Z.lt_0_1 Rp1 Rp2
           (rle_mul_r _ _ _ _ hundred_m (-46) eq_refl Hq)).
Qed.

(** The whole file has arrived: the quotient is exactly one. *)
Lemma progress_full (t : Z) :
  0 < t < 2 ^ 63 -> progress t t = float64_of_int 100.
Proof.
  intros Ht.
  destruct (float64_of_int_rounds t Ht) as (m & e & F & R & B).
  pose proof (rounds_mantissa _ _ _ _ _ Z.lt_0_1 R) as M.
  change (2 ^ 52) with 4503599627370496 in M.
  change (2 ^ 53) with 9007199254740992 in M.
  unfold progress. rewrite F.
  assert (Hone : f64_div (fin m e) (fin m e) = S754_finite false 4503599627370496 (-52)).
  { unfold f64_div, fin, SFdiv, SFdiv_core_binary. cbn [xorb].
    rewrite !Z2Pos.id by lia.
    rewrite (Zdigits2_unique m 53)
      by (change (2 ^ (53 - 1)) with 4503599627370496;
          change (2 ^ 53) with 9007199254740992; lia).
    rewrite fexp_normal by lia.
    replace (Z.min (53 + e - (53 + e) - 53) (e - e)) with (-53) by lia.
    replace (e - e - -53) with 53 by lia.
    rewrite Z.shiftl_mul_pow2 by lia.
    destruct (Z.div_eucl (m * 2 ^ 53) m) as [q r] eqn:E.
    assert (Eq : q = 2 ^ 53).
    { transitivity ((m * 2 ^ 53) / m); [unfold Z.div; rewrite E; reflexivity|].
      rewrite Z.mul_comm. apply Z.div_mul. lia. }
    assert (Er : r = 0).
    { transitivity ((m * 2 ^ 53) mod m); [unfold Z.modulo; rewrite E; reflexivity|].
      rewrite Z.mul_comm. apply Z.mod_mul. lia. }
    subst q r.
    rewrite new_location_loc_of by lia.
    reflexivity. }
  rewrite Hone. reflexivity.
Qed.

(** Conversion to [int] *)

Definition trunc (m e : Z) : Z := if 0 <=? e then m * 2 ^ e else m / 2 ^ (- e).

Lemma trunc_at (c m e : Z) :
  c <= e -> c <= 0 -> trunc m e = (m * 2 ^ (e - c)) / 2 ^ (- c).
Proof.
  intros H1 H2. unfold trunc.
  pose proof (pow2_pos (- c) ltac:(lia)) as Hc.
  destruct (Z.leb_spec 0 e).
  - replace (e - c) with (e + - c) by lia.
    rewrite Z.pow_add_r, Z.mul_assoc by lia.
    rewrite Z.div_mul by lia. reflexivity.
  - replace (- c) with (- e + (e - c)) by lia.
    rewrite Z.pow_add_r by lia.
    pose proof (pow2_pos (e - c) ltac:(lia)).
    pose proof (pow2_pos (- e) ltac:(lia)).
    rewrite Z.div_mul_cancel_r by lia. reflexivity.
Qed.

Lemma trunc_mono (m1 e1 m2 e2 : Z) :
  rle m1 1 e1 m2 1 e2 -> trunc m1 e1 <= trunc m2 e2.
Proof.
  intros H.
  set (c := Z.min (Z.min e1 e2) 0).
  rewrite (trunc_at c m1 e1), (trunc_at c m2 e2) by (unfold c; lia).
  apply (rle_at c) in H; [|unfold c; lia|unfold c; lia].
  rewrite !Z.mul_1_r in H.
  apply Z.div_le_mono; [apply pow2_pos; unfold c; lia | exact H].
Qed.

Lemma int_of_fin (m e : Z) :
  0 < m -> 0 <= trunc m e <= max_int -> int_of_float64 (fin m e) = trunc m e.
Proof.
  intros Hm Hr. unfold int_of_float64, fin, trunc in *.
  rewrite Z2Pos.id by lia.
  destruct (0 <=? e);
    match goal with
    | |- (if ?c then _ else _) = _ => replace c with true; [reflexivity|]
    end;
    symmetry; apply andb_true_intro; unfold min_int, max_int in *;
    split; apply Z.leb_le; lia.
Qed.

(** [int(prog)]: the percentage handed to the observer. *)
Definition percent (size total : Z) : Z := int_of_float64 (progress size total).

Lemma percent_zero (t : Z) : 0 < t < 2 ^ 63 -> percent 0 t = 0.
Proof.
  intros Ht. destruct (float64_of_int_rounds t Ht) as (m & e & F & _).
  unfold percent, progress. rewrite F. reflexivity.
Qed.

Lemma percent_full (t : Z) : 0 < t < 2 ^ 63 -> percent t t = 100.
Proof. intros Ht. unfold percent. rewrite progress_full by exact Ht. reflexivity. Qed.

Lemma percent_mono_pos (s1 s2 t : Z) :
  0 < s1 -> s1 <= s2 -> s2 <= t -> t < 2 ^ 63 ->
  0 <= percent s1 t <= percent s2 t /\ percent s2 t <= 100.
Proof.
  intros Hs1 H12 H2t Ht.
  destruct (progress_mono_pos s1 s2 t) as (m1 & e1 & m2 & e2 & P1 & P2 & M1 & M2 & L12);
    try lia.
  destruct (progress_mono_pos s2 t t) as (m2' & e2' & mt & et & P2' & Pt & M2' & Mt & L2t);
    try lia.
  rewrite P2 in P2'.
  change (2 ^ 52) with 4503599627370496 in *.
  change (2 ^ 53) with 9007199254740992 in *.
  apply fin_inj in P2'; [|lia|lia]. destruct P2' as [<- <-].
  rewrite progress_full, float64_of_int_100 in Pt by lia.
  apply fin_inj in Pt; [|reflexivity|lia]. destruct Pt as [<- <-].
  pose proof (trunc_mono _ _ _ _ L12) as T12.
  pose proof (trunc_mono _ _ _ _ L2t) as T2t.
  change (trunc hundred_m (-46)) with 100 in T2t.
  assert (T0 : 0 <= trunc m1 e1).
  { unfold trunc. destruct (Z.leb_spec 0 e1).
    - apply Z.mul_nonneg_nonneg; [lia | apply Z.pow_nonneg; lia].
    - apply Z.div_pos; [lia | apply pow2_pos; lia]. }
  unfold percent. rewrite P1, P2.
  rewrite !int_of_fin by (unfold max_int; lia). lia.
Qed.

Lemma percent_mono (s1 s2 t : Z) :
  0 <= s1 -> s1 <= s2 -> s2 <= t -> 0 < t < 2 ^ 63 ->
  0 <= percent s1 t <= percent s2 t /\ percent s2 t <= 100.
Proof.
  intros Hs1 H12 H2t Ht.
  destruct (Z.eq_dec s1 0) as [->|N1].
  - rewrite percent_zero by exact Ht.
    destruct (Z.eq_dec s2 0) as [->|N2].
    + rewrite percent_zero by exact Ht. lia.
    + pose proof (percent_mono_pos s2 s2 t ltac:(lia) ltac:(lia) H2t ltac:(lia)). lia.
  - apply percent_mono_pos; lia.
Qed.

(** Sizes that binary64 holds exactly *)

Lemma rne_exact (N : Z) : rne N 1 = N.
Proof. unfold rne. rewrite Z.div_1_r, Z.mod_1_r. reflexivity. Qed.

(** An integer below 2^53 is converted exactly. *)
Lemma rounds_small_exact (s m e : Z) :
  0 < s < 2 ^ 53 -> rounds s 1 0 m e ->
  exists j, 0 <= j /\ m = s * 2 ^ j /\ e = - j.
Proof.
  intros Hs (k & n & Hk & Hn & C & E).
  pose proof (pow2_pos k Hk) as Pk. pose proof (pow2_pos n Hn) as Pn.
  rewrite Z.mul_1_l in *.
  assert (Hkn : n <= k).
  { destruct (Z.le_gt_cases n k) as [|Hgt]; [assumption|].
    assert (2 ^ (k + 1) <= 2 ^ n) by (apply Z.pow_le_mono_r; lia).
    rewrite Z.pow_add_r in H by lia. change (2 ^ 1) with 2 in H.
    change (2 ^ 53) with (2 * 2 ^ 52) in Hs. nia. }
  assert (Hpow : 2 ^ k = 2 ^ (k - n) * 2 ^ n)
    by (rewrite <- Z.pow_add_r by lia; f_equal; lia).
  pose proof (pow2_pos (k - n) ltac:(lia)) as Pkn.
  assert (Hr : rne (s * 2 ^ k) (2 ^ n) = s * 2 ^ (k - n)).
  { unfold rne. rewrite Hpow, Z.mul_assoc, Z.div_mul, Z.mod_mul by lia. reflexivity. }
  rewrite Hr in E. unfold normal in E.
  destruct (Z.eqb_spec (s * 2 ^ (k - n)) (2 ^ 53)) as [E53|_].
  - exfalso. rewrite Hpow in C. nia.
  - injection E as -> ->. exists (k - n). repeat split; lia.
Qed.

Definition below_one_m : Z := 2 ^ 53 - 2.

Lemma below_one_rounds : rounds below_one_m 1 (-53) below_one_m (-53).
Proof.
  exists 0, 0.
  repeat split; try (vm_compute; congruence).
Qed.

(** The product of the largest quotient below one and 100, in binary64. *)
Definition ninety_nine_m : Z := 7036874417766398.

Lemma below_one_times_100 :
  f64_mul (fin below_one_m (-53)) (fin hundred_m (-46)) = fin ninety_nine_m (-46).
Proof. vm_compute. reflexivity. Qed.

Lemma SFeqb_fin (m1 e1 m2 e2 : Z) :
  0 < m1 -> 0 < m2 ->
  SFeqb (fin m1 e1) (fin m2 e2) = true -> m1 = m2 /\ e1 = e2.
Proof.
  intros H1 H2. unfold SFeqb, SFcompare, fin.
  destruct (Z.compare_spec e1 e2) as [E|E|E]; try discriminate.
  change (PosDef.Pos.compare_cont Eq (Z.to_pos m1) (Z.to_pos m2))
    with (Pos.compare (Z.to_pos m1) (Z.to_pos m2)).
  destruct (Pos.compare_spec (Z.to_pos m1) (Z.to_pos m2)) as [M|M|M]; try discriminate.
  intros _. split; [|exact E]. apply Z2Pos.inj in M; lia.
Qed.

Lemma progress_incomplete (s t : Z) :
  0 < s -> s < t -> t <= 2 ^ 52 ->
  exists m e,
    progress s t = fin m e /\ 2 ^ 52 <= m < 2 ^ 53
    /\ rle m 1 e ninety_nine_m 1 (-46).
Proof.
  intros Hs Hst Ht.
  change (2 ^ 52) with 4503599627370496 in Ht.
  destruct (float64_of_int_rounds s) as (ms & es & Fs & Rs & Bs);
    [change (2 ^ 63) with 9223372036854775808; lia|].
  destruct (float64_of_int_rounds t) as (mt & et & Ft & Rt & Bt);
    [change (2 ^ 63) with 9223372036854775808; lia|].
  pose proof (rounds_mantissa _ _ _ _ _ Z.lt_0_1 Rs) as Ms.
  pose proof (rounds_mantissa _ _ _ _ _ Z.lt_0_1 Rt) as Mt.
  destruct (rounds_small_exact s ms es) as (js & Hjs & Ems & Ees);
    [change (2 ^ 53) with 9007199254740992; lia | exact Rs |].
  destruct (rounds_small_exact t mt et) as (jt & Hjt & Emt & Eet);
    [change (2 ^ 53) with 9007199254740992; lia | exact Rt |].
  assert (Hmt : 0 < mt) by (change (2 ^ 52) with 4503599627370496 in Mt; lia).
  destruct (f64_div_rounds ms es mt et Ms Mt ltac:(lia) ltac:(lia))
    as (mq & eq & Fq & Rq & Bq).
  pose proof (rounds_mantissa _ _ _ _ _ Hmt Rq) as Mq.
  assert (Mh : 2 ^ 52 <= hundred_m < 2 ^ 53)
    by (vm_compute; split; [discriminate | reflexivity]).
  assert (Mb : 2 ^ 52 <= below_one_m < 2 ^ 53)
    by (vm_compute; split; [discriminate | reflexivity]).
  destruct (f64_mul_rounds mq eq hundred_m (-46) Mq Mh ltac:(lia) ltac:(lia))
    as (mp & ep & Fp & Rp & Bp).
  destruct (f64_mul_rounds below_one_m (-53) hundred_m (-46) Mb Mh ltac:(lia) ltac:(lia))
    as (mc & ec & Fc & Rc & Bc).
  pose proof (rounds_mantissa _ _ _ _ _ Z.lt_0_1 Rc) as Mc.
  rewrite below_one_times_100 in Fc.
  apply fin_inj in Fc;
    [|reflexivity | change (2 ^ 52) with 4503599627370496 in Mc; lia].
  destruct Fc as [<- <-].
  exists mp, ep.
  unfold progress. rewrite Fs, Ft, float64_of_int_100, Fq, Fp.
  split; [reflexivity|].
  split; [exact (rounds_mantissa _ _ _ _ _ Z.lt_0_1 Rp)|].
  assert (Hq : rle mq 1 eq below_one_m 1 (-53)).
  { apply (rounds_mono _ _ _ _ _ _ _ _ _ _ Hmt Z.lt_0_1 Rq below_one_rounds).
    apply (rle_at (-53 - js)); [lia | lia |].
    pose proof (pow2_pos js Hjs) as Pjs. pose proof (pow2_pos jt Hjt) as Pjt.
    replace (es - et - (-53 - js)) with (jt + 53) by lia.
    replace (-53 - (-53 - js)) with js by lia.
    rewrite Z.pow_add_r by lia. subst ms mt.
    unfold below_one_m.
    change (2 ^ 53) with 9007199254740992.
    assert (s * 9007199254740992 <= 9007199254740990 * t) by lia.
    nia. }
  exact (rounds_mono _ _ _ _ _ _ _ _ _ _ Z.lt_0_1 Z.lt_0_1 Rp Rc
           (rle_mul_r _ _ _ _ hundred_m (-46) eq_refl Hq)).
Qed.

(** [progress] is monotone in the quotient, for sizes that binary64 holds
    exactly. *)
Lemma progress_mono_ratio (s1 t1 s2 t2 : Z) :
  0 < s1 < 2 ^ 53 -> 0 < t1 < 2 ^ 53 -> 0 < s2 < 2 ^ 53 -> 0 < t2 < 2 ^ 53 ->
  s1 * t2 <= s2 * t1 ->
  exists m1 e1 m2 e2,
    progress s1 t1 = fin m1 e1 /\ progress s2 t2 = fin m2 e2
    /\ 2 ^ 52 <= m1 < 2 ^ 53 /\ 2 ^ 52 <= m2 < 2 ^ 53
    /\ rle m1 1 e1 m2 1 e2.
Proof.
  intros Hs1 Ht1 Hs2 Ht2 Hle.
  assert (H63 : forall x, 0 < x < 2 ^ 53 -> 0 < x < 2 ^ 63).
  { intros x. change (2 ^ 53) with 9007199254740992.
    change (2 ^ 63) with 9223372036854775808. lia. }
  destruct (float64_of_int_rounds s1 (H63 _ Hs1)) as (ms1 & es1 & Fs1 & Rs1 & Bs1).
  destruct (float64_of_int_rounds s2 (H63 _ Hs2)) as (ms2 & es2 & Fs2 & Rs2 & Bs2).
  destruct (float64_of_int_rounds t1 (H63 _ Ht1)) as (mt1 & et1 & Ft1 & Rt1 & Bt1).
  destruct (float64_of_int_rounds t2 (H63 _ Ht2)) as (mt2 & et2 & Ft2 & Rt2 & Bt2).
  pose proof (rounds_mantissa _ _ _ _ _ Z.lt_0_1 Rs1) as Ms1.
  pose proof (rounds_mantissa _ _ _ _ _ Z.lt_0_1 Rs2) as Ms2.
  pose proof (rounds_mantissa _ _ _ _ _ Z.lt_0_1 Rt1) as Mt1.
  pose proof (rounds_mantissa _ _ _ _ _ Z.lt_0_1 Rt2) as Mt2.
  destruct (rounds_small_exact _ _ _ Hs1 Rs1) as (js1 & Hjs1 & Ems1 & Ees1).
  destruct (rounds_small_exact _ _ _ Hs2 Rs2) as (js2 & Hjs2 & Ems2 & Ees2).
  destruct (rounds_small_exact _ _ _ Ht1 Rt1) as (jt1 & Hjt1 & Emt1 & Eet1).
  destruct (rounds_small_exact _ _ _ Ht2 Rt2) as (jt2 & Hjt2 & Emt2 & Eet2).
  assert (Hmt1 : 0 < mt1) by (change (2 ^ 52) with 4503599627370496 in Mt1; lia).
  assert (Hmt2 : 0 < mt2) by (change (2 ^ 52) with 4503599627370496 in Mt2; lia).
  destruct (f64_div_rounds ms1 es1 mt1 et1 Ms1 Mt1 ltac:(lia) ltac:(lia))
    as (mq1 & eq1 & Fq1 & Rq1 & Bq1).
  destruct (f64_div_rounds ms2 es2 mt2 et2 Ms2 Mt2 ltac:(lia) ltac:(lia))
    as (mq2 & eq2 & Fq2 & Rq2 & Bq2).
  pose proof (rounds_mantissa _ _ _ _ _ Hmt1 Rq1) as Mq1.
  pose proof (rounds_mantissa _ _ _ _ _ Hmt2 Rq2) as Mq2.
  assert (Mh : 2 ^ 52 <= hundred_m < 2 ^ 53)
    by (vm_compute; split; [discriminate | reflexivity]).
  destruct (f64_mul_rounds mq1 eq1 hundred_m (-46) Mq1 Mh ltac:(lia) ltac:(lia))
    as (mp1 & ep1 & Fp1 & Rp1 & Bp1).
  destruct (f64_mul_rounds mq2 eq2 hundred_m (-46) Mq2 Mh ltac:(lia) ltac:(lia))
    as (mp2 & ep2 & Fp2 & Rp2 & Bp2).
  exists mp1, ep1, mp2, ep2.
  unfold progress. rewrite Fs1, Fs2, Ft1, Ft2, float64_of_int_100, Fq1, Fq2, Fp1, Fp2.
  split; [reflexivity|]. split; [reflexivity|].
  split; [exact (rounds_mantissa _ _ _ _ _ Z.lt_0_1 Rp1)|].
  split; [exact (rounds_mantissa _ _ _ _ _ Z.lt_0_1 Rp2)|].
  assert (Hq : rle mq1 1 eq1 mq2 1 eq2).
  { apply (rounds_mono _ _ _ _ _ _ _ _ _ _ Hmt1 Hmt2 Rq1 Rq2).
    apply (rle_at (- js1 - js2)); [lia | lia |].
    pose proof (pow2_pos js1 Hjs1) as Pjs1. pose proof (pow2_pos jt1 Hjt1) as Pjt1.
    pose proof (pow2_pos js2 Hjs2) as Pjs2. pose proof (pow2_pos jt2 Hjt2) as Pjt2.
    replace (es1 - et1 - (- js1 - js2)) with (jt1 + js2) by lia.
    replace (es2 - et2 - (- js1 - js2)) with (jt2 + js1) by lia.
    rewrite !Z.pow_add_r by lia. subst ms1 ms2 mt1 mt2.
    replace (s1 * 2 ^ js1 * (t2 * 2 ^ jt2) * (2 ^ jt1 * 2 ^ js2))
      with (s1 * t2 * (2 ^ js1 * 2 ^ jt2 * 2 ^ jt1 * 2 ^ js2)) by ring.
    replace (s2 * 2 ^ js2 * (t1 * 2 ^ jt1) * (2 ^ jt2 * 2 ^ js1))
      with (s2 * t1 * (2 ^ js1 * 2 ^ jt2 * 2 ^ jt1 * 2 ^ js2)) by ring.
    apply Z.mul_le_mono_nonneg_r; [|exact Hle].
    repeat apply Z.mul_nonneg_nonneg; lia. }
  exact (rounds_mono _ _ _ _ _ _ _ _ _ _ Z.lt_0_1 Z.lt_0_1 Rp1 Rp2
           (rle_mul_r _ _ _ _ hundred_m (-46) eq_refl Hq)).
Qed.

Lemma percent_mono_ratio (s1 t1 s2 t2 : Z) :
  0 < s1 -> 0 < s2 <= t2 -> 0 < t1 < 2 ^ 53 -> t2 < 2 ^ 53 -> s1 < 2 ^ 53 ->
  s1 * t2 <= s2 * t1 ->
  0 <= percent s1 t1 <= percent s2 t2.
Proof.
  intros Hs1 Hs2 Ht1 Ht2 Hs1' Hle.
  destruct (progress_mono_ratio s1 t1 s2 t2) as (m1 & e1 & m2 & e2 & P1 & P2 & M1 & M2 & L);
    try lia.
  destruct (progress_mono_pos s2 t2 t2) as (m2' & e2' & mt & et & P2' & Pt & M2' & Mt & L2t);
    try lia.
  rewrite P2 in P2'.
  change (2 ^ 52) with 4503599627370496 in *.
  change (2 ^ 53) with 9007199254740992 in *.
  apply fin_inj in P2'; [|lia|lia]. destruct P2' as [<- <-].
  rewrite progress_full, float64_of_int_100 in Pt by lia.
  apply fin_inj in Pt; [|reflexivity|lia]. destruct Pt as [<- <-].
  pose proof (trunc_mono _ _ _ _ L) as T.
  pose proof (trunc_mono _ _ _ _ L2t) as T2.
  change (trunc hundred_m (-46)) with 100 in T2.
  assert (T0 : 0 <= trunc m1 e1).
  { unfold trunc. destruct (Z.leb_spec 0 e1).
    - apply Z.mul_nonneg_nonneg; [lia | apply Z.pow_nonneg; lia].
    - apply Z.div_pos; [lia | apply pow2_pos; lia]. }
  unfold percent. rewrite P1, P2.
  rewrite !int_of_fin by (unfold max_int; lia). lia.
Qed.

(** The hundred whole percentages, each computed as the monitor computes
    it: the result is the percentage or one less. *)
Lemma percent_of_hundredths (F : Z) :
  0 <= F <= 100 -> F - 1 <= percent F 100 <= F.
Proof.
  intros HF.
  assert (Hall : forallb (fun F => (F - 1 <=? percent F 100) && (percent F 100 <=? F))
                   (map Z.of_nat (seq 0 101)) = true) by (vm_compute; reflexivity).
  rewrite forallb_forall in Hall.
  specialize (Hall F). rewrite andb_true_iff, !Z.leb_le in Hall. apply Hall.
  replace F with (Z.of_nat (Z.to_nat F)) by lia.
  apply in_map, in_seq. lia.
Qed.

(** Below the total, for totals binary64 holds with a bit to spare, [prog]
    is not 100 and the percentage is at most 99. *)
Lemma percent_incomplete (size total : Z) :
  0 < total <= 2 ^ 52 -> 0 <= size < total ->
  f64_eqb (progress size total) (float64_of_int 100) = false
  /\ 0 <= percent size total <= 99.
Proof.
  intros Ht Hs.
  assert (Ht63 : 0 < total < 2 ^ 63).
  { change (2 ^ 52) with 4503599627370496 in Ht.
    change (2 ^ 63) with 9223372036854775808. lia. }
  destruct (Z.eq_dec size 0) as [->|Hnz].
  - rewrite (percent_zero total Ht63).
    split; [|lia].
    destruct (float64_of_int_rounds total Ht63) as (m & e & F & _).
    unfold progress. rewrite F. reflexivity.
  - destruct (progress_incomplete size total) as (m & e & P & M & L); try lia.
    unfold percent. rewrite P, float64_of_int_100.
    change (2 ^ 52) with 4503599627370496 in M.
    split.
    + destruct (f64_eqb (fin m e) (fin hundred_m (-46))) eqn:E; [|reflexivity].
      apply SFeqb_fin in E; [|lia|reflexivity].
      destruct E as [-> ->]. exfalso. revert L. unfold rle. vm_compute.
      intro L. now apply L.
    + pose proof (trunc_mono _ _ _ _ L) as T.
      change (trunc ninety_nine_m (-46)) with 99 in T.
      assert (T0 : 0 <= trunc m e).
      { unfold trunc. destruct (Z.leb_spec 0 e).
        - apply Z.mul_nonneg_nonneg; [lia | apply Z.pow_nonneg; lia].
        - apply Z.div_pos; [lia | apply pow2_pos; lia]. }
      rewrite int_of_fin by (unfold max_int; lia). lia.
Qed.

(** For totals binary64 holds exactly, the percentage is the exact one,
    one more or one less. *)
Lemma percent_near_exact (size total : Z) :
  0 < total < 2 ^ 53 -> 0 <= size <= total ->
  100 * size / total - 1 <= percent size total <= 100 * size / total + 1.
Proof.
  intros Ht Hs.
  assert (Ht53 : 0 < total < 9007199254740992) by exact Ht.
  assert (Ht63 : 0 < total < 2 ^ 63)
    by (change (2 ^ 63) with 9223372036854775808; lia).
  set (F := 100 * size / total).
  assert (HF : F * total <= 100 * size < (F + 1) * total).
  { unfold F. pose proof (Z.div_mod (100 * size) total ltac:(lia)).
    pose proof (Z.mod_pos_bound (100 * size) total ltac:(lia)). nia. }
  assert (HF0 : 0 <= F <= 100).
  { unfold F. split; [apply Z.div_pos; lia|].
    apply Z.div_le_upper_bound; lia. }
  destruct (Z.eq_dec size 0) as [->|Hnz].
  { rewrite (percent_zero total Ht63). unfold F. cbn. lia. }
  assert (H100 : 0 < 100 < 2 ^ 53) by (split; reflexivity).
  split.
  - destruct (Z.eq_dec F 0) as [->|HFnz].
    + pose proof (percent_mono size size total ltac:(lia) ltac:(lia) ltac:(lia) Ht63). lia.
    + pose proof (percent_of_hundredths F HF0) as Hh.
      assert (percent F 100 <= percent size total); [|lia].
      apply (percent_mono_ratio F 100 size total); lia.
  - destruct (Z.eq_dec F 100) as [E|HFn].
    + pose proof (percent_mono size size total ltac:(lia) ltac:(lia) ltac:(lia) Ht63). lia.
    + pose proof (percent_of_hundredths (F + 1) ltac:(lia)) as Hh.
      assert (percent size total <= percent (F + 1) 100); [|lia].
      apply (percent_mono_ratio size total (F + 1) 100); lia.
Qed.

(** The monitor *)

(** The sizes read by the calls of [dst.Stat()] that succeeded. *)
Fixpoint sampled (stats : list (result Z)) : list Z :=
  match stats with
  | [] => []
  | inl _ :: rest => sampled rest
  | inr size :: rest => size :: sampled rest
  end.

Lemma monitor_calls (total : Z) (stats : list (result Z)) :
  Forall (fun c => In (p_size c) (sampled stats)
                   /\ p_percent c = percent (p_size c) total
                   /\ p_total c = total)
    (monitor total stats).
Proof.
  induction stats as [|[err|size] rest IH]; cbn [monitor sampled].
  - constructor.
  - exact IH.
  - constructor; [cbn; auto|].
    destruct (f64_eqb _ _); [constructor|].
    eapply Forall_impl; [|exact IH].
    cbn. intros c (Hin & Hp & Ht). auto.
Qed.

(** The sizes up to and including the first of which [full] holds. *)
Fixpoint up_to_first (full : Z -> bool) (sizes : list Z) : list Z :=
  match sizes with
  | [] => []
  | size :: rest => size :: (if full size then [] else up_to_first full rest)
  end.

(** One call for each successful [Stat], with the size it read, up to and
    including the first whose [prog] is 100. *)
Lemma monitor_up_to_first (total : Z) (stats : list (result Z)) :
  monitor total stats
  = map (fun size => {| p_percent := int_of_float64 (progress size total);
                        p_size := size; p_total := total |})
      (up_to_first (fun size => f64_eqb (progress size total) (float64_of_int 100))
         (sampled stats)).
Proof.
  induction stats as [|[err|size] rest IH]; cbn [monitor sampled up_to_first map].
  - reflexivity.
  - exact IH.
  - destruct (f64_eqb _ _); [reflexivity | now rewrite IH].
Qed.

(** C9. For a session with a positive total size, over successive samples
    of the destination's size that never decrease (and never exceed the
    total):

    - every successful [Stat] is answered by one call of the observer with
      the size read, the total, and the percentage
      [int(float64(size) / float64(total) * 100)], up to and including the
      first sample whose [prog] is 100, after which the monitor makes no
      call;
    - the percentages handed over never decrease and lie between 0 and
      100;
    - the percentage of size 0 is 0, and for a total below 2^53 every
      percentage is within one of 100 times the size divided by the total;
      for a total of at most 2^52 a sample below the total has a [prog]
      other than 100 and a percentage of at most 99, so that the monitor
      stops at the total only;
    - when the sampled size is the total, [prog] is exactly 100, the
      observer receives 100 and the monitor makes no further call. *)
Theorem progress_monotone (total : Z) (stats : list (result Z)) :
  0 < total <= max_int ->
  Forall (fun size => 0 <= size <= total) (sampled stats) ->
  Sorted Z.le (sampled stats) ->
  let prog := fun size : Z =>
    f64_mul (f64_div (float64_of_int size) (float64_of_int total))
      (float64_of_int 100) in
  monitor total stats
  = map (fun size => {| p_percent := int_of_float64 (prog size);
                        p_size := size; p_total := total |})
      (up_to_first (fun size => f64_eqb (prog size) (float64_of_int 100))
         (sampled stats))
  /\ Sorted Z.le (map p_percent (monitor total stats))
  /\ Forall (fun c => p_percent c = int_of_float64 (progress (p_size c) total)
                      /\ 0 <= p_percent c <= 100)
       (monitor total stats)
  /\ int_of_float64 (prog 0) = 0
  /\ (total < 2 ^ 53 ->
      Forall (fun c => 100 * p_size c / total - 1 <= p_percent c
                       <= 100 * p_size c / total + 1)
        (monitor total stats))
  /\ (total <= 2 ^ 52 ->
      forall size, 0 <= size < total ->
        f64_eqb (prog size) (float64_of_int 100) = false
        /\ int_of_float64 (prog size) <= 99)
  /\ f64_eqb (prog total) (float64_of_int 100) = true
  /\ int_of_float64 (prog total) = 100
  /\ forall rest,
       monitor total (inr total :: rest)
       = [{| p_percent := 100; p_size := total; p_total := total |}].
Proof.
  intros Ht Hrange Hsorted prog.
  assert (Ht' : 0 < total < 2 ^ 63) by (unfold max_int in Ht; lia).
  change prog with (fun size => progress size total).
  apply Sorted_StronglySorted in Hsorted; [|intros x y z; apply Z.le_trans].
  assert (Hcalls : Forall (fun c => p_percent c = percent (p_size c) total
                                    /\ 0 <= p_size c <= total)
                     (monitor total stats)).
  { eapply Forall_impl; [|exact (monitor_calls total stats)].
    cbn. intros c (Hin & Hp & _). split; [exact Hp|].
    rewrite Forall_forall in Hrange. exact (Hrange _ Hin). }
  split; [exact (monitor_up_to_first total stats)|].
  split; [|split; [|split; [|split; [|split; [|split; [|split]]]]]].
  - apply StronglySorted_Sorted.
    induction stats as [|[err|size] rest IH]; cbn [monitor sampled map] in *.
    + constructor.
    + apply IH; assumption.
    + inversion Hrange as [|? ? Hsize Hrest]; subst.
      inversion Hsorted as [|? ? Hs Hall]; subst.
      cbn [map p_percent]. constructor.
      * destruct (f64_eqb _ _); [constructor|].
        inversion Hcalls; subst. apply IH; assumption.
      * destruct (f64_eqb _ _); [constructor|].
        apply Forall_map.
        eapply Forall_impl; [|exact (monitor_calls total rest)].
        cbn. intros c (Hin & Hp & _). rewrite Hp.
        rewrite Forall_forall in Hall, Hrest.
        specialize (Hall _ Hin). specialize (Hrest _ Hin).
        apply (percent_mono size (p_size c) total); lia.
  - eapply Forall_impl; [|exact Hcalls].
    cbn. intros c (Hp & Hs). split; [exact Hp|].
    rewrite Hp.
    pose proof (percent_mono (p_size c) (p_size c) total). lia.
  - exact (percent_zero total Ht').
  - intros H53. eapply Forall_impl; [|exact Hcalls].
    cbn. intros c (Hp & Hs). rewrite Hp.
    apply percent_near_exact; lia.
  - intros H52 size Hsize.
    pose proof (percent_incomplete size total ltac:(lia) Hsize) as [He Hp].
    split; [exact He | apply Hp].
  - rewrite progress_full by exact Ht'. reflexivity.
  - exact (percent_full total Ht').
  - intro rest. cbn [monitor].
    rewrite progress_full by exact Ht'. reflexivity.
Qed.

Lemma progress_monotone_witness :
  let total := 100 in
  let stats := [inr 0; inr 29; inl "stat: no such file"%string; inr 57; inr 100; inr 100] in
  let prog := fun size : Z =>
    f64_mul (f64_div (float64_of_int size) (float64_of_int total))
      (float64_of_int 100) in
  (0 < total <= max_int
   /\ Forall (fun size => 0 <= size <= total) (sampled stats)
   /\ Sorted Z.le (sampled stats))
  /\ monitor total stats
     = map (fun size => {| p_percent := int_of_float64 (prog size);
                           p_size := size; p_total := total |})
         (up_to_first (fun size => f64_eqb (prog size) (float64_of_int 100))
            (sampled stats))
  /\ Sorted Z.le (map p_percent (monitor total stats))
  /\ Forall (fun c => p_percent c = int_of_float64 (progress (p_size c) total)
                      /\ 0 <= p_percent c <= 100)
       (monitor total stats)
  /\ int_of_float64 (prog 0) = 0
  /\ (total < 2 ^ 53 ->
      Forall (fun c => 100 * p_size c / total - 1 <= p_percent c
                       <= 100 * p_size c / total + 1)
        (monitor total stats))
  /\ (total <= 2 ^ 52 ->
      forall size, 0 <= size < total ->
        f64_eqb (prog size) (float64_of_int 100) = false
        /\ int_of_float64 (prog size) <= 99)
  /\ f64_eqb (prog total) (float64_of_int 100) = true
  /\ int_of_float64 (prog total) = 100
  /\ forall rest,
       monitor total (inr total :: rest)
       = [{| p_percent := 100; p_size := total; p_total := total |}].
Proof.
  intros total stats prog.
  assert (Ht : 0 < total <= max_int) by (unfold total, max_int; lia).
  assert (Hr : Forall (fun size => 0 <= size <= total) (sampled stats))
    by (repeat constructor; unfold total; lia).
  assert (Hs : Sorted Z.le (sampled stats))
    by (repeat constructor; lia).
  split; [exact (conj Ht (conj Hr Hs))|].
  exact (progress_monotone total stats Ht Hr Hs).
Defined.

(** The calls of the monitor on those samples: 29 of 100 bytes are
    reported as 28 percent, the quotient 0.29 times 100 falling just short
    of 29 in binary64; the second sample of 100 bytes is not reported. *)
Example monitor_sample_run :
  monitor 100 [inr 0; inr 29; inl "stat: no such file"%string; inr 57; inr 100; inr 100]
  = [ {| p_percent := 0; p_size := 0; p_total := 100 |};
      {| p_percent := 28; p_size := 29; p_total := 100 |};
      {| p_percent := 56; p_size := 57; p_total := 100 |};
      {| p_percent := 100; p_size := 100; p_total := 100 |} ].
Proof. vm_compute. reflexivity. Qed.

(** * Further properties

    Properties of the same code beyond the statements of the specification,
    read off the source. *)

(** ** Joining and the completion report *)

Lemma combineArgs_tail (separator v : string) (rest : list string) :
  combineArgs separator (v :: rest) = (v ++ tail_joined separator rest)%string.
Proof. rewrite combineArgs_concat. apply concat_tail. Qed.

(** X1. [combineArgs] neither escapes nor marks its arguments: an argument
    that is itself a joined list gives the same text as its elements spliced
    in (so an argument that contains the separator reads as two
    arguments); no arguments give the empty string, and one argument is
    returned as it is. *)
Theorem combineArgs_flattens (separator : string) (before : list string)
    (v : string) (inner after : list string) :
  combineArgs separator (before ++ combineArgs separator (v :: inner) :: after)
  = combineArgs separator (before ++ (v :: inner) ++ after)
  /\ (forall a b : string,
        combineArgs separator (before ++ (a ++ separator ++ b)%string :: after)
        = combineArgs separator (before ++ a :: b :: after))
  /\ combineArgs separator [] = ""
  /\ combineArgs separator [v] = v.
Proof.
  assert (F : forall (w : string) (ws : list string),
            combineArgs separator (before ++ combineArgs separator (w :: ws) :: after)
            = combineArgs separator (before ++ (w :: ws) ++ after)).
  { intros w ws. destruct before as [|x xs]; cbn [app].
    - rewrite !combineArgs_concat. apply concat_nested.
    - rewrite !combineArgs_tail, !tail_joined_app. cbn [tail_joined app].
      rewrite ?tail_joined_app. now rewrite !append_assoc. }
  split; [apply F|]. split; [|split].
  - intros a b. specialize (F a [b]).
    rewrite combineArgs_tail in F. cbn [tail_joined] in F.
    rewrite append_nil_r in F. exact F.
  - reflexivity.
  - rewrite combineArgs_tail. cbn. apply append_nil_r.
Qed.

(** X2. Once the completion request is answered and the two layers of the
    envelope are parsed, [updateInfo] judges by the inner status alone: it
    returns nil when the status is 200, whether or not the data member
    decodes, and otherwise the error that carries the details (or the
    message naming the status when the details are empty). *)
Theorem updateInfo_judges_by_status (W : World) (i : info) (timeConsumed : Z)
    (buf respBuf : string) (val : list (string * string)) (tmp : tmpResp) :
  json_Marshal W [("val", updateInfo_val i timeConsumed)] = inr buf ->
  http_Post W apiAddr buf = inr respBuf ->
  json_Unmarshal_map W respBuf = inr val ->
  json_Unmarshal_tmp W (map_get val "val") = inr tmp ->
  snd (updateInfo W i timeConsumed)
  = if tmp_Status tmp =? 200 then None
    else Some (if is_empty (tmp_Details tmp)
               then invalid_status_message (tmp_Status tmp)
               else tmp_Details tmp).
Proof.
  intros Hm Hp Hv Ht. unfold updateInfo, UnmarshalJSON.
  rewrite Hm, Hp, Hv, Ht.
  destruct (tmp_Status tmp =? 200) eqn:E; cbn [negb].
  - cbn [Data Details].
    destruct (json_Unmarshal_info W (tmp_Data tmp) (Data zero_apiResp)) as [d [err|]];
      cbn [Status]; rewrite ?E; reflexivity.
  - cbn [Status zero_apiResp negb Z.eqb]. reflexivity.
Qed.

Lemma updateInfo_judges_by_status_witness :
  let W := sample_world (fun _ => (5, 0%N)) (inr (json_val_object inner_no_data))
             ([], None) in
  let buf := json_val_object (updateInfo_val sample_info 42) in
  let tmp := {| tmp_Status := 200; tmp_Details := ""; tmp_Data := "" |} in
  (json_Marshal W [("val", updateInfo_val sample_info 42)] = inr buf
   /\ http_Post W apiAddr buf = inr (json_val_object inner_no_data)
   /\ json_Unmarshal_map W (json_val_object inner_no_data) = inr [("val", inner_no_data)]
   /\ json_Unmarshal_tmp W (map_get [("val", inner_no_data)] "val") = inr tmp)
  /\ snd (json_Unmarshal_info W (tmp_Data tmp) zero_info)
     = Some "unexpected end of JSON input"
  /\ snd (updateInfo W sample_info 42) = None.
Proof.
  intros W buf tmp.
  assert (H1 : json_Marshal W [("val", updateInfo_val sample_info 42)] = inr buf)
    by reflexivity.
  assert (H2 : http_Post W apiAddr buf = inr (json_val_object inner_no_data))
    by reflexivity.
  assert (H3 : json_Unmarshal_map W (json_val_object inner_no_data)
               = inr [("val", inner_no_data)]) by reflexivity.
  assert (H4 : json_Unmarshal_tmp W (map_get [("val", inner_no_data)] "val") = inr tmp)
    by reflexivity.
  split; [exact (conj H1 (conj H2 (conj H3 H4)))|]. split; [reflexivity|].
  exact (updateInfo_judges_by_status W sample_info 42 buf _ _ tmp H1 H2 H3 H4).
Defined.

(** ** The stages of [Start] *)

(** The bootstrap step: what it leaves behind. *)
Lemma bootstrap_and_wait_shape (W : World) (l : LightClient) (metadata : info)
    (ev : list Event) (r : Out + Z) :
  bootstrap_and_wait W l metadata = Some (ev, r) ->
  let leaders := Leaders (Cookie metadata) in
  let count := fst (lite_Bootstrap W 0 leaders) in
  exists tail,
    ev = EvBootstrap leaders :: showStep success "Bootstrapped" (jsonOut l)
           ++ (if count <? peerThreshold then [EvSpawnRetry] else []) ++ tail
    /\ ((count <> 0 /\ tail = [] /\ r = inr count)
        \/ (count = 0
            /\ tail = [EvLog Warn "No nodes connected. Waiting to find more" []]
            /\ exists c writes t,
                 r = inr c /\ 0 < c
                 /\ retry_writes W l leaders (Z.of_N (bootstrapped_at W)) count
                    = Some writes
                 /\ c = count_at writes count t)
        \/ (count = 0
            /\ tail = [EvLog Warn "No nodes connected. Waiting to find more" [];
                       EvLog Info "Client stopped while waiting for more peers" []]
            /\ r = inl (stopped_out))).
Proof.
  unfold bootstrap_and_wait. cbv zeta.
  set (leaders := Leaders (Cookie metadata)).
  set (count := fst (lite_Bootstrap W 0 leaders)).
  destruct (retry_writes_total W l leaders (Z.of_N (bootstrapped_at W)) count) as [writes Hw].
  rewrite Hw. cbn [bind emit pure showStep app].
  destruct (Z.eqb_spec count 0) as [E0|E0].
  - cbn [bind emit pure].
    destruct (wait_loop_spec W (timeout l) (count_at writes count)
                (wait_fuel (timeout l) (Z.of_N (bootstrapped_at W)))
                (Z.of_N (bootstrapped_at W))) as [res [Hr Hpost]];
      [unfold wait_fuel; lia|].
    unfold zero_peer_wait. rewrite Hr.
    destruct res as [t c|t out]; cbn [wait_post] in Hpost.
    + cbn [pure]. intros [= <- <-].
      exists [EvLog Warn "No nodes connected. Waiting to find more" []]. split.
      * rewrite ?app_nil_r. cbn [app]. rewrite <- ?app_assoc. reflexivity.
      * right; left. split; [exact E0|]. split; [reflexivity|].
        exists c, writes, t. split; [reflexivity|].
        split; [apply Hpost|]. split; [reflexivity | apply Hpost].
    + intros [= <- <-].
      exists [EvLog Warn "No nodes connected. Waiting to find more" [];
              EvLog Info "Client stopped while waiting for more peers" []]. split.
      * rewrite ?app_nil_r. cbn [app]. rewrite <- ?app_assoc. reflexivity.
      * right; right. split; [exact E0|]. split; [reflexivity|].
        destruct Hpost as [_ [-> _]]. reflexivity.
  - cbn [pure]. intros [= <- <-]. exists []. split.
    + rewrite ?app_nil_r. reflexivity.
    + left. auto.
Qed.

(** ** The main flow as a sequence of stages

    A stage leaves events and may end the run with a result. *)

Definition Stage : Type := list Event * option Out.

Fixpoint run_stages (stages : list Stage) (final : Out) : list Event * Out :=
  match stages with
  | [] => ([], final)
  | (ev, Some o) :: _ => (ev, o)
  | (ev, None) :: rest =>
      let (ev', o) := run_stages rest final in (ev ++ ev', o)
  end.

(** The stage of a call whose error ends the run. *)
Definition failing (ev : list Event) (r : option error)
    (fail : error -> list Event * Out) : Stage :=
  match r with
  | Some err => (ev ++ fst (fail err), Some (snd (fail err)))
  | None => (ev, None)
  end.

Section Stages.
Variable W : World.
Variable l : LightClient.
Variable sharable : string.

Definition Start_stages (metadata : info) (onlyInfo stat progUpd : bool)
    (evb : list Event) (rb : Out + Z) : list Stage :=
  let downloadTime := wrap64 (unix_after W - unix_before W) in
  [ (showStep success "Got metadata" (jsonOut l)
       ++ [EvLog Info "Got metadata info %+v" []],
     if onlyInfo then Some (NewOut success MetaInfo "" (DataInfo metadata)) else None);
    failing [EvCreate (destination_path W l metadata)]
      (os_Create W (destination_path W l metadata))
      (fun err =>
         ([EvLog Error "Failed creating dest file Err: %s" [err]],
          NewOut internalError (Text "Failed creating destination file") err DataNil));
    failing [EvDecodePSK] (pnet_DecodeV1PSK W (SwarmKey metadata))
      (fun err =>
         ([EvLog Error "Failed decoding swarm key Err: %s" [err]],
          NewOut internalError (Text "Failed decoding swarm key provided") err DataNil));
    failing [EvSetupLibp2p] (ipfslite_SetupLibp2p W)
      (fun err =>
         ([EvLog Error "Failed setting up libp2p node Err: %s" [err]],
          NewOut internalError (Text "Failed setting up p2p peer") err DataNil));
    failing [EvNewPeer] (ipfslite_New W)
      (fun err =>
         ([EvLog Error "Failed setting up p2p xfer node Err: %s" [err]],
          NewOut internalError (Text "Failed setting up light client") err DataNil));
    (showStep success "Download agent created" (jsonOut l) ++ evb,
     match rb with inl o => Some o | inr _ => None end);
    failing
      [EvLog Info "Connected to %d peers. Starting download"
         [fmt_d (match rb with inl _ => 0 | inr count => count end)];
       EvCidDecode (Hash (Cookie metadata))]
      (cid_Decode W (Hash (Cookie metadata)))
      (fun err =>
         ([EvLog Error "Failed decoding file hash Err: %s" [err]],
          NewOut internalError (Text "Failed decoding filehash provided") err DataNil));
    failing (showStep success "Starting download" (jsonOut l) ++ [EvGetFile])
      (match lite_GetFile W with inl err => Some err | inr _ => None end)
      (fun err => ([], NewOut 500 (Text "Failed getting file") err DataNil));
    failing ((if progUpd then [EvSpawnProgress] else []) ++ [EvCopy]) (io_Copy W)
      (fun err =>
         ([], NewOut internalError (Text "Failed writing to destination") err DataNil));
    (showStep success "Finishing download" (jsonOut l)
       ++ [EvSleep (Second * 5)]
       ++ fst (updateInfo W metadata downloadTime)
       ++ match snd (updateInfo W metadata downloadTime) with
          | Some err =>
              [EvLog Warn "Failed updating metadata after download Err: %s" [err]]
          | None => []
          end
       ++ showStep success "Updating cookie" (jsonOut l),
     if negb stat then Some (NewOut 200 DownloadSuccess "" DataNil) else None);
    ([EvPeers; EvGetMicroPayments], None) ].

(** Every run of [Start] is the run of its stages. *)
Lemma Start_run (onlyInfo stat progUpd : bool) :
  exists ev out,
    Start W l sharable onlyInfo stat progUpd = Some (ev, out)
    /\ match snd (getInfo W sharable "" (pubKey l)) with
       | inl err =>
           ev = fst (getInfo W sharable "" (pubKey l))
                  ++ [EvLog Error "Failed getting metadata Err: %s" [err]]
           /\ out = NewOut serviceError (Text "Failed getting metadata") err DataNil
       | inr metadata =>
           exists evb rb,
             bootstrap_and_wait W l metadata = Some (evb, rb)
             /\ ev = fst (getInfo W sharable "" (pubKey l))
                       ++ fst (run_stages
                                 (Start_stages metadata onlyInfo stat progUpd evb rb)
                                 (final_out W true))
             /\ out = snd (run_stages
                             (Start_stages metadata onlyInfo stat progUpd evb rb)
                             (final_out W true))
       end.
Proof.
  unfold Start.
  destruct (getInfo W sharable "" (pubKey l)) as [ev0 [err|metadata]]; cbn [fst snd].
  - eexists _, _. cbn [bind]. split; [reflexivity|]. split; reflexivity.
  - destruct (bootstrap_and_wait_returns W l metadata) as [[evb rb] Hb].
    unfold Start_stages, destination_path, final_out.
    cbn [bind emit pure leave check showStep].
    destruct onlyInfo.
    { cbn [bind emit pure leave check app run_stages fst snd].
      eexists _, _. split; [reflexivity|]. exists evb, rb.
      split; [exact Hb|]. split; [|reflexivity].
      rewrite ?app_nil_r. reflexivity. }
    cbn [bind emit pure leave check showStep].
    repeat match goal with
    | |- context [check _ ?r _] =>
        destruct r as [?err|] eqn:?;
        cbn [bind emit pure leave check showStep failing run_stages fst snd];
        [eexists _, _; split; [reflexivity|]; eexists _, _;
         split; [first [exact Hb | reflexivity]|]; split; [|reflexivity];
         rewrite <- ?app_assoc; cbn [app]; rewrite ?app_nil_r; reflexivity|]
    | |- context [bootstrap_and_wait W l metadata] =>
        rewrite Hb; destruct rb as [o|count];
        cbn [bind emit pure leave check showStep failing run_stages fst snd];
        [eexists _, _; split; [reflexivity|]; eexists _, _;
         split; [reflexivity|]; split; [|reflexivity];
         rewrite <- ?app_assoc; cbn [app]; rewrite ?app_nil_r; reflexivity|]
    end.
    destruct (updateInfo W metadata _) as [evu erru].
    cbn [bind emit pure leave check showStep failing run_stages fst snd].
    destruct stat;
      cbn [negb bind emit pure leave check showStep failing run_stages fst snd];
      eexists _, _; (split; [reflexivity|]); eexists _, _;
      (split; [reflexivity|]); (split; [|reflexivity]);
      rewrite <- ?app_assoc; cbn [app]; rewrite ?app_nil_r; reflexivity.
Qed.
End Stages.

(** The step notifications a list of events contains, in order. *)
Fixpoint steps (ev : list Event) : list (Out * bool) :=
  match ev with
  | [] => []
  | EvOutMessage o j :: rest => (o, j) :: steps rest
  | _ :: rest => steps rest
  end.

Lemma steps_app (ev1 ev2 : list Event) : steps (ev1 ++ ev2) = steps ev1 ++ steps ev2.
Proof.
  induction ev1 as [|e ev1 IH]; [reflexivity|].
  destruct e; cbn [app steps]; rewrite IH; reflexivity.
Qed.

Lemma UnmarshalJSON_logs_steps (W : World) (b : string) :
  steps (UnmarshalJSON_logs W b) = [].
Proof. unfold UnmarshalJSON_logs. destruct (json_Unmarshal_map W b); reflexivity. Qed.

Lemma getInfo_steps (W : World) (sharable oldCookie pubKB : string) :
  steps (fst (getInfo W sharable oldCookie pubKB)) = [].
Proof.
  unfold getInfo.
  destruct (json_Marshal W _) as [err|buf]; [reflexivity|].
  destruct (http_Post W apiAddr buf) as [err|respBuf]; [reflexivity|].
  destruct (UnmarshalJSON W zero_apiResp respBuf) as [respData [err|]];
    cbn [fst steps]; rewrite ?steps_app, UnmarshalJSON_logs_steps; reflexivity.
Qed.

Lemma updateInfo_steps (W : World) (i : info) (timeConsumed : Z) :
  steps (fst (updateInfo W i timeConsumed)) = [].
Proof.
  unfold updateInfo.
  destruct (json_Marshal W _) as [err|buf]; [reflexivity|].
  destruct (http_Post W apiAddr buf) as [err|respBuf]; [reflexivity|].
  destruct (UnmarshalJSON W zero_apiResp respBuf) as [respData [err|]];
    [destruct (negb _)|]; cbn [fst steps];
    rewrite UnmarshalJSON_logs_steps; reflexivity.
Qed.

(** The step a call of [showStep] reports. *)
Definition step (message : string) (jsonOut : bool) : Out * bool :=
  (NewOut success (Text message) "" DataNil, jsonOut).

Lemma bootstrap_and_wait_quiet (W : World) (l : LightClient) (metadata : info)
    (ev : list Event) (r : Out + Z) :
  bootstrap_and_wait W l metadata = Some (ev, r) ->
  posts ev = []
  /\ steps ev = [step "Bootstrapped" (jsonOut l)]
  /\ forall o, r = inl o -> o = stopped_out.
Proof.
  intros H. apply bootstrap_and_wait_shape in H. cbv zeta in H.
  destruct H as (tail & -> & H).
  assert (Ht : posts tail = [] /\ steps tail = []).
  { destruct H as [(_ & -> & _)|[(_ & -> & _)|(_ & -> & _)]]; split; reflexivity. }
  destruct Ht as [Hp Hs].
  split; [|split].
  - cbn [posts showStep app]. rewrite posts_app, Hp.
    destruct (_ <? _); reflexivity.
  - cbn [steps showStep app]. rewrite steps_app, Hs.
    destruct (_ <? _); reflexivity.
  - intros o ->.
    destruct H as [(_ & _ & E)|[(_ & _ & c & ws & t & E & _)|(_ & _ & E)]];
      try discriminate E. now injection E as <-.
Qed.

(** The results that report a finished download. *)
Definition downloaded (o : Out) : bool :=
  match out_Message o, out_Data o with
  | DownloadSuccess, _ => true
  | _, DataStat _ => true
  | _, _ => false
  end.

(** Case analysis over the stages: [tac] closes the case of a failing
    call. *)
Ltac stage_cases tac :=
  repeat match goal with
  | |- context [failing _ ?r _] =>
      destruct r as [?err|] eqn:?;
      cbn [failing run_stages fst snd]; [solve [tac]|]
  end.

(** ** The answer null

    [json.Unmarshal(respBuf, &respData)] first checks that the body is a
    JSON text and then, unless the text is the value null, calls
    [UnmarshalJSON] on the response with it.  For null it stores nil in
    [respData] and returns no error: [getInfo] then fails on
    [&respData.Data], a nil pointer, and neither it nor [Start] returns.
    The model enters the decoder through the method, so its runs of
    [getInfo] and of [Start] are those of every other answer. *)

(** The white space of a JSON text: space, tab, line feed, carriage
    return. *)
Definition json_space (c : ascii) : bool :=
  Ascii.eqb c " " || Ascii.eqb c "009" || Ascii.eqb c "010" || Ascii.eqb c "013".

Fixpoint json_spaces (b : string) : bool :=
  match b with
  | EmptyString => true
  | String c rest => json_space c && json_spaces rest
  end.

(** The body is the JSON value null, with white space around it or
    not. *)
Fixpoint json_null (b : string) : bool :=
  match b with
  | EmptyString => false
  | String c rest =>
      if json_space c then json_null rest
      else
        match b with
        | String "n" (String "u" (String "l" (String "l" after))) => json_spaces after
        | _ => false
        end
  end.

(** The body that answers the fetch of [getInfo], when the request is made
    and answered. *)
Definition fetch_answer (W : World) (sharable oldCookie pubKB : string)
    : option string :=
  let args :=
    [("val", getInfo_val sharable oldCookie (base64_EncodeToString W pubKB)
               (getExternalIp (consensus_ExternalIP W)))] in
  match json_Marshal W args with
  | inl _ => None
  | inr buf =>
      match http_Post W apiAddr buf with
      | inl _ => None
      | inr respBuf => Some respBuf
      end
  end.

(** The fetch is answered by the value null. *)
Definition answered_null (W : World) (sharable oldCookie pubKB : string) : bool :=
  match fetch_answer W sharable oldCookie pubKB with
  | Some respBuf => json_null respBuf
  | None => false
  end.

Example json_null_samples :
  json_null "null" = true
  /\ json_null (String " " (String "010" "null  ")) = true
  /\ json_null "nulls" = false
  /\ json_null "{}" = false
  /\ json_null "" = false
  /\ json_null (json_val_object inner_ok) = false.
Proof. vm_compute. repeat split. Qed.

Section StartFacts.
Variable W : World.
Variable l : LightClient.
Variable sharable : string.

(** X3. Unless the control plane answers the fetch with the JSON value
    null, [Start] returns, and its result has status 200, 500 or 503: 503
    exactly when the metadata could not be fetched, never 504, also when
    the session is stopped by its deadline; a result whose status is not
    200 carries a literal message and no data. *)
Theorem Start_result_statuses (onlyInfo stat progUpd : bool) :
  answered_null W sharable "" (pubKey l) = false ->
  exists ev out,
    Start W l sharable onlyInfo stat progUpd = Some (ev, out)
    /\ (out_Status out = 200 \/ out_Status out = 500 \/ out_Status out = 503)
    /\ (out_Status out = 503 <-> exists err, snd (getInfo W sharable "" (pubKey l)) = inl err)
    /\ (out_Status out <> 200 ->
        out_Data out = DataNil /\ exists message, out_Message out = Text message).
Proof.
  intros _.
  destruct (Start_run W l sharable onlyInfo stat progUpd) as (ev & out & HS & H).
  exists ev, out. split; [exact HS|].
  destruct (snd (getInfo W sharable "" (pubKey l))) as [err|metadata].
  - destruct H as [_ ->]. cbn. split; [auto|]. split.
    + split; [eauto | reflexivity].
    + intros _. eauto.
  - destruct H as (evb & rb & Hb & _ & ->).
    apply bootstrap_and_wait_quiet in Hb. destruct Hb as (_ & _ & Hstop).
    assert (Hgoal : forall o : Out,
              (out_Status o = 200 \/ out_Status o = 500)
              /\ (out_Status o <> 200 ->
                  out_Data o = DataNil /\ exists message, out_Message o = Text message) ->
              (out_Status o = 200 \/ out_Status o = 500 \/ out_Status o = 503)
              /\ (out_Status o = 503 <-> exists err, @inr error info metadata = inl err)
              /\ (out_Status o <> 200 ->
                  out_Data o = DataNil /\ exists message, out_Message o = Text message)).
    { intros o [Hst Hd]. split; [tauto|]. split; [|exact Hd].
      split; [lia|]. intros [err E]. discriminate E. }
    apply Hgoal. clear Hgoal.
    unfold Start_stages. cbv zeta. cbn [run_stages].
    destruct onlyInfo; [cbn; split; [auto | intros E; now contradiction E]|].
    stage_cases ltac:(cbn; split; [auto | intros _; eauto]).
    destruct rb as [o|count].
    { rewrite (Hstop o eq_refl). cbn. split; [auto | intros _; eauto]. }
    cbn [fst snd].
    stage_cases ltac:(cbn; split; [auto | intros _; eauto]).
    destruct stat; cbn; (split; [auto | intros E; now contradiction E]).
Qed.

(** X4. The completion report is posted in exactly the sessions that
    return [DownloadSuccess] or the stats: in those the requests are the
    ones of the metadata fetch followed by the ones of [updateInfo] with
    the elapsed seconds, in every other session only those of the fetch. *)
Theorem completion_report_only_after_download (onlyInfo stat progUpd : bool) :
  exists ev out,
    Start W l sharable onlyInfo stat progUpd = Some (ev, out)
    /\ match snd (getInfo W sharable "" (pubKey l)) with
       | inl _ =>
           downloaded out = false
           /\ posts ev = posts (fst (getInfo W sharable "" (pubKey l)))
       | inr metadata =>
           posts ev
           = posts (fst (getInfo W sharable "" (pubKey l)))
               ++ (if downloaded out
                   then posts (fst (updateInfo W metadata
                                      (wrap64 (unix_after W - unix_before W))))
                   else [])
       end.
Proof.
  destruct (Start_run W l sharable onlyInfo stat progUpd) as (ev & out & HS & H).
  exists ev, out. split; [exact HS|].
  destruct (snd (getInfo W sharable "" (pubKey l))) as [err|metadata].
  - destruct H as [-> ->]. split; [reflexivity|].
    rewrite posts_app. cbn [posts]. now rewrite app_nil_r.
  - destruct H as (evb & rb & Hb & -> & ->).
    apply bootstrap_and_wait_quiet in Hb. destruct Hb as (Hp & _ & Hstop).
    rewrite posts_app. f_equal.
    unfold Start_stages. cbv zeta. cbn [run_stages].
    destruct onlyInfo; [reflexivity|].
    stage_cases ltac:(cbn [fst snd]; rewrite ?posts_app; reflexivity).
    destruct rb as [o|count].
    { rewrite (Hstop o eq_refl). cbn [fst snd].
      rewrite ?posts_app, Hp. reflexivity. }
    cbn [fst snd].
    stage_cases ltac:(cbn [fst snd]; rewrite ?posts_app, ?Hp;
                      destruct progUpd; reflexivity).
    destruct stat; cbn [negb fst snd downloaded out_Message out_Data NewOut final_out];
      rewrite ?posts_app, ?Hp; cbn [posts showStep app];
      destruct progUpd; cbn [posts app];
      destruct (snd (updateInfo W metadata _)); cbn [posts app];
      rewrite ?app_nil_r; reflexivity.
Qed.

(** The steps of the main flow, in the order it reports them. *)
Definition main_steps : list string :=
  ["Got metadata"; "Download agent created"; "Bootstrapped"; "Starting download";
   "Finishing download"; "Updating cookie"].

(** X5. The step notifications of the main flow are an initial part of
    "Got metadata", "Download agent created", "Bootstrapped", "Starting
    download", "Finishing download", "Updating cookie", in this order, each
    with status 200, no detail and no data, and the client's [jsonOut]:
    the first [n] of the six, where [n] is the number of steps sent.  None
    is sent exactly when the metadata fetch failed, all six exactly when
    the result reports a finished download. *)
Theorem steps_in_order (onlyInfo stat progUpd : bool) :
  exists ev out n,
    Start W l sharable onlyInfo stat progUpd = Some (ev, out)
    /\ n = length (steps ev)
    /\ (n <= 6)%nat
    /\ steps ev = map (fun m => step m (jsonOut l)) (firstn n main_steps)
    /\ (n = 0%nat <-> exists err, snd (getInfo W sharable "" (pubKey l)) = inl err)
    /\ (n = 6%nat <-> downloaded out = true).
Proof.
  destruct (Start_run W l sharable onlyInfo stat progUpd) as (ev & out & HS & H).
  exists ev, out.
  pose proof (getInfo_steps W sharable "" (pubKey l)) as H0.
  enough (Hn : exists n,
             (n <= 6)%nat
             /\ steps ev = map (fun m => step m (jsonOut l)) (firstn n main_steps)
             /\ (n = 0%nat <-> exists err, snd (getInfo W sharable "" (pubKey l)) = inl err)
             /\ (n = 6%nat <-> downloaded out = true)).
  { destruct Hn as (n & Hle & E & Hz & Hd). exists n.
    split; [exact HS|]. split; [|tauto].
    rewrite E, length_map, length_firstn. cbn [main_steps length]. lia. }
  clear HS.
  destruct (snd (getInfo W sharable "" (pubKey l))) as [err|metadata].
  - destruct H as [-> ->]. exists 0%nat. split; [lia|].
    rewrite steps_app, H0. cbn.
    split; [reflexivity|]. split; split; eauto; discriminate.
  - destruct H as (evb & rb & Hb & -> & ->).
    apply bootstrap_and_wait_quiet in Hb. destruct Hb as (_ & Hs & Hstop).
    enough (Hn : exists n,
               (n <= 6)%nat
               /\ steps (fst (run_stages
                                (Start_stages W l metadata onlyInfo stat progUpd evb rb)
                                (final_out W true)))
                  = map (fun m => step m (jsonOut l)) (firstn n main_steps)
               /\ n <> 0%nat
               /\ (n = 6%nat
                   <-> downloaded
                         (snd (run_stages
                                 (Start_stages W l metadata onlyInfo stat progUpd evb rb)
                                 (final_out W true))) = true)).
    { destruct Hn as (n & Hle & E & Hn & Hd). exists n. split; [exact Hle|].
      rewrite steps_app, H0. split; [exact E|]. split; [|exact Hd].
      split; [intros ->; now contradiction Hn | intros [err X]; discriminate X]. }
    unfold Start_stages. cbv zeta. cbn [run_stages].
    destruct onlyInfo.
    { exists 1%nat. split; [lia|]. cbn. split; [reflexivity|]. split; [discriminate|].
      split; discriminate. }
    stage_cases ltac:(exists 1%nat; (split; [lia|]); cbn [fst snd];
                      rewrite ?steps_app; cbn;
                      split; [reflexivity|]; split; [discriminate|];
                      split; discriminate).
    destruct rb as [o|count].
    { rewrite (Hstop o eq_refl). exists 3%nat. split; [lia|]. cbn [fst snd].
      rewrite ?steps_app, Hs. cbn.
      split; [reflexivity|]. split; [discriminate|]. split; discriminate. }
    cbn [fst snd].
    destruct (cid_Decode W (Hash (Cookie metadata))) as [err|] eqn:Hcid;
      cbn [failing run_stages fst snd].
    { exists 3%nat. split; [lia|]. rewrite ?steps_app, Hs. cbn.
      split; [reflexivity|]. split; [discriminate|]. split; discriminate. }
    stage_cases ltac:(exists 4%nat; (split; [lia|]); cbn [fst snd];
                      rewrite ?steps_app, Hs;
                      destruct progUpd; cbn;
                      (split; [reflexivity|]); (split; [discriminate|]);
                      split; discriminate).
    exists 6%nat. split; [lia|].
    pose proof (updateInfo_steps W metadata (wrap64 (unix_after W - unix_before W))) as Hu.
    destruct stat; cbn [negb fst snd];
      rewrite ?steps_app, Hs, ?Hu; destruct progUpd;
      destruct (snd (updateInfo W metadata _)); cbn;
      (split; [reflexivity|]); (split; [discriminate|]); split; reflexivity.
Qed.

End StartFacts.

Lemma Start_result_statuses_witness :
  let W := sample_world (fun _ => (0, 0%N)) (inl "connection refused") ([], None) in
  let l := sample_client (Second * 3) in
  answered_null W "abc123" "" (pubKey l) = false
  /\ exists ev out,
       Start W l "abc123" false false true = Some (ev, out)
       /\ (out_Status out = 200 \/ out_Status out = 500 \/ out_Status out = 503)
       /\ (out_Status out = 503
           <-> exists err, snd (getInfo W "abc123" "" (pubKey l)) = inl err)
       /\ (out_Status out <> 200 ->
           out_Data out = DataNil /\ exists message, out_Message out = Text message).
Proof.
  intros W l.
  assert (H : answered_null W "abc123" "" (pubKey l) = false) by reflexivity.
  split; [exact H|].
  exact (Start_result_statuses W l "abc123" false false true H).
Defined.

(** ** The destination file *)

(** The calls of [os.Create] a list of events contains, by their path. *)
Fixpoint create_calls (ev : list Event) : list string :=
  match ev with
  | [] => []
  | EvCreate path :: rest => path :: create_calls rest
  | _ :: rest => create_calls rest
  end.

Lemma create_calls_app (ev1 ev2 : list Event) :
  create_calls (ev1 ++ ev2) = create_calls ev1 ++ create_calls ev2.
Proof.
  induction ev1 as [|e ev1 IH]; [reflexivity|].
  destruct e; cbn [app create_calls]; rewrite IH; reflexivity.
Qed.

Lemma UnmarshalJSON_logs_create_calls (W : World) (b : string) :
  create_calls (UnmarshalJSON_logs W b) = [].
Proof. unfold UnmarshalJSON_logs. destruct (json_Unmarshal_map W b); reflexivity. Qed.

Lemma getInfo_create_calls (W : World) (sharable oldCookie pubKB : string) :
  create_calls (fst (getInfo W sharable oldCookie pubKB)) = [].
Proof.
  unfold getInfo.
  destruct (json_Marshal W _) as [err|buf]; [reflexivity|].
  destruct (http_Post W apiAddr buf) as [err|respBuf]; [reflexivity|].
  destruct (UnmarshalJSON W zero_apiResp respBuf) as [respData [err|]];
    cbn [fst create_calls]; rewrite ?create_calls_app, UnmarshalJSON_logs_create_calls; reflexivity.
Qed.

Lemma updateInfo_create_calls (W : World) (i : info) (timeConsumed : Z) :
  create_calls (fst (updateInfo W i timeConsumed)) = [].
Proof.
  unfold updateInfo.
  destruct (json_Marshal W _) as [err|buf]; [reflexivity|].
  destruct (http_Post W apiAddr buf) as [err|respBuf]; [reflexivity|].
  destruct (UnmarshalJSON W zero_apiResp respBuf) as [respData [err|]];
    [destruct (negb _)|]; cbn [fst create_calls];
    rewrite UnmarshalJSON_logs_create_calls; reflexivity.
Qed.

Lemma bootstrap_and_wait_create_calls (W : World) (l : LightClient) (metadata : info)
    (ev : list Event) (r : Out + Z) :
  bootstrap_and_wait W l metadata = Some (ev, r) -> create_calls ev = [].
Proof.
  intros H. apply bootstrap_and_wait_shape in H. cbv zeta in H.
  destruct H as (tail & -> & H).
  cbn [create_calls showStep app]. rewrite create_calls_app.
  destruct H as [(_ & -> & _)|[(_ & -> & _)|(_ & -> & _)]];
    destruct (_ <? _); reflexivity.
Qed.

(** X6. [Start] calls [os.Create] never when the metadata fetch fails or
    only the information is asked for, and exactly once otherwise, whatever
    happens later: on the destination as given, unless the destination is
    ".", in which case on "." followed by the path separator and the file
    name of the metadata.  So at most one file is created, and one is
    created only if that call succeeds: when it fails, [Start] returns at
    once with status 500, the message "Failed creating destination file"
    and the error as detail, having reported the step "Got metadata"
    only. *)
Theorem Start_calls_Create_once (W : World) (l : LightClient) (sharable : string)
    (onlyInfo stat progUpd : bool) :
  exists ev out,
    Start W l sharable onlyInfo stat progUpd = Some (ev, out)
    /\ match snd (getInfo W sharable "" (pubKey l)) with
       | inl _ => create_calls ev = []
       | inr metadata =>
           let path :=
             if String.eqb (destination l) "."
             then ("." ++ fpSeparator W ++ Filename (Cookie metadata))%string
             else destination l in
           create_calls ev = (if onlyInfo then [] else [path])
           /\ (onlyInfo = false ->
               forall err, os_Create W path = Some err ->
                 out = NewOut internalError (Text "Failed creating destination file")
                         err DataNil
                 /\ steps ev
                    = [(NewOut success (Text "Got metadata") "" DataNil, jsonOut l)])
       end.
Proof.
  destruct (Start_run W l sharable onlyInfo stat progUpd) as (ev & out & HS & H).
  exists ev, out. split; [exact HS|].
  pose proof (getInfo_create_calls W sharable "" (pubKey l)) as G.
  pose proof (getInfo_steps W sharable "" (pubKey l)) as G0.
  destruct (snd (getInfo W sharable "" (pubKey l))) as [err|metadata].
  - destruct H as [-> _]. rewrite create_calls_app, G. reflexivity.
  - destruct H as (evb & rb & Hb & -> & ->).
    pose proof (bootstrap_and_wait_create_calls _ _ _ _ _ Hb) as B.
    pose proof (updateInfo_create_calls W metadata (wrap64 (unix_after W - unix_before W))) as U.
    cbv zeta.
    assert (Hpath : destination_path W l metadata
                    = if String.eqb (destination l) "."
                      then ("." ++ fpSeparator W ++ Filename (Cookie metadata))%string
                      else destination l).
    { unfold destination_path.
      destruct (String.eqb_spec (destination l) ".") as [->|]; [|reflexivity].
      rewrite combineArgs_concat. reflexivity. }
    rewrite <- Hpath. split.
    + rewrite create_calls_app, G. cbn [app].
      unfold Start_stages. cbv zeta. cbn [run_stages].
      destruct onlyInfo; [reflexivity|].
      stage_cases ltac:(cbn [fst snd]; rewrite ?create_calls_app, ?B; reflexivity).
      destruct rb as [o|count].
      { cbn [fst snd]. rewrite ?create_calls_app, ?B. reflexivity. }
      cbn [fst snd].
      stage_cases ltac:(cbn [fst snd]; rewrite ?create_calls_app, ?B;
                        destruct progUpd; reflexivity).
      destruct stat; cbn [negb fst snd];
        rewrite ?create_calls_app, ?B, ?U;
        destruct progUpd; destruct (snd (updateInfo W metadata _)); reflexivity.
    + intros -> err Hcreate.
      unfold Start_stages. cbv zeta. cbn [run_stages].
      rewrite Hcreate. cbn [failing run_stages fst snd].
      split; [reflexivity|].
      rewrite steps_app, G0. reflexivity.
Qed.

(** ** The work of the retry goroutine *)

Section RetryMore.
Variable W : World.
Variable deadline : Z.
Variable leaders : list AddrInfo.
Variable jsonOut : bool.

(** The calls of [lite.Bootstrap] a list of events contains. *)
Fixpoint bootstraps (ev : list Event) : list (list AddrInfo) :=
  match ev with
  | [] => []
  | EvBootstrap ls :: rest => ls :: bootstraps rest
  | _ :: rest => bootstraps rest
  end.

Lemma bootstraps_app (ev1 ev2 : list Event) :
  bootstraps (ev1 ++ ev2) = bootstraps ev1 ++ bootstraps ev2.
Proof.
  induction ev1 as [|e ev1 IH]; [reflexivity|].
  destruct e; cbn [app bootstraps]; rewrite IH; reflexivity.
Qed.

(** What a pass that stops leaves behind. *)
Lemma retry_stop (start : Z) (s : Retry) (e : RetryEnd) (t : Z) (ev : list Event) :
  retry_iteration W deadline leaders jsonOut start s = Stop e t ev ->
  bootstraps ev = []
  /\ steps ev = (match e with
                 | RetryGaveUp => [step "Download timed out" jsonOut]
                 | _ => []
                 end)
  /\ (e = RetryGaveUp -> Minute * 15 < t - start /\ t <= deadline).
Proof.
  unfold retry_iteration.
  destruct (rt_count s <? peerThreshold); cbn [negb].
  - destruct (select_ctx_after W deadline g_retry (rt_now s) (Second * 30)) as [t'|t'] eqn:E.
    + intros [= <- <- <-]. repeat split; discriminate.
    + destruct (Z.gtb_spec (t' - start) (Minute * 15)).
      * intros [= <- <- <-]. apply select_timer in E.
        repeat split; try reflexivity; lia.
      * destruct (_ <? _); [destruct (lite_Bootstrap W _ _)|]; discriminate.
  - intros [= <- <- <-]. repeat split; discriminate.
Qed.

Lemma retry_continue_events (start : Z) (s s' : Retry) (wrote : bool)
    (ev : list Event) :
  retry_iteration W deadline leaders jsonOut start s = Continue s' wrote ev ->
  ev = if wrote
       then EvBootstrap leaders :: showStep success "Re-Bootstrapped" jsonOut
       else [].
Proof.
  unfold retry_iteration.
  destruct (rt_count s <? peerThreshold); cbn [negb]; [|discriminate].
  destruct (select_ctx_after W deadline g_retry (rt_now s) (Second * 30)) as [t'|t'];
    [discriminate|].
  destruct (_ >? _); [discriminate|].
  destruct (_ <? _); [destruct (lite_Bootstrap W _ _)|]; intros [= <- <- <-]; reflexivity.
Qed.

Lemma retry_loop_trace :
  forall (fuel : nat) (start : Z) (s : Retry) (r : RetryRun),
    retry_loop W deadline leaders jsonOut fuel start s = Some r ->
    bootstraps (rr_events r) = repeat leaders (length (rr_writes r))
    /\ steps (rr_events r)
       = repeat (step "Re-Bootstrapped" jsonOut) (length (rr_writes r))
           ++ (match rr_end r with
               | RetryGaveUp => [step "Download timed out" jsonOut]
               | _ => []
               end)
    /\ (rr_end r = RetryGaveUp -> Minute * 15 < rr_at r - start /\ rr_at r <= deadline)
    /\ Z.of_nat (length (rr_writes r)) * (Second * 30)
       <= Z.max 0 (Minute * 15 - (rt_now s - start))
    /\ Forall (fun w => rt_now s + Second * 30 <= fst w) (rr_writes r)
    /\ StronglySorted (fun w1 w2 => fst w1 + Second * 30 <= fst w2) (rr_writes r).
Proof.
  induction fuel as [|fuel IH]; intros start s r H; [discriminate|].
  cbn [retry_loop] in H.
  destruct (retry_iteration W deadline leaders jsonOut start s) as [s' wrote ev|e t ev] eqn:E.
  - destruct (retry_loop W deadline leaders jsonOut fuel start s') as [r'|] eqn:L; [|discriminate].
    injection H as <-. cbn [rr_writes rr_events rr_end rr_at].
    pose proof (retry_continue_events _ _ _ _ _ E) as ->.
    apply retry_continue in E. destruct E as (_ & Hnow & Hstart & _).
    destruct (IH _ _ _ L) as (Hb & Hs & Hg & Hlen & Hall & Hsorted).
    rewrite bootstraps_app, steps_app, Hb, Hs, length_app.
    assert (Hall' : Forall (fun w => rt_now s + Second * 30 <= fst w) (rr_writes r')).
    { eapply Forall_impl; [|exact Hall]. cbn. intros w Hw. time_lia. }
    destruct wrote; cbn [length Nat.add bootstraps steps showStep app repeat].
    + split; [reflexivity|]. split; [reflexivity|]. split; [exact Hg|]. split.
      * time_lia.
      * split; [constructor; [cbn [fst]; exact Hnow | exact Hall']|].
        constructor; [exact Hsorted | exact Hall].
    + split; [reflexivity|]. split; [reflexivity|]. split; [exact Hg|]. split.
      * time_lia.
      * split; [exact Hall' | exact Hsorted].
  - injection H as <-. cbn [rr_writes rr_events rr_end rr_at length repeat app].
    destruct (retry_stop _ _ _ _ _ E) as (Hb & Hs & Hg).
    split; [exact Hb|]. split; [exact Hs|]. split; [exact Hg|]. split; [lia|].
    split; constructor.
Qed.

(** X8. The retry goroutine always ends, and calls [Bootstrap] at most 30
    times, each time on the leaders of the metadata: the first store to
    [count] comes no earlier than 30 seconds after its start, and two
    successive stores are at least 30 seconds apart. *)
Theorem retry_calls_bounded (start count : Z) :
  exists r,
    retry_task W deadline leaders jsonOut start count = Some r
    /\ (length (rr_writes r) <= 30)%nat
    /\ bootstraps (rr_events r) = repeat leaders (length (rr_writes r))
    /\ Forall (fun w => start + Second * 30 <= fst w) (rr_writes r)
    /\ StronglySorted (fun w1 w2 => fst w1 + Second * 30 <= fst w2) (rr_writes r).
Proof.
  destruct (retry_task_total W deadline leaders jsonOut start count) as [r Hr].
  exists r. split; [exact Hr|].
  apply retry_loop_trace in Hr. cbn [rt_now] in Hr.
  destruct Hr as (Hb & _ & _ & Hlen & Hall & Hsorted).
  split; [time_lia|]. split; [exact Hb|]. split; [exact Hall | exact Hsorted].
Qed.

(** X9. The retry goroutine reports one step "Re-Bootstrapped" for each
    [Bootstrap] it called and, exactly when it gives up, a last step
    "Download timed out"; every one of them carries status 200 (the
    [timeoutError] handed to [showStep] is not used), no detail and no
    data. *)
Theorem retry_steps (start count : Z) :
  exists r,
    retry_task W deadline leaders jsonOut start count = Some r
    /\ steps (rr_events r)
       = repeat (NewOut success (Text "Re-Bootstrapped") "" DataNil, jsonOut)
           (length (rr_writes r))
           ++ (match rr_end r with
               | RetryGaveUp =>
                   [(NewOut success (Text "Download timed out") "" DataNil, jsonOut)]
               | _ => []
               end).
Proof.
  destruct (retry_task_total W deadline leaders jsonOut start count) as [r Hr].
  exists r. split; [exact Hr|].
  apply retry_loop_trace in Hr. apply Hr.
Qed.

(** X10. When the deadline of the session is no later than 15 minutes
    after the start of the retry goroutine, the goroutine never gives up by
    itself: it ends because [count] reached the threshold or because the
    context is done, and reports no step "Download timed out". *)
Theorem retry_gives_up_only_after_15_minutes (start count : Z) :
  deadline <= start + Minute * 15 ->
  exists r,
    retry_task W deadline leaders jsonOut start count = Some r
    /\ rr_end r <> RetryGaveUp
    /\ steps (rr_events r)
       = repeat (step "Re-Bootstrapped" jsonOut) (length (rr_writes r)).
Proof.
  intros Hd.
  destruct (retry_task_total W deadline leaders jsonOut start count) as [r Hr].
  exists r. split; [exact Hr|].
  apply retry_loop_trace in Hr.
  destruct Hr as (_ & Hs & Hg & _).
  assert (Hend : rr_end r <> RetryGaveUp) by (intros E; specialize (Hg E); lia).
  split; [exact Hend|]. rewrite Hs.
  destruct (rr_end r); try apply app_nil_r. now contradiction Hend.
Qed.

(** A run that never finds [count] below the number of leaders. *)
Lemma retry_loop_idle (start count : Z) :
  count < peerThreshold ->
  Z.of_nat (length leaders) <= count ->
  start + Minute * 15 + Second * 30 < deadline ->
  forall (fuel : nat) (s : Retry) (r : RetryRun),
    rt_count s = count ->
    (exists k, 0 <= k /\ rt_now s = start + k * (Second * 30)
               /\ rt_now s - start <= Minute * 15) ->
    retry_loop W deadline leaders jsonOut fuel start s = Some r ->
    rr_writes r = [] /\ rr_count r = count /\ rr_end r = RetryGaveUp
    /\ rr_at r = start + Minute * 15 + Second * 30
    /\ rr_events r
       = EvLog Warn "Tried getting more peers for 15mins" []
           :: showStep timeoutError "Download timed out" jsonOut.
Proof.
  intros Hc Hl Hd.
  induction fuel as [|fuel IH]; intros s r Hs (k & Hk & Hnow & Hin) H; [discriminate|].
  cbn [retry_loop] in H. unfold retry_iteration in H.
  rewrite Hs in H.
  destruct (Z.ltb_spec count peerThreshold); [|lia]. cbn [negb] in H.
  unfold select_ctx_after in H.
  destruct (Z.leb_spec deadline (rt_now s)); [time_lia|].
  destruct (Z.ltb_spec deadline (rt_now s + Second * 30)); [time_lia|].
  destruct (Z.eqb_spec deadline (rt_now s + Second * 30)); [time_lia|].
  cbn [andb] in H.
  destruct (Z.gtb_spec (rt_now s + Second * 30 - start) (Minute * 15)).
  - injection H as <-. cbn [rr_writes rr_count rr_end rr_at rr_events].
    repeat split; try assumption.
    assert (k = 30) by time_lia. subst k. time_lia.
  - destruct (Z.ltb_spec count (Z.of_nat (length leaders))); [lia|].
    destruct (retry_loop W deadline leaders jsonOut fuel start _) as [r'|] eqn:L;
      [|discriminate].
    injection H as <-. cbn [rr_writes rr_count rr_end rr_at rr_events app].
    apply IH in L; [exact L | reflexivity|].
    cbn [rt_now]. exists (k + 1). split; [lia|]. split; [rewrite Hnow; ring | lia].
Qed.

(** A run that never finds [count] below the number of leaders, whatever
    the deadline. *)
Lemma retry_loop_unchanged (start count : Z) :
  count < peerThreshold ->
  Z.of_nat (length leaders) <= count ->
  forall (fuel : nat) (s : Retry) (r : RetryRun),
    rt_count s = count ->
    retry_loop W deadline leaders jsonOut fuel start s = Some r ->
    rr_writes r = [] /\ rr_count r = count /\ rr_end r <> RetryDone.
Proof.
  intros Hc Hl.
  induction fuel as [|fuel IH]; intros s r Hs H; [discriminate|].
  cbn [retry_loop] in H.
  destruct (retry_iteration W deadline leaders jsonOut start s) as [s' wrote ev|e t ev] eqn:E.
  - destruct (retry_loop W deadline leaders jsonOut fuel start s') as [r'|] eqn:L;
      [|discriminate].
    injection H as <-. cbn [rr_writes rr_count rr_end].
    apply retry_continue in E. destruct E as (_ & _ & _ & Hw).
    destruct wrote; [lia|]. destruct Hw as [Hs' _].
    apply IH in L; [exact L | congruence].
  - injection H as <-. cbn [rr_writes rr_count rr_end].
    split; [reflexivity|]. split; [exact Hs|].
    intros ->. unfold retry_iteration in E. rewrite Hs in E.
    destruct (Z.ltb_spec count peerThreshold); [|lia]. cbn [negb] in E.
    destruct (select_ctx_after W deadline g_retry (rt_now s) (Second * 30));
      [discriminate|].
    destruct (_ >? _); [discriminate|].
    destruct (_ <? _); [destruct (lite_Bootstrap W _ _)|]; discriminate.
Qed.

(** X11. When the first [Bootstrap] returned less than 5 but no less than
    the number of leaders (fewer than 5 leaders, all connected), the retry
    goroutine never calls [Bootstrap] and never changes [count], whatever
    the deadline: it ends because the context is done or because it gives
    up, never because the threshold is reached, and reports no step but
    "Download timed out", which it reports exactly when it gives up.  It
    gives up only at a tick more than 15 minutes after its start; it does
    give up when the context is still not done 15 minutes and 30 seconds
    after its start, timers taken to fire on time.  Here [deadline] is the
    instant from which the context is done: the deadline of the session
    or, if it comes first, the return of [Start], whose deferred [cancel]
    ends the context. *)
Theorem few_leaders_retry_idles (start count : Z) :
  count < peerThreshold ->
  Z.of_nat (length leaders) <= count ->
  exists r,
    retry_task W deadline leaders jsonOut start count = Some r
    /\ rr_writes r = []
    /\ bootstraps (rr_events r) = []
    /\ rr_count r = count
    /\ rr_end r <> RetryDone
    /\ steps (rr_events r)
       = (match rr_end r with
          | RetryGaveUp =>
              [(NewOut success (Text "Download timed out") "" DataNil, jsonOut)]
          | _ => []
          end)
    /\ (rr_end r = RetryGaveUp -> Minute * 15 < rr_at r - start)
    /\ (start + Minute * 15 + Second * 30 < deadline -> rr_end r = RetryGaveUp).
Proof.
  intros Hc Hl.
  destruct (retry_task_total W deadline leaders jsonOut start count) as [r Hr].
  exists r. split; [exact Hr|].
  pose proof Hr as Hu. unfold retry_task in Hu.
  apply (retry_loop_unchanged start count Hc Hl) in Hu; [|reflexivity].
  destruct Hu as (Hw & Hcount & Hend).
  pose proof (retry_loop_trace _ _ _ _ Hr) as (Hb & Hs & Hg & _).
  rewrite Hw in Hb, Hs. cbn [length repeat app] in Hb, Hs.
  split; [exact Hw|]. split; [exact Hb|]. split; [exact Hcount|].
  split; [exact Hend|]. split; [exact Hs|].
  split; [intros E; apply (Hg E)|].
  intros Hd.
  apply (retry_loop_idle start count Hc Hl Hd) in Hr; [apply Hr | reflexivity |].
  cbn [rt_now]. exists 0. split; [lia|]. split; [ring | time_lia].
Qed.

End RetryMore.

Lemma retry_gives_up_only_after_15_minutes_witness :
  let W := sample_world (fun _ => (0, 0%N)) (inl "connection refused") ([], None) in
  Minute * 15 <= 2000000000 + Minute * 15
  /\ exists r,
       retry_task W (Minute * 15) sample_leaders false 2000000000 0 = Some r
       /\ rr_end r <> RetryGaveUp
       /\ steps (rr_events r)
          = repeat (step "Re-Bootstrapped" false) (length (rr_writes r)).
Proof.
  intro W.
  assert (H : Minute * 15 <= 2000000000 + Minute * 15) by (vm_compute; discriminate).
  split; [exact H|].
  exact (retry_gives_up_only_after_15_minutes W (Minute * 15) sample_leaders false
           2000000000 0 H).
Defined.

Lemma few_leaders_retry_idles_witness :
  let W := sample_world (fun _ => (3, 0%N)) (inl "connection refused") ([], None) in
  let leaders := firstn 3 sample_leaders in
  (3 < peerThreshold /\ Z.of_nat (length leaders) <= 3)
  /\ exists r,
       retry_task W (Minute * 45) leaders false 2000000000 3 = Some r
       /\ rr_writes r = []
       /\ bootstraps (rr_events r) = []
       /\ rr_count r = 3
       /\ rr_end r <> RetryDone
       /\ steps (rr_events r)
          = (match rr_end r with
             | RetryGaveUp =>
                 [(NewOut success (Text "Download timed out") "" DataNil, false)]
             | _ => []
             end)
       /\ (rr_end r = RetryGaveUp -> Minute * 15 < rr_at r - 2000000000)
       /\ (2000000000 + Minute * 15 + Second * 30 < Minute * 45
           -> rr_end r = RetryGaveUp).
Proof.
  intros W leaders.
  assert (H1 : 3 < peerThreshold) by reflexivity.
  assert (H2 : Z.of_nat (length leaders) <= 3) by (vm_compute; discriminate).
  split; [exact (conj H1 H2)|].
  exact (few_leaders_retry_idles W (Minute * 45) leaders false 2000000000 3 H1 H2).
Defined.

(** Three leaders, all connected by the first [Bootstrap]: with a deadline
    of 45 minutes the goroutine gives up at its 31st tick, with one of 10
    minutes it ends when the context is done; it reports "Download timed
    out" in the first case only. *)
Example few_leaders_sample_runs :
  let W := sample_world (fun _ => (3, 0%N)) (inl "connection refused") ([], None) in
  let leaders := firstn 3 sample_leaders in
  let run deadline :=
    option_map (fun r => (rr_end r, rr_at r - 2000000000, length (steps (rr_events r))))
      (retry_task W deadline leaders false 2000000000 3) in
  run (Minute * 45) = Some (RetryGaveUp, Minute * 15 + Second * 30, 1%nat)
  /\ run (Minute * 10) = Some (RetryCancelled, Minute * 10 - 2000000000, 0%nat).
Proof. vm_compute. split; reflexivity. Qed.

(** ** A swarm that never answers *)

Lemma adds_zero (W : World) (leaders : list AddrInfo) :
  (forall k, fst (lite_Bootstrap W k leaders) = 0) ->
  forall (vals : list Z) (k : nat),
    adds_results W leaders 0 k vals -> Forall (fun v => v = 0) vals.
Proof.
  intros Hz. induction vals as [|v rest IH]; intros k H; [constructor|].
  cbn [adds_results] in H. destruct H as [Hv Hrest].
  rewrite Hz in Hv. cbn in Hv. subst v.
  constructor; [reflexivity | exact (IH _ Hrest)].
Qed.

Lemma count_at_zero (writes : list (Z * Z)) (t : Z) :
  Forall (fun v => v = 0) (map snd writes) -> count_at writes 0 t = 0.
Proof.
  induction writes as [|[tw v] rest IH]; cbn [map snd count_at]; intros H;
    [reflexivity|].
  inversion H as [|? ? Hv Hrest]; subst.
  destruct (tw <=? t); [apply IH; exact Hrest | reflexivity].
Qed.

(** With no peer ever connected, a run of the goroutine stores nothing but
    0 and does not see the threshold reached. *)
Lemma retry_loop_zero (W : World) (deadline : Z) (leaders : list AddrInfo)
    (jsonOut : bool) :
  (forall k, fst (lite_Bootstrap W k leaders) = 0) ->
  forall (fuel : nat) (start : Z) (s : Retry) (r : RetryRun),
    rt_count s = 0 ->
    retry_loop W deadline leaders jsonOut fuel start s = Some r ->
    Forall (fun w => snd w = 0) (rr_writes r)
    /\ rr_count r = 0
    /\ rr_end r <> RetryDone.
Proof.
  intros Hz.
  induction fuel as [|fuel IH]; intros start s r Hs H; [discriminate|].
  cbn [retry_loop] in H.
  destruct (retry_iteration W deadline leaders jsonOut start s) as [s' wrote ev|e t ev] eqn:E.
  - destruct (retry_loop W deadline leaders jsonOut fuel start s') as [r'|] eqn:L; [|discriminate].
    injection H as <-. cbn [rr_writes rr_count rr_end].
    apply retry_continue in E. destruct E as (_ & _ & _ & Hw).
    assert (Hs' : rt_count s' = 0).
    { destruct wrote.
      - destruct Hw as (_ & -> & _). rewrite Hs, Hz. reflexivity.
      - destruct Hw as [-> _]. exact Hs. }
    destruct (IH _ _ _ Hs' L) as (Fw & Fc & Fe).
    split; [|split; [exact Fc | exact Fe]].
    destruct wrote; cbn [app]; [constructor; [exact Hs' | exact Fw] | exact Fw].
  - injection H as <-. cbn [rr_writes rr_count rr_end].
    split; [constructor|]. split; [exact Hs|].
    intros ->. unfold retry_iteration in E. rewrite Hs in E.
    change (negb (0 <? peerThreshold)) with false in E. cbv iota in E.
    destruct (select_ctx_after W deadline g_retry (rt_now s) (Second * 30));
      [discriminate|].
    destruct (_ >? _); [discriminate|].
    destruct (_ <? _); [destruct (lite_Bootstrap W _ _)|]; discriminate.
Qed.

(** X7. In a session whose setup succeeds and in which every [Bootstrap]
    on the leaders connects no peer, [Start] returns the failure "Stopped
    while waiting for peers" with status 500 and detail "context
    cancelled", after one call of [os.Create], on the destination path.
    The main flow has then reported the steps "Got metadata", "Download
    agent created" and "Bootstrapped" and no other.  It has also started
    the retry goroutine, which reports steps of its own: one
    "Re-Bootstrapped" for each [Bootstrap] it calls, each on the leaders of
    the metadata, and "Download timed out" if it gives up.  Every store of
    the goroutine leaves [count] at 0, and it ends because the context is
    done or because it gives up, never because the threshold is
    reached. *)
Theorem never_connected_session_stops (W : World) (l : LightClient)
    (sharable : string) (stat progUpd : bool) (metadata : info) :
  setup_succeeds W l sharable metadata ->
  (forall k, fst (lite_Bootstrap W k (Leaders (Cookie metadata))) = 0) ->
  exists ev r,
    Start W l sharable false stat progUpd
    = Some (ev, NewOut internalError (Text "Stopped while waiting for peers")
                  "context cancelled" DataNil)
    /\ create_calls ev = [destination_path W l metadata]
    /\ steps ev
       = map (fun m => (NewOut success (Text m) "" DataNil, jsonOut l))
           ["Got metadata"; "Download agent created"; "Bootstrapped"]
    /\ In EvSpawnRetry ev
    /\ retry_task W (timeout l) (Leaders (Cookie metadata)) (jsonOut l)
         (Z.of_N (bootstrapped_at W)) 0 = Some r
    /\ steps (rr_events r)
       = repeat (NewOut success (Text "Re-Bootstrapped") "" DataNil, jsonOut l)
           (length (rr_writes r))
           ++ (match rr_end r with
               | RetryGaveUp =>
                   [(NewOut success (Text "Download timed out") "" DataNil, jsonOut l)]
               | _ => []
               end)
    /\ bootstraps (rr_events r)
       = repeat (Leaders (Cookie metadata)) (length (rr_writes r))
    /\ Forall (fun w => snd w = 0) (rr_writes r)
    /\ rr_count r = 0
    /\ rr_end r <> RetryDone.
Proof.
  intros Hsetup Hz.
  destruct (bootstrap_and_wait_returns W l metadata) as [[evb rb] Hb].
  pose proof (bootstrap_and_wait_shape _ _ _ _ _ Hb) as Hshape. cbv zeta in Hshape.
  destruct Hshape as (tail & Hev & Hcases).
  rewrite (Hz 0%nat) in *.
  destruct (retry_task_total W (timeout l) (Leaders (Cookie metadata)) (jsonOut l)
              (Z.of_N (bootstrapped_at W)) 0) as [r R].
  pose proof R as Radds. unfold retry_task in Radds.
  apply retry_loop_adds in Radds. cbn [rt_count rt_calls] in Radds.
  apply (adds_zero W _ Hz) in Radds.
  destruct Hcases as [(Hc & _)|[(_ & _ & c & writes & t & _ & Hpos & Hw & Hc)|(_ & Htail & Hr)]].
  - now contradiction Hc.
  - exfalso. unfold retry_writes in Hw. cbn [Z.ltb] in Hw.
    change (0 <? peerThreshold) with true in Hw.
    rewrite R in Hw. injection Hw as <-.
    rewrite (count_at_zero _ t Radds) in Hc. lia.
  - subst rb tail.
    destruct (Start_run W l sharable false stat progUpd) as (ev & out & HS & H).
    destruct Hsetup as (Hget & Hcreate & Hpsk & Hsetup & Hnew).
    rewrite Hget in H. destruct H as (evb' & rb' & Hb' & Hev' & Hout).
    rewrite Hb in Hb'. injection Hb' as <- <-.
    pose proof (getInfo_create_calls W sharable "" (pubKey l)) as G.
    unfold Start_stages in Hev', Hout. cbv zeta in Hev', Hout.
    rewrite Hcreate, Hpsk, Hsetup, Hnew in Hev', Hout.
    cbn [failing run_stages fst snd] in Hev', Hout.
    exists ev, r. subst out. split; [exact HS|].
    subst ev evb. change (0 <? peerThreshold) with true.
    cbn [showStep app].
    split; [rewrite create_calls_app, G; reflexivity|].
    split; [rewrite steps_app, (getInfo_steps W sharable "" (pubKey l)); reflexivity|].
    split; [apply in_or_app; right; cbn; tauto|].
    split; [exact R|].
    pose proof (retry_loop_trace _ _ _ _ _ _ _ _ R) as (Tb & Ts & _).
    split; [exact Ts|]. split; [exact Tb|].
    pose proof R as Rz. unfold retry_task in Rz.
    apply (retry_loop_zero W _ _ _ Hz) in Rz; [|reflexivity].
    destruct Rz as (Fw & Fc & Fe).
    split; [exact Fw|]. split; [exact Fc | exact Fe].
Qed.

Lemma never_connected_session_stops_witness :
  let W := sample_world (fun _ => (0, 0%N)) (inl "connection refused") ([], None) in
  let l := sample_client (Second * 3) in
  (setup_succeeds W l "abc123" sample_info
   /\ forall k, fst (lite_Bootstrap W k (Leaders (Cookie sample_info))) = 0)
  /\ exists ev r,
       Start W l "abc123" false false true
       = Some (ev, NewOut internalError (Text "Stopped while waiting for peers")
                     "context cancelled" DataNil)
       /\ create_calls ev = [destination_path W l sample_info]
       /\ steps ev
          = map (fun m => (NewOut success (Text m) "" DataNil, jsonOut l))
              ["Got metadata"; "Download agent created"; "Bootstrapped"]
       /\ In EvSpawnRetry ev
       /\ retry_task W (timeout l) (Leaders (Cookie sample_info)) (jsonOut l)
            (Z.of_N (bootstrapped_at W)) 0 = Some r
       /\ steps (rr_events r)
          = repeat (NewOut success (Text "Re-Bootstrapped") "" DataNil, jsonOut l)
              (length (rr_writes r))
              ++ (match rr_end r with
                  | RetryGaveUp =>
                      [(NewOut success (Text "Download timed out") "" DataNil, jsonOut l)]
                  | _ => []
                  end)
       /\ bootstraps (rr_events r)
          = repeat (Leaders (Cookie sample_info)) (length (rr_writes r))
       /\ Forall (fun w => snd w = 0) (rr_writes r)
       /\ rr_count r = 0
       /\ rr_end r <> RetryDone.
Proof.
  intros W l.
  assert (Hsetup : setup_succeeds W l "abc123" sample_info)
    by (repeat split; reflexivity).
  assert (Hz : forall k, fst (lite_Bootstrap W k (Leaders (Cookie sample_info))) = 0)
    by (intro k; reflexivity).
  split; [exact (conj Hsetup Hz)|].
  exact (never_connected_session_stops W l "abc123" false true sample_info Hsetup Hz).
Defined.

(** With a deadline of 15 minutes and leaders that never answer, the retry
    goroutine calls [Bootstrap] 29 times and reports 29 steps
    "Re-Bootstrapped" before the context is done. *)
Example never_connected_retry_steps :
  let W := sample_world (fun _ => (0, 0%N)) (inl "connection refused") ([], None) in
  option_map (fun r => (rr_end r, steps (rr_events r)))
    (retry_task W (Minute * 15) sample_leaders false (Z.of_N (bootstrapped_at W)) 0)
  = Some (RetryCancelled,
          repeat (NewOut success (Text "Re-Bootstrapped") "" DataNil, false) 29).
Proof. vm_compute. reflexivity. Qed.

(** ** What the percentage tells *)

(** X12. For a total of at most 2^52 bytes and a sampled size below the
    total, [prog] is not 100, the percentage handed to the observer lies
    between 0 and 99, and the monitor goes on to the next sample. *)
Theorem incomplete_file_below_100 (size total : Z) :
  0 < total <= 2 ^ 52 -> 0 <= size < total ->
  f64_eqb (progress size total) (float64_of_int 100) = false
  /\ 0 <= int_of_float64 (progress size total) <= 99
  /\ forall rest,
       monitor total (inr size :: rest)
       = {| p_percent := int_of_float64 (progress size total);
            p_size := size; p_total := total |} :: monitor total rest.
Proof.
  intros Ht Hs.
  assert (Ht63 : 0 < total < 2 ^ 63).
  { change (2 ^ 52) with 4503599627370496 in Ht.
    change (2 ^ 63) with 9223372036854775808. lia. }
  assert (H : f64_eqb (progress size total) (float64_of_int 100) = false
              /\ 0 <= int_of_float64 (progress size total) <= 99).
  { destruct (Z.eq_dec size 0) as [->|Hnz].
    - pose proof (percent_zero total Ht63) as Hz. unfold percent in Hz. rewrite Hz.
      split; [|lia].
      destruct (float64_of_int_rounds total Ht63) as (m & e & F & _).
      unfold progress. rewrite F. reflexivity.
    - destruct (progress_incomplete size total) as (m & e & P & M & L); try lia.
      rewrite P, float64_of_int_100.
      change (2 ^ 52) with 4503599627370496 in M.
      split.
      + destruct (f64_eqb (fin m e) (fin hundred_m (-46))) eqn:E; [|reflexivity].
        apply SFeqb_fin in E; [|lia|reflexivity].
        destruct E as [-> ->]. exfalso. revert L. unfold rle. vm_compute.
        intro L. now apply L.
      + pose proof (trunc_mono _ _ _ _ L) as T.
        change (trunc ninety_nine_m (-46)) with 99 in T.
        assert (T0 : 0 <= trunc m e).
        { unfold trunc. destruct (Z.leb_spec 0 e).
          - apply Z.mul_nonneg_nonneg; [lia | apply Z.pow_nonneg; lia].
          - apply Z.div_pos; [lia | apply pow2_pos; lia]. }
        rewrite int_of_fin by (unfold max_int; lia). lia. }
  destruct H as [He Hp]. split; [exact He|]. split; [exact Hp|].
  intro rest. cbn [monitor]. rewrite He. reflexivity.
Qed.

Lemma incomplete_file_below_100_witness :
  (0 < 100 <= 2 ^ 52 /\ 0 <= 29 < 100)
  /\ f64_eqb (progress 29 100) (float64_of_int 100) = false
  /\ 0 <= int_of_float64 (progress 29 100) <= 99
  /\ forall rest,
       monitor 100 (inr 29 :: rest)
       = {| p_percent := int_of_float64 (progress 29 100);
            p_size := 29; p_total := 100 |} :: monitor 100 rest.
Proof.
  assert (H1 : 0 < 100 <= 2 ^ 52) by (split; [reflexivity | vm_compute; discriminate]).
  assert (H2 : 0 <= 29 < 100) by lia.
  split; [exact (conj H1 H2)|].
  exact (incomplete_file_below_100 29 100 H1 H2).
Defined.

(** Beyond 2^53 bytes sizes are no longer told apart: a file one byte short
    of 2^62 already reads 100. *)
Example huge_file_reads_100_early :
  f64_eqb (progress (2 ^ 62 - 1) (2 ^ 62)) (float64_of_int 100) = true.
Proof. vm_compute. reflexivity. Qed.

(** An empty stream: the quotient is not a number (or infinite), never 100. *)
Lemma progress_of_empty (size : Z) :
  0 <= size <= max_int ->
  f64_eqb (progress size 0) (float64_of_int 100) = false.
Proof.
  intros Hs. destruct (Z.eq_dec size 0) as [->|Hnz]; [reflexivity|].
  destruct (float64_of_int_rounds size) as (m & e & F & _);
    [unfold max_int in Hs; lia|].
  unfold progress. rewrite F. reflexivity.
Qed.

(** X13. For a stream of size 0 the quotient is never 100, so the monitor
    never returns: it calls the observer for every successful [Stat]. *)
Theorem empty_file_never_completes (stats : list (result Z)) :
  Forall (fun size => 0 <= size <= max_int) (sampled stats) ->
  map p_size (monitor 0 stats) = sampled stats
  /\ Forall (fun c => f64_eqb (progress (p_size c) 0) (float64_of_int 100) = false)
       (monitor 0 stats).
Proof.
  induction stats as [|[err|size] rest IH]; cbn [monitor sampled]; intros H.
  - split; constructor.
  - apply IH. exact H.
  - inversion H as [|? ? Hs Hrest]; subst.
    rewrite (progress_of_empty size Hs). cbn [map p_size].
    destruct (IH Hrest) as [IH1 IH2].
    split; [now rewrite IH1|].
    constructor; [cbn [p_size]; exact (progress_of_empty size Hs) | exact IH2].
Qed.

Lemma empty_file_never_completes_witness :
  let stats := [inr 0; inl "stat: no such file"%string; inr 0] in
  Forall (fun size => 0 <= size <= max_int) (sampled stats)
  /\ map p_size (monitor 0 stats) = sampled stats
  /\ Forall (fun c => f64_eqb (progress (p_size c) 0) (float64_of_int 100) = false)
       (monitor 0 stats).
Proof.
  intro stats.
  assert (H : Forall (fun size => 0 <= size <= max_int) (sampled stats))
    by (repeat constructor; vm_compute; discriminate).
  split; [exact H|].
  exact (empty_file_never_completes stats H).
Defined.


(** X14. For a total below 2^53 bytes the percentage handed to the
    observer differs by at most one from the percentage computed exactly
    (100 times the size divided by the total, fraction discarded). *)
Theorem percent_within_one_point (size total : Z) :
  0 < total < 2 ^ 53 -> 0 <= size <= total ->
  100 * size / total - 1 <= int_of_float64 (progress size total)
                         <= 100 * size / total + 1.
Proof.
  intros Ht Hs. fold (percent size total).
  assert (Ht53 : 0 < total < 9007199254740992) by exact Ht.
  assert (Ht63 : 0 < total < 2 ^ 63)
    by (change (2 ^ 63) with 9223372036854775808; lia).
  set (F := 100 * size / total).
  assert (HF : F * total <= 100 * size < (F + 1) * total).
  { unfold F. pose proof (Z.div_mod (100 * size) total ltac:(lia)).
    pose proof (Z.mod_pos_bound (100 * size) total ltac:(lia)). nia. }
  assert (HF0 : 0 <= F <= 100).
  { unfold F. split; [apply Z.div_pos; lia|].
    apply Z.div_le_upper_bound; lia. }
  destruct (Z.eq_dec size 0) as [->|Hnz].
  { rewrite (percent_zero total Ht63). unfold F. cbn. lia. }
  assert (H100 : 0 < 100 < 2 ^ 53) by (split; reflexivity).
  split.
  - destruct (Z.eq_dec F 0) as [->|HFnz].
    + pose proof (percent_mono size size total ltac:(lia) ltac:(lia) ltac:(lia) Ht63). lia.
    + pose proof (percent_of_hundredths F HF0) as Hh.
      assert (percent F 100 <= percent size total); [|lia].
      apply (percent_mono_ratio F 100 size total); lia.
  - destruct (Z.eq_dec F 100) as [E|HFn].
    + pose proof (percent_mono size size total ltac:(lia) ltac:(lia) ltac:(lia) Ht63). lia.
    + pose proof (percent_of_hundredths (F + 1) ltac:(lia)) as Hh.
      assert (percent size total <= percent (F + 1) 100); [|lia].
      apply (percent_mono_ratio size total (F + 1) 100); lia.
Qed.

Lemma percent_within_one_point_witness :
  (0 < 100 < 2 ^ 53 /\ 0 <= 29 <= 100)
  /\ 100 * 29 / 100 - 1 <= int_of_float64 (progress 29 100) <= 100 * 29 / 100 + 1.
Proof.
  assert (H1 : 0 < 100 < 2 ^ 53) by (split; reflexivity).
  assert (H2 : 0 <= 29 <= 100) by lia.
  split; [exact (conj H1 H2)|].
  exact (percent_within_one_point 29 100 H1 H2).
Defined.

(** ** The monitor goroutine and the context *)

(** The calls of the observer among the actions. *)
Fixpoint updates (obs : list (Z * Observed)) : list ProgressCall :=
  match obs with
  | [] => []
  | (_, ObsUpdate c) :: rest => c :: updates rest
  | _ :: rest => updates rest
  end.

Fixpoint cancel_warnings (obs : list (Z * Observed)) : nat :=
  match obs with
  | [] => 0
  | (_, ObsLog Warn _ _) :: rest => S (cancel_warnings rest)
  | _ :: rest => cancel_warnings rest
  end.

(** X15. The calls the monitor goroutine makes to the observer do not
    depend on the clock, the deadline or the state of the context: they are
    the calls of [monitor] on the same results of [Stat].  In particular
    the goroutine does not return when the context is done. *)
Theorem monitor_calls_whatever_the_context (W : World) (deadline total : Z)
    (stats : list (result Z)) (now : Z) :
  updates (monitor_loop W deadline total stats now) = monitor total stats.
Proof.
  revert now. induction stats as [|[err|size] rest IH]; intro now;
    cbn [monitor_loop monitor updates].
  - reflexivity.
  - destruct (select_ctx_after _ _ _ _ _); cbn [updates]; apply IH.
  - f_equal. destruct (f64_eqb _ _); [reflexivity|].
    destruct (select_ctx_after _ _ _ _ _); cbn [updates]; apply IH.
Qed.

(** X16. Once the context is done, and as long as no sample reads 100, the
    monitor goroutine neither returns nor waits: every pass takes the
    [ctx.Done()] case at once, logs the warning, and the next pass begins
    at the same instant; it still calls the observer for every successful
    [Stat]. *)
Theorem monitor_spins_after_deadline (W : World) (deadline total : Z)
    (stats : list (result Z)) (now : Z) :
  deadline <= now ->
  Forall (fun size => f64_eqb (progress size total) (float64_of_int 100) = false)
    (sampled stats) ->
  Forall (fun a => fst a = now) (monitor_loop W deadline total stats now)
  /\ cancel_warnings (monitor_loop W deadline total stats now) = length stats
  /\ map p_size (updates (monitor_loop W deadline total stats now)) = sampled stats.
Proof.
  intros Hd.
  assert (Hsel : select_ctx_after W deadline g_progress now (Millisecond * 500)
                 = CtxDone now).
  { unfold select_ctx_after. destruct (Z.leb_spec deadline now); [reflexivity | lia]. }
  induction stats as [|[err|size] rest IH]; cbn [monitor_loop sampled]; intros Hs.
  - repeat split; constructor.
  - rewrite Hsel. destruct (IH Hs) as (IH1 & IH2 & IH3).
    cbn [cancel_warnings updates length]. split; [|split].
    + constructor; [reflexivity | exact IH1].
    + now rewrite IH2.
    + exact IH3.
  - inversion Hs as [|? ? Hsize Hrest]; subst.
    rewrite Hsize, Hsel. destruct (IH Hrest) as (IH1 & IH2 & IH3).
    cbn [cancel_warnings updates length map p_size]. split; [|split].
    + repeat (constructor; [reflexivity|]). exact IH1.
    + now rewrite IH2.
    + now rewrite IH3.
Qed.

Lemma monitor_spins_after_deadline_witness :
  let W := sample_world (fun _ => (5, 0%N)) (inl "connection refused") ([], None) in
  let stats := [inr 10; inl "stat: no such file"%string; inr 20] in
  let obs := monitor_loop W (Second * 3) 100 stats (Second * 3) in
  (Second * 3 <= Second * 3
   /\ Forall (fun size => f64_eqb (progress size 100) (float64_of_int 100) = false)
        (sampled stats))
  /\ Forall (fun a => fst a = Second * 3) obs
  /\ cancel_warnings obs = length stats
  /\ map p_size (updates obs) = sampled stats.
Proof.
  intros W stats obs.
  assert (H1 : Second * 3 <= Second * 3) by apply Z.le_refl.
  assert (H2 : Forall (fun size => f64_eqb (progress size 100) (float64_of_int 100) = false)
                 (sampled stats))
    by (repeat constructor).
  split; [exact (conj H1 H2)|].
  exact (monitor_spins_after_deadline W (Second * 3) 100 stats (Second * 3) H1 H2).
Defined.

(** While the deadline is ahead, a pass that does not complete is followed
    by the next half a second later. *)
Fixpoint pass_times (now : Z) (n : nat) : list Z :=
  match n with
  | O => []
  | S n => now :: pass_times (now + Millisecond * 500) n
  end.

(** X17. While the deadline is ahead and no sample reads 100, the monitor
    goroutine logs no warning and calls the observer every 500
    milliseconds, starting at once. *)
Theorem monitor_polls_twice_a_second (W : World) (deadline total : Z)
    (sizes : list Z) (now : Z) :
  now + Z.of_nat (length sizes) * (Millisecond * 500) < deadline ->
  Forall (fun size => f64_eqb (progress size total) (float64_of_int 100) = false) sizes ->
  let obs := monitor_loop W deadline total (map inr sizes) now in
  cancel_warnings obs = 0%nat
  /\ map p_size (updates obs) = sizes
  /\ map fst (filter (fun a => match snd a with ObsUpdate _ => true | _ => false end) obs)
     = pass_times now (length sizes).
Proof.
  cbv zeta. revert now.
  induction sizes as [|size rest IH]; intros now Hd Hs;
    cbn [map monitor_loop length pass_times].
  - repeat split.
  - inversion Hs as [|? ? Hsize Hrest]; subst. rewrite Hsize.
    assert (Hsel : select_ctx_after W deadline g_progress now (Millisecond * 500)
                   = TimerFired (now + Millisecond * 500)).
    { unfold select_ctx_after. cbn [length] in Hd.
      destruct (Z.leb_spec deadline now); [time_lia|].
      destruct (Z.ltb_spec deadline (now + Millisecond * 500)); [time_lia|].
      destruct (Z.eqb_spec deadline (now + Millisecond * 500)); [time_lia|].
      reflexivity. }
    rewrite Hsel.
    destruct (IH (now + Millisecond * 500)) as (IH1 & IH2 & IH3);
      [cbn [length] in Hd; time_lia | exact Hrest |].
    cbn [cancel_warnings updates map p_size filter snd fst].
    split; [exact IH1|]. split; [now rewrite IH2 | now rewrite IH3].
Qed.

Lemma monitor_polls_twice_a_second_witness :
  let W := sample_world (fun _ => (5, 0%N)) (inl "connection refused") ([], None) in
  let sizes := [10; 20; 30] in
  let obs := monitor_loop W (Second * 3) 100 (map inr sizes) 0 in
  (0 + Z.of_nat (length sizes) * (Millisecond * 500) < Second * 3
   /\ Forall (fun size => f64_eqb (progress size 100) (float64_of_int 100) = false) sizes)
  /\ cancel_warnings obs = 0%nat
  /\ map p_size (updates obs) = sizes
  /\ map fst (filter (fun a => match snd a with ObsUpdate _ => true | _ => false end) obs)
     = pass_times 0 (length sizes).
Proof.
  intros W sizes obs.
  assert (H1 : 0 + Z.of_nat (length sizes) * (Millisecond * 500) < Second * 3)
    by reflexivity.
  assert (H2 : Forall (fun size => f64_eqb (progress size 100) (float64_of_int 100) = false)
                 sizes)
    by (repeat constructor).
  split; [exact (conj H1 H2)|].
  exact (monitor_polls_twice_a_second W (Second * 3) 100 sizes 0 H1 H2).
Defined.

(** ** The command *)

(** The flags the command refuses. *)
Definition refused (f : litepeer.Flags) : bool :=
  (litepeer.enableLog f && litepeer.showProg f) || is_empty (litepeer.sharable f).

(** The effects of the library among those of the command. *)
Fixpoint library (ef : list litepeer.Effect) : list Event :=
  match ef with
  | [] => []
  | litepeer.Lib e :: rest => e :: library rest
  | _ :: rest => library rest
  end.

Lemma library_app (e1 e2 : list litepeer.Effect) :
  library (e1 ++ e2) = library e1 ++ library e2.
Proof.
  induction e1 as [|e e1 IH]; [reflexivity|].
  destruct e; cbn [app library]; rewrite IH; reflexivity.
Qed.

Lemma library_Lib (ev : list Event) : library (map litepeer.Lib ev) = ev.
Proof. induction ev as [|e ev IH]; [reflexivity|]. cbn. now rewrite IH. Qed.

Lemma In_Exit_Lib (code : Z) (ev : list Event) :
  ~ In (litepeer.Exit code) (map litepeer.Lib ev).
Proof. induction ev as [|e ev IH]; cbn; [tauto|]. intros [H|H]; [discriminate | tauto]. Qed.

Lemma NewLightClient_events (W : World) (destination timeout : string) (jsonOut : bool) :
  posts (fst (NewLightClient W destination timeout jsonOut)) = []
  /\ steps (fst (NewLightClient W destination timeout jsonOut)) = []
  /\ (forall lc, snd (NewLightClient W destination timeout jsonOut) = inr lc ->
      exists keys, crypto_GenerateKeyPair W = inr keys)
  /\ (forall err, snd (NewLightClient W destination timeout jsonOut) = inl err ->
      crypto_GenerateKeyPair W = inl err).
Proof.
  unfold NewLightClient.
  destruct (crypto_GenerateKeyPair W) as [err|[priv pubk]].
  - repeat split; try discriminate. now intros ? [= ->].
  - destruct (time_ParseDuration W timeout); cbn; repeat split; eauto; discriminate.
Qed.

Lemma last_returnError (ef : list litepeer.Effect) (err : string) :
  last (ef ++ litepeer.returnError err true) litepeer.Usage = litepeer.Exit 1.
Proof.
  unfold litepeer.returnError. cbn [app].
  change [litepeer.Println ("ERR: " ++ err); litepeer.Usage; litepeer.Exit 1]
    with ([litepeer.Println ("ERR: " ++ err); litepeer.Usage] ++ [litepeer.Exit 1]).
  rewrite app_assoc. apply last_last.
Qed.

(** X18. With -help the command prints the usage and nothing else.
    Otherwise, when -logToStderr and -progress are both given, or the
    sharable string is empty, or the key pair cannot be generated, it ends
    in [os.Exit(1)], having posted no request and reported no step (and,
    when the flags are refused, called nothing of the library).  In every
    other case it runs [Start] with an observer and, unless the control
    plane answers the fetch with the JSON value null (on which [getInfo]
    fails and the process with it), never calls [os.Exit(1)]: its last
    action is [OutMessage] on the result of [Start], whatever the status of
    that result. *)
Theorem main_exit_status (W : World) (f : litepeer.Flags) :
  (litepeer.help f = true -> litepeer.main W f = Some [litepeer.Usage])
  /\ (litepeer.help f = false ->
      refused f = true \/ (exists err, crypto_GenerateKeyPair W = inl err) ->
      exists ef,
        litepeer.main W f = Some ef
        /\ last ef litepeer.Usage = litepeer.Exit 1
        /\ posts (library ef) = [] /\ steps (library ef) = []
        /\ (refused f = true -> library ef = []))
  /\ (litepeer.help f = false -> refused f = false ->
      forall lc,
        snd (NewLightClient W (litepeer.destination f) (litepeer.timeout f)
               (litepeer.jsonOut f)) = inr lc ->
        answered_null W (litepeer.sharable f) "" (pubKey lc) = false ->
        exists ev out ef,
          Start W lc (litepeer.sharable f) (litepeer.onlyInfo f) (litepeer.stat f) true
          = Some (ev, out)
          /\ litepeer.main W f = Some ef
          /\ ~ In (litepeer.Exit 1) ef
          /\ last ef litepeer.Usage
             = litepeer.Lib (EvOutMessage out (litepeer.jsonOut f))).
Proof.
  unfold litepeer.main, litepeer.given, refused.
  destruct (litepeer.help f) eqn:Hh.
  { split; [reflexivity|]. split; discriminate. }
  split; [discriminate|].
  destruct (litepeer.enableLog f && litepeer.showProg f) eqn:C.
  { split; [|discriminate].
    intros _ _. eexists. split; [reflexivity|]. cbn. repeat split. }
  cbn [orb].
  set (level := if litepeer.enableLog f then [litepeer.SetLogLevel "*" "debug"] else []).
  assert (Hlevel : library level = [] /\ ~ In (litepeer.Exit 1) level).
  { unfold level. destruct (litepeer.enableLog f); cbn; split; try reflexivity;
      intros H; repeat destruct H as [H|H]; try discriminate; tauto. }
  destruct Hlevel as [Hl1 Hl2].
  destruct (is_empty (litepeer.sharable f)) eqn:S.
  { split; [|discriminate].
    intros _ _. eexists. split; [reflexivity|].
    split; [apply last_returnError|].
    rewrite library_app, Hl1. unfold litepeer.returnError.
    cbn [app library posts steps]. repeat split. }
  pose proof (NewLightClient_events W (litepeer.destination f) (litepeer.timeout f)
                (litepeer.jsonOut f)) as (Np & Ns & Nok & Nerr).
  destruct (NewLightClient W (litepeer.destination f) (litepeer.timeout f)
              (litepeer.jsonOut f)) as [ev [err|lc]]; cbn [fst snd] in *.
  { split; [|intros _ _ lc' E; discriminate E].
    intros _ _. eexists. split; [reflexivity|].
    split; [rewrite app_assoc; apply last_returnError|].
    rewrite !library_app, Hl1, library_Lib.
    unfold litepeer.returnError. cbn [app library].
    rewrite app_nil_r. split; [exact Np|split; [exact Ns|discriminate]]. }
  split.
  { intros _ [H|[err H]]; [discriminate|].
    destruct (Nok lc eq_refl) as [keys K]. congruence. }
  intros _ _ lc' [= <-] _.
  destruct (Start_returns W lc (litepeer.sharable f) (litepeer.onlyInfo f)
              (litepeer.stat f) true) as (ev' & out & HS).
  exists ev', out. rewrite HS. eexists.
  split; [reflexivity|]. split; [reflexivity|]. split.
  - intros H. apply in_app_or in H. destruct H as [H|H]; [tauto|].
    apply in_app_or in H. destruct H as [H|H]; [now apply In_Exit_Lib in H|].
    apply in_app_or in H. destruct H as [H|H]; [now apply In_Exit_Lib in H|].
    destruct H as [H|[]]. discriminate.
  - rewrite !app_assoc. apply last_last.
Qed.

(** ** The monitor is started for every copy *)

Definition is_copy (e : Event) : bool :=
  match e with EvCopy => true | _ => false end.
Definition is_spawn_progress (e : Event) : bool :=
  match e with EvSpawnProgress => true | _ => false end.

(** The events of the control-plane client and of the bootstrap step are
    requests, log lines, notifications, and the bootstrap itself. *)
Definition outside_transfer (e : Event) : Prop :=
  is_copy e = false /\ is_spawn_progress e = false.

Lemma filter_none (p : Event -> bool) (ev : list Event) :
  Forall (fun e => p e = false) ev -> filter p ev = [].
Proof.
  induction 1 as [|e ev He _ IH]; [reflexivity|]. cbn. now rewrite He, IH.
Qed.

Lemma UnmarshalJSON_logs_outside (W : World) (b : string) :
  Forall outside_transfer (UnmarshalJSON_logs W b).
Proof.
  unfold UnmarshalJSON_logs.
  destruct (json_Unmarshal_map W b); repeat constructor.
Qed.

Lemma getInfo_outside (W : World) (sharable oldCookie pubKB : string) :
  Forall outside_transfer (fst (getInfo W sharable oldCookie pubKB)).
Proof.
  unfold getInfo.
  destruct (json_Marshal W _) as [err|buf]; [constructor|].
  destruct (http_Post W apiAddr buf) as [err|respBuf]; [repeat constructor|].
  destruct (UnmarshalJSON W zero_apiResp respBuf) as [respData [err|]]; cbn [fst].
  - constructor; [split; reflexivity|]. apply Forall_app. split.
    + apply UnmarshalJSON_logs_outside.
    + repeat constructor.
  - constructor; [split; reflexivity|]. apply UnmarshalJSON_logs_outside.
Qed.

Lemma updateInfo_outside (W : World) (i : info) (timeConsumed : Z) :
  Forall outside_transfer (fst (updateInfo W i timeConsumed)).
Proof.
  unfold updateInfo.
  destruct (json_Marshal W _) as [err|buf]; [constructor|].
  destruct (http_Post W apiAddr buf) as [err|respBuf]; [repeat constructor|].
  destruct (UnmarshalJSON W zero_apiResp respBuf) as [respData [err|]];
    [destruct (negb _)|]; cbn [fst];
    (constructor; [split; reflexivity | apply UnmarshalJSON_logs_outside]).
Qed.

Lemma bootstrap_and_wait_outside (W : World) (l : LightClient) (metadata : info)
    (ev : list Event) (r : Out + Z) :
  bootstrap_and_wait W l metadata = Some (ev, r) -> Forall outside_transfer ev.
Proof.
  intros H. apply bootstrap_and_wait_shape in H. cbv zeta in H.
  destruct H as (tail & -> & H).
  constructor; [split; reflexivity|]. cbn [showStep app].
  constructor; [split; reflexivity|].
  apply Forall_app. split; [destruct (_ <? _); repeat constructor|].
  destruct H as [(_ & -> & _)|[(_ & -> & _)|(_ & -> & _)]]; repeat constructor.
Qed.

Lemma outside_filters (ev : list Event) :
  Forall outside_transfer ev ->
  filter is_copy ev = [] /\ filter is_spawn_progress ev = [].
Proof.
  intros H. split; apply filter_none; eapply Forall_impl; try exact H;
    intros e [H1 H2]; assumption.
Qed.

(** In a run of [Start], the monitor goroutine is started once for each
    copy when an observer is given, and never otherwise. *)
Lemma Start_spawns_monitor (W : World) (l : LightClient) (sharable : string)
    (onlyInfo stat progUpd : bool) (ev : list Event) (out : Out) :
  Start W l sharable onlyInfo stat progUpd = Some (ev, out) ->
  (length (filter is_copy ev) <= 1)%nat
  /\ length (filter is_spawn_progress ev)
     = if progUpd then length (filter is_copy ev) else 0%nat.
Proof.
  intros HS.
  destruct (Start_run W l sharable onlyInfo stat progUpd) as (ev1 & out1 & HS1 & H).
  rewrite HS in HS1. injection HS1 as <- <-.
  destruct (outside_filters _ (getInfo_outside W sharable "" (pubKey l))) as [G1 G2].
  destruct (snd (getInfo W sharable "" (pubKey l))) as [err|metadata].
  - destruct H as [-> _]. rewrite !filter_app, G1, G2. cbn.
    destruct progUpd; split; auto.
  - destruct H as (evb & rb & Hb & -> & _).
    destruct (outside_filters _ (bootstrap_and_wait_outside _ _ _ _ _ Hb)) as [B1 B2].
    destruct (outside_filters _
                (updateInfo_outside W metadata (wrap64 (unix_after W - unix_before W))))
      as [U1 U2].
    rewrite !filter_app, G1, G2. cbn [app].
    unfold Start_stages. cbv zeta. cbn [run_stages].
    destruct onlyInfo; [cbn; destruct progUpd; split; auto|].
    stage_cases ltac:(cbn [fst snd]; rewrite ?filter_app, ?B1, ?B2; cbn;
                      destruct progUpd; split; auto).
    destruct rb as [o|count].
    { cbn [fst snd]. rewrite ?filter_app, ?B1, ?B2. cbn.
      destruct progUpd; split; auto. }
    cbn [fst snd].
    stage_cases ltac:(cbn [fst snd]; rewrite ?filter_app, ?B1, ?B2;
                      destruct progUpd; cbn; split; auto).
    destruct stat; cbn [negb fst snd];
      rewrite ?filter_app, ?B1, ?B2, ?U1, ?U2;
      destruct progUpd; destruct (snd (updateInfo W metadata _)); cbn; split; auto.
Qed.

(** X19. The command hands [Start] the printing updater exactly when
    -progress is given without -info, and the silent one otherwise, never
    nil: in every run the monitor goroutine is started once for each copy
    (of which there is at most one), with or without -progress. *)
Theorem main_monitors_every_copy (W : World) (f : litepeer.Flags) :
  exists ef,
    litepeer.main W f = Some ef
    /\ (length (filter is_copy (library ef)) <= 1)%nat
    /\ length (filter is_spawn_progress (library ef))
       = length (filter is_copy (library ef))
    /\ (litepeer.updater f = litepeer.updateProgress (litepeer.jsonOut f)
        <-> litepeer.showProg f = true /\ litepeer.onlyInfo f = false)
    /\ (litepeer.updater f <> litepeer.updateProgress (litepeer.jsonOut f)
        -> litepeer.updater f = litepeer.noopProgress).
Proof.
  assert (Hupd :
    (litepeer.updater f = litepeer.updateProgress (litepeer.jsonOut f)
     <-> litepeer.showProg f = true /\ litepeer.onlyInfo f = false)
    /\ (litepeer.updater f <> litepeer.updateProgress (litepeer.jsonOut f)
        -> litepeer.updater f = litepeer.noopProgress)).
  { unfold litepeer.updater.
    destruct (litepeer.onlyInfo f), (litepeer.showProg f); cbn;
      split; try tauto; try (split; [discriminate | intros [? ?]; discriminate]);
      try (split; auto); intros H; now contradiction H. }
  unfold litepeer.main, litepeer.given.
  destruct (litepeer.help f); [eexists; split; [reflexivity|]; cbn; auto|].
  destruct (litepeer.enableLog f && litepeer.showProg f);
    [eexists; split; [reflexivity|]; cbn; auto|].
  set (level := if litepeer.enableLog f then [litepeer.SetLogLevel "*" "debug"] else []).
  assert (Hl : library level = [])
    by (unfold level; destruct (litepeer.enableLog f); reflexivity).
  destruct (is_empty (litepeer.sharable f)).
  { eexists. split; [reflexivity|]. rewrite library_app, Hl. cbn. auto. }
  destruct (NewLightClient W (litepeer.destination f) (litepeer.timeout f)
              (litepeer.jsonOut f)) as [ev [err|lc]] eqn:N.
  { eexists. split; [reflexivity|]. rewrite !library_app, Hl, library_Lib.
    assert (Hev : filter is_copy ev = [] /\ filter is_spawn_progress ev = []).
    { unfold NewLightClient in N.
      destruct (crypto_GenerateKeyPair W) as [e|[priv pubk]].
      - injection N as <- _. split; reflexivity.
      - destruct (time_ParseDuration W _); discriminate N. }
    destruct Hev as [E1 E2]. cbn [app library litepeer.returnError].
    rewrite !filter_app, E1, E2. cbn. auto. }
  destruct (Start_returns W lc (litepeer.sharable f) (litepeer.onlyInfo f)
              (litepeer.stat f) true) as (ev' & out & HS).
  rewrite HS. eexists. split; [reflexivity|].
  rewrite !library_app, Hl, !library_Lib. cbn [app library].
  assert (Hev : filter is_copy ev = [] /\ filter is_spawn_progress ev = []).
  { unfold NewLightClient in N.
    destruct (crypto_GenerateKeyPair W) as [e|[priv pubk]]; [discriminate N|].
    destruct (time_ParseDuration W _); injection N as <- _; split; reflexivity. }
  destruct Hev as [E1 E2].
  destruct (Start_spawns_monitor _ _ _ _ _ _ _ _ HS) as [S1 S2].
  rewrite !filter_app, E1, E2. cbn [app filter is_copy is_spawn_progress].
  rewrite !app_nil_r. auto.
Qed.

(** Two runs of the command in the sample world: without arguments, and
    asking in JSON for the information of a sharable. *)
Example main_sample_runs :
  let W := sample_world (fun _ => (5, 0%N)) (inl "connection refused") ([], None) in
  let f := {| litepeer.destination := "."; litepeer.sharable := "abc123";
              litepeer.timeout := "15m"; litepeer.onlyInfo := true;
              litepeer.stat := false; litepeer.enableLog := false;
              litepeer.showProg := true; litepeer.jsonOut := true;
              litepeer.help := false |} in
  litepeer.main W litepeer.defaults
  = Some [litepeer.Println "ERR: Sharable string not provided";
          litepeer.Usage; litepeer.Exit 1]
  /\ option_map (fun ef => last ef litepeer.Usage) (litepeer.main W f)
     = Some (litepeer.Lib
               (EvOutMessage (NewOut success MetaInfo "" (DataInfo sample_info)) true))
  /\ litepeer.updater f = litepeer.noopProgress.
Proof. vm_compute. repeat split. Qed.

(** ** The leaders of a refreshed metadata *)

Lemma found_existsb (known : list AddrInfo) (v : AddrInfo) :
  earlier.found known v = existsb (fun x => String.eqb (ID x) (ID v)) known.
Proof.
  induction known as [|x rest IH]; [reflexivity|]. cbn.
  destruct (String.eqb (ID x) (ID v)); [reflexivity | exact IH].
Qed.

Lemma found_In (known : list AddrInfo) (v : AddrInfo) :
  earlier.found known v = true <-> In (ID v) (map ID known).
Proof.
  induction known as [|x rest IH]; cbn; [split; [discriminate | tauto]|].
  destruct (String.eqb_spec (ID x) (ID v)) as [E|E].
  - split; auto.
  - rewrite IH. split; [auto | intros [H|H]; [contradiction | exact H]].
Qed.

Lemma newLeadersToAdd_loop_filter (known visit acc : list AddrInfo) :
  earlier.newLeadersToAdd_loop known visit acc
  = acc ++ filter (fun v => negb (earlier.found known v)) visit.
Proof.
  revert acc. induction visit as [|v rest IH]; intro acc; cbn.
  - now rewrite app_nil_r.
  - rewrite IH. destruct (earlier.found known v); cbn; [reflexivity|].
    now rewrite <- app_assoc.
Qed.

Lemma newLeadersToAdd_filter (known fresh : list AddrInfo) :
  earlier.newLeadersToAdd known fresh
  = filter (fun v => negb (earlier.found known v)) fresh.
Proof. unfold earlier.newLeadersToAdd. now rewrite newLeadersToAdd_loop_filter. Qed.

Lemma newLeadersToAdd_known (known fresh : list AddrInfo) :
  Forall (fun v => In (ID v) (map ID known)) fresh ->
  earlier.newLeadersToAdd known fresh = [].
Proof.
  intros H. rewrite newLeadersToAdd_filter.
  induction H as [|v rest Hv _ IH]; [reflexivity|]. cbn.
  apply found_In in Hv. now rewrite Hv.
Qed.

(** X20. First revision: the leaders the retry goroutine bootstraps after
    a refresh are the refreshed leaders whose ID is not the ID of a leader
    of the first metadata, in the order of the refreshed list and with
    their repetitions; selecting again from the selection changes nothing,
    and nothing is selected from the known leaders themselves. *)
Theorem new_leaders_are_the_unknown_ones (known fresh : list AddrInfo) :
  earlier.newLeadersToAdd known fresh
  = filter (fun v => negb (existsb (fun x => String.eqb (ID x) (ID v)) known)) fresh
  /\ (forall v, In v (earlier.newLeadersToAdd known fresh)
                <-> In v fresh /\ ~ In (ID v) (map ID known))
  /\ earlier.newLeadersToAdd known (earlier.newLeadersToAdd known fresh)
     = earlier.newLeadersToAdd known fresh
  /\ earlier.newLeadersToAdd known known = [].
Proof.
  pose proof (newLeadersToAdd_filter known) as E.
  split; [|split; [|split]].
  - rewrite E. apply filter_ext. intro v. now rewrite found_existsb.
  - intro v. rewrite E, filter_In, negb_true_iff, <- found_In.
    destruct (earlier.found known v); split; intros [H1 H2]; split; auto;
      try discriminate; now contradiction H2.
  - rewrite !E. induction fresh as [|v rest IH]; [reflexivity|]. cbn.
    destruct (earlier.found known v) eqn:F; cbn; [exact IH|].
    rewrite F. cbn. now rewrite IH.
  - apply newLeadersToAdd_known. apply Forall_forall.
    intros v Hv. now apply in_map.
Qed.

(** X21. First revision: when the refreshed metadata lists more leaders
    than [count] but none with an unknown ID, the goroutine logs "Got %d new
    leaders" with the difference of the two numbers, calls [Bootstrap] on
    the empty list, and adds its result to [count]. *)
Theorem refresh_without_news_bootstraps_nothing (W : World) (metadata newMtdt : info)
    (count : Z) (calls : nat) :
  count < Z.of_nat (length (Leaders (Cookie newMtdt))) ->
  Forall (fun v => In (ID v) (map ID (Leaders (Cookie metadata))))
    (Leaders (Cookie newMtdt)) ->
  earlier.refresh W metadata (inr newMtdt) count calls
  = ([EvLog Info "Got %d new leaders"
        [fmt_d (wrap64 (Z.of_nat (length (Leaders (Cookie newMtdt))) - count))];
      EvBootstrap []],
     wrap64 (count + fst (lite_Bootstrap W calls [])),
     S calls).
Proof.
  intros Hc Hk. unfold earlier.refresh.
  destruct (Z.gtb_spec (Z.of_nat (length (Leaders (Cookie newMtdt)))) count); [|lia].
  now rewrite (newLeadersToAdd_known _ _ Hk).
Qed.

Lemma refresh_without_news_bootstraps_nothing_witness :
  let W := sample_world (fun _ => (0, 0%N)) (inl "connection refused") ([], None) in
  (0 < Z.of_nat (length (Leaders (Cookie sample_info)))
   /\ Forall (fun v => In (ID v) (map ID (Leaders (Cookie sample_info))))
        (Leaders (Cookie sample_info)))
  /\ earlier.refresh W sample_info (inr sample_info) 0 1
     = ([EvLog Info "Got %d new leaders" ["5"]; EvBootstrap []], 0, 2%nat).
Proof.
  intro W.
  assert (H1 : 0 < Z.of_nat (length (Leaders (Cookie sample_info)))) by (cbn; lia).
  assert (H2 : Forall (fun v => In (ID v) (map ID (Leaders (Cookie sample_info))))
                 (Leaders (Cookie sample_info))).
  { apply Forall_forall. intros v Hv. now apply in_map. }
  split; [exact (conj H1 H2)|].
  exact (refresh_without_news_bootstraps_nothing W sample_info sample_info 0 1 H1 H2).
Defined.
